(** * Chess tic-tac-toe (4x4): rule engine, outcome detector, search AI and
    room manager, embedded from [src/game.js] and [src/server.js]. *)

From stdpp Require Import base numbers list strings gmap.

Local Open Scope Z_scope.

(** ** JavaScript arrays

    The board is a JavaScript array created by [Array(16).fill(null)].
    Reading an index that was never written yields [undefined]; writing past
    the end extends the array and leaves holes in between.  [reduce] and
    [every] skip holes.  A slot is therefore a hole, [null], or an object. *)

Inductive Slot (A : Type) : Type :=
  | Hole
  | Null
  | Occ (a : A).
Arguments Hole {A}.
Arguments Null {A}.
Arguments Occ {A} a.

(** [arr[i]] for a non-negative integer index. *)
Definition arr_get {A} (arr : list (Slot A)) (i : nat) : Slot A :=
  match arr !! i with
  | Some s => s
  | None => Hole
  end.

(** [arr[i]] for an arbitrary integer, on an array that has no property
    besides its elements: a negative index reads as [undefined].  This is the
    board of the local game, whose indices come from the sixteen cells of the
    page, and of the server as long as no message has written outside the
    elements ([ServerAnyIndex] has the board object in full). *)
Definition arr_getZ {A} (arr : list (Slot A)) (i : Z) : Slot A :=
  if i <? 0 then Hole else arr_get arr (Z.to_nat i).

(** [arr[i] = v]: in place inside the array, extending it otherwise. *)
Definition arr_set {A} (i : nat) (v : Slot A) (arr : list (Slot A)) : list (Slot A) :=
  if bool_decide (i < length arr)%nat
  then <[i := v]> arr
  else arr ++ replicate (i - length arr)%nat Hole ++ [v].

(** [s !== null] *)
Definition notNull {A} (s : Slot A) : bool :=
  match s with Null => false | _ => true end.

(** [s === null] *)
Definition isNull {A} (s : Slot A) : bool := negb (notNull s).

(** ** Data model (game.js 10-23, server.js 24-39) *)

Inductive Player := PLAYER_X | PLAYER_O.

Inductive PieceType := Pawn | Rook | Knight | Bishop.

#[global] Instance Player_eq_dec : EqDecision Player.
Proof. solve_decision. Defined.
#[global] Instance PieceType_eq_dec : EqDecision PieceType.
Proof. solve_decision. Defined.

(** A board cell object [{ player, type, dir? }]; [dir] is a number for
    pawns and absent ([undefined]) otherwise. *)
Record Piece := mkPiece {
  player : Player;
  type : PieceType;
  dir : option Z
}.

Abbreviation Board := (list (Slot Piece)).

Record Pools := mkPools {
  poolX : list PieceType;
  poolO : list PieceType
}.

(** [pools[player]] *)
Definition getPool (p : Pools) (pl : Player) : list PieceType :=
  match pl with PLAYER_X => poolX p | PLAYER_O => poolO p end.

(** [pools[player] = pool] (the arrays are mutated in place in the source) *)
Definition setPool (p : Pools) (pl : Player) (pool : list PieceType) : Pools :=
  match pl with
  | PLAYER_X => mkPools pool (poolO p)
  | PLAYER_O => mkPools (poolX p) pool
  end.

Definition BOARD_SIZE : Z := 4.
Definition BOARD_CELLS : nat := 16.
Definition PIECE_TYPES : list PieceType := [Pawn; Rook; Knight; Bishop].

(** [Array(BOARD_CELLS).fill(null)] *)
Definition emptyBoard : Board := replicate BOARD_CELLS Null.

Definition initialPools : Pools := mkPools PIECE_TYPES PIECE_TYPES.

(** [pool.indexOf(type)], with [None] for [-1]. *)
Fixpoint indexOf (t : PieceType) (pool : list PieceType) : option nat :=
  match pool with
  | [] => None
  | x :: rest => if bool_decide (x = t) then Some 0%nat else S <$> indexOf t rest
  end.

(** [pool.splice(idx, 1)] *)
Definition splice1 (idx : nat) (pool : list PieceType) : list PieceType :=
  delete idx pool.

Definition otherPlayer (pl : Player) : Player :=
  match pl with PLAYER_X => PLAYER_O | PLAYER_O => PLAYER_X end.

(** ** Helpers shared by both files (game.js 37-58, 553-565; server.js 67-83)

    [Math.floor(index / 4)], [index % 4] and [row * 4 + col] on integers.
    The source computes them on doubles, which are exact on integers of a
    magnitude below 2^53; the statements below about conversions keep to the
    board. *)

Definition indexToRowCol (index : Z) : Z * Z :=
  (index / BOARD_SIZE, Z.rem index BOARD_SIZE).

Definition rowColToIndex (row col : Z) : Z := row * BOARD_SIZE + col.

(** [cell && cell.player === player] *)
Definition ownedBy (pl : Player) (s : Slot Piece) : bool :=
  match s with
  | Occ pc => bool_decide (player pc = pl)
  | _ => false
  end.

(** [b.reduce((acc, cell) => acc + (cell && cell.player === player ? 1 : 0), 0)] *)
Definition countPiecesOnBoard (b : Board) (pl : Player) : nat :=
  foldl (fun acc cell => (acc + (if ownedBy pl cell then 1 else 0))%nat) 0%nat b.

Definition bothPlayersHaveThree (b : Board) : bool :=
  bool_decide (3 <= countPiecesOnBoard b PLAYER_X)%nat &&
  bool_decide (3 <= countPiecesOnBoard b PLAYER_O)%nat.

(** ** Outcome detector (game.js 68-106, server.js 41-65) *)

Definition lines : list (nat * nat * nat * nat) :=
  [ (0, 1, 2, 3); (4, 5, 6, 7); (8, 9, 10, 11); (12, 13, 14, 15);
    (0, 4, 8, 12); (1, 5, 9, 13); (2, 6, 10, 14); (3, 7, 11, 15);
    (0, 5, 10, 15); (3, 6, 9, 12) ]%nat.

(** The body of the loop of [checkWinner] for one line: [Some p] when the
    loop returns [p] there, [None] when it goes on to the next line. *)
Definition lineWinner (b : Board) (l : nat * nat * nat * nat) : option Player :=
  let '(a, b0, c, d) := l in
  match arr_get b a with
  | Occ first =>
      match arr_get b b0, arr_get b c, arr_get b d with
      | Occ p1, Occ p2, Occ p3 =>
          if bool_decide (player p1 = player first) &&
             bool_decide (player p2 = player first) &&
             bool_decide (player p3 = player first)
          then Some (player first) else None
      | _, _, _ => None
      end
  | _ => None
  end.

Fixpoint checkWinnerLoop (b : Board) (ls : list (nat * nat * nat * nat)) : option Player :=
  match ls with
  | [] => None
  | l :: rest =>
      match lineWinner b l with
      | Some w => Some w
      | None => checkWinnerLoop b rest
      end
  end.

Definition checkWinner (b : Board) : option Player := checkWinnerLoop b lines.

(** [b.every(cell => cell !== null)] *)
Definition isBoardFull (b : Board) : bool := forallb notNull b.

(** What the callers make of the two checks (game.js 837-851, 711-714;
    server.js 360-366): a winner first, a draw only without one. *)
Inductive Outcome := NoOutcome | Winner (p : Player) | Draw.

Definition detect (b : Board) : Outcome :=
  match checkWinner b with
  | Some w => Winner w
  | None => if isBoardFull b then Draw else NoOutcome
  end.

(** ** Movement geometry shared by both files

    [isLegalRookMove] / [isLegalBishopMove] of server.js 85-113 are, statement
    for statement, game.js 461-500 (reading the global board) and
    game.js 571-599 ([...OnBoard], reading [b]). *)

(** The loop
    [while (r !== tr || c !== tc) { if (b[idx] !== null) return false; r += stepRow; c += stepCol; }]
    followed by [return true].  [None] means the fuel ran out before the loop
    ended. *)
Fixpoint pathLoop (fuel : nat) (b : Board) (r c tr tc stepRow stepCol : Z) : option bool :=
  if negb (r =? tr) || negb (c =? tc) then
    match fuel with
    | 0%nat => None
    | S fuel' =>
        if notNull (arr_getZ b (rowColToIndex r c)) then Some false
        else pathLoop fuel' b (r + stepRow) (c + stepCol) tr tc stepRow stepCol
    end
  else Some true.

(** Enough iterations for any aligned pair of squares (see [pathLoop_rook_total]
    and [pathLoop_bishop_total]). *)
Definition pathFuel (fr fc tr tc : Z) : nat :=
  Z.to_nat (Z.abs (tr - fr) + Z.abs (tc - fc)).

Definition isLegalRookMove (b : Board) (fr fc tr tc : Z) : bool :=
  if negb (fr =? tr) && negb (fc =? tc) then false
  else
    let stepRow := if fr =? tr then 0 else if tr >? fr then 1 else -1 in
    let stepCol := if fc =? tc then 0 else if tc >? fc then 1 else -1 in
    match pathLoop (pathFuel fr fc tr tc) b (fr + stepRow) (fc + stepCol) tr tc stepRow stepCol with
    | Some res => res
    | None => false
    end.

Definition isLegalBishopMove (b : Board) (fr fc tr tc : Z) : bool :=
  let dr := tr - fr in
  let dc := tc - fc in
  if negb (Z.abs dr =? Z.abs dc) || (dr =? 0) then false
  else
    let stepRow := if dr >? 0 then 1 else -1 in
    let stepCol := if dc >? 0 then 1 else -1 in
    match pathLoop (pathFuel fr fc tr tc) b (fr + stepRow) (fc + stepCol) tr tc stepRow stepCol with
    | Some res => res
    | None => false
    end.

(** game.js 502-506; inlined in game.js 630-631 and server.js 149-150. *)
Definition isLegalKnightMove (dr dc : Z) : bool :=
  let adr := Z.abs dr in
  let adc := Z.abs dc in
  (adr =? 1) && (adc =? 2) || (adr =? 2) && (adc =? 1).

(** [target && target.player !== piece.player] *)
Definition isOpponentOf (piece : Piece) (target : Slot Piece) : bool :=
  match target with
  | Occ t => negb (bool_decide (player t = player piece))
  | _ => false
  end.

(** ** Effects of an accepted move, shared by both files

    The same statements appear in [tryMovePiece] (game.js 411-431), [applyMove]
    (game.js 692-702) and the [makeMove] handler (server.js 344-356). *)

(** [if (toCell && toCell.player !== me) pools[toCell.player].push(toCell.type)] *)
Definition capture (p : Pools) (me : Player) (toCell : Slot Piece) : Pools :=
  match toCell with
  | Occ t =>
      if bool_decide (player t = me) then p
      else setPool p (player t) (getPool p (player t) ++ [type t])
  | _ => p
  end.

(** [b[i].dir = d].  On a slot that holds no object the source would throw;
    that needs [fromIndex === toIndex], which every caller excludes before
    (game.js 402, 658; server.js 334), and the board is then left as it is. *)
Definition setDirAt (b : Board) (i : nat) (d : Z) : Board :=
  match arr_get b i with
  | Occ pc => arr_set i (Occ (mkPiece (player pc) (type pc) (Some d))) b
  | _ => b
  end.

(** [b[toIndex] = { ...fromCell }; b[fromIndex] = null;] and the reversal of a
    pawn's direction on row 0 or row 3. *)
Definition movePieceOnBoard (b : Board) (fromIndex toIndex : nat) (fromCell : Piece) : Board :=
  let b1 := arr_set toIndex (Occ fromCell) b in
  let b2 := arr_set fromIndex Null b1 in
  match type fromCell, dir fromCell with
  | Pawn, Some d =>
      let row := fst (indexToRowCol (Z.of_nat toIndex)) in
      if (row =? 0) || (row =? BOARD_SIZE - 1) then setDirAt b2 toIndex (- d) else b2
  | _, _ => b2
  end.

(** ** The server (server.js) *)

Module ServerJs.

Record GameState := mkGameState {
  board : Board;
  pools : Pools;
  currentPlayer : Player;
  gameOver : bool;
  winner : option Player
}.

Definition createInitialGameState : GameState :=
  mkGameState emptyBoard initialPools PLAYER_X false None.

(** server.js 115-135 *)
Definition isLegalPawnMove (b : Board) (fr fc tr tc : Z) (piece : Piece) : bool :=
  match dir piece with
  | None => false
  | Some dir =>
      let forwardRow := fr - dir in
      if (tc =? fc) && (tr =? forwardRow) && isNull (arr_getZ b (rowColToIndex tr tc))
      then true
      else if (tr =? forwardRow) && (Z.abs (tc - fc) =? 1)
              && isOpponentOf piece (arr_getZ b (rowColToIndex tr tc))
      then true
      else false
  end.

(** server.js 137-156 *)
Definition isLegalMove (b : Board) (fromIndex toIndex : nat) (piece : Piece) : bool :=
  let '(fr, fc) := indexToRowCol (Z.of_nat fromIndex) in
  let '(tr, tc) := indexToRowCol (Z.of_nat toIndex) in
  let dr := tr - fr in
  let dc := tc - fc in
  match type piece with
  | Rook => isLegalRookMove b fr fc tr tc
  | Bishop => isLegalBishopMove b fr fc tr tc
  | Knight => isLegalKnightMove dr dc
  | Pawn => isLegalPawnMove b fr fc tr tc piece
  end.

(** The payload of a [makeMove] message:
    [const { action, index, type, fromIndex, toIndex } = data], for the
    messages whose three indices are natural numbers.  Below 2^32 - 1 these
    name elements of the board array, in range or not.  The handler checks
    none of them; [ServerAnyIndex] has it for arbitrary integers, on which it
    agrees with the handler here wherever the indices name elements
    ([makeMoveOnGame_elements], [playedOnCells_any_index]). *)
Record MoveData := mkMoveData {
  d_action : string;
  d_index : nat;
  d_type : PieceType;
  d_fromIndex : nat;
  d_toIndex : nat
}.

(** server.js 313-320: the piece a placement puts on the board. *)
Definition newPiece (playerId : Player) (type : PieceType) (index : nat) : Piece :=
  match type with
  | Pawn =>
      let dir := if bool_decide (playerId = PLAYER_X) then -1 else 1 in
      let dir :=
        if bool_decide (index ∈ [12; 13; 14; 15]%nat) && bool_decide (playerId = PLAYER_X)
           || bool_decide (index ∈ [0; 1; 2; 3]%nat) && bool_decide (playerId = PLAYER_O)
        then -1 * dir else dir in
      mkPiece playerId type (Some dir)
  | _ => mkPiece playerId type None
  end.

(** server.js 359-368: winner, draw or next turn. *)
Definition checkEnd (g : GameState) : GameState :=
  match checkWinner (board g) with
  | Some w => mkGameState (board g) (pools g) (currentPlayer g) true (Some w)
  | None =>
      if isBoardFull (board g)
      then mkGameState (board g) (pools g) (currentPlayer g) true (winner g)
      else mkGameState (board g) (pools g) (otherPlayer (currentPlayer g))
             (gameOver g) (winner g)
  end.

(** server.js 287-368: the [makeMove] handler once the sender's room and side
    are known.  [inl message] is [socket.emit("error", { message }); return],
    [inr g] the state that gets broadcast. *)
Definition makeMoveOnGame (gameState : GameState) (playerId : Player) (data : MoveData)
  : string + GameState :=
  if gameOver gameState then inl "Game is over"
  else if negb (bool_decide (currentPlayer gameState = playerId)) then inl "Not your turn"
  else if String.eqb (d_action data) "place" then
    let index := d_index data in
    let type := d_type data in
    if notNull (arr_get (board gameState) index) then inl "Cell is not empty"
    else
      let pool := getPool (pools gameState) playerId in
      match indexOf type pool with
      | None => inl "Piece not available"
      | Some idx =>
          let piece := newPiece playerId type index in
          inr (checkEnd (mkGameState
                 (arr_set index (Occ piece) (board gameState))
                 (setPool (pools gameState) playerId (splice1 idx pool))
                 (currentPlayer gameState) (gameOver gameState) (winner gameState)))
      end
  else if String.eqb (d_action data) "move" then
    let fromIndex := d_fromIndex data in
    let toIndex := d_toIndex data in
    if negb (bothPlayersHaveThree (board gameState)) then inl "Cannot move yet"
    else
      match arr_get (board gameState) fromIndex with
      | Occ fromCell =>
          if negb (bool_decide (player fromCell = playerId)) then inl "Invalid move"
          else
            let toCell := arr_get (board gameState) toIndex in
            if ownedBy playerId toCell then inl "Cannot capture own piece"
            else if negb (isLegalMove (board gameState) fromIndex toIndex fromCell)
            then inl "Illegal move"
            else
              inr (checkEnd (mkGameState
                     (movePieceOnBoard (board gameState) fromIndex toIndex fromCell)
                     (capture (pools gameState) playerId toCell)
                     (currentPlayer gameState) (gameOver gameState) (winner gameState)))
      | _ => inl "Invalid move"
      end
  else
    (* neither branch is taken: control falls through to the winner check *)
    inr (checkEnd gameState).

(** *** Rooms and the session registry (server.js 18-22) *)

Record Room := mkRoom {
  players : list string;
  gameState : GameState
}.

Record PlayerInfo := mkPlayerInfo {
  roomId : string;
  playerId : Player
}.

(** The two module-level maps, [rooms] and [players]. *)
Record Server := mkServer {
  rooms : gmap string Room;
  registry : gmap string PlayerInfo
}.

Inductive Event :=
  | EvError (message : string)
  | EvGameStateUpdate (g : GameState)
  | EvPlayerDisconnected (who : Player) (reason : string)
  | EvOnlineCount (n : nat).

(** Who an event is sent to: [socket.emit], [io.to(target).emit], [io.emit]. *)
Inductive Emit :=
  | SocketEmit (socketId : string) (ev : Event)
  | IoTo (target : string) (ev : Event)
  | IoEmit (ev : Event).

(** server.js 274-372 *)
Definition onMakeMove (st : Server) (socketId : string) (data : MoveData)
  : Server * list Emit :=
  match registry st !! socketId with
  | None => (st, [SocketEmit socketId (EvError "Not in a room")])
  | Some playerInfo =>
      match rooms st !! roomId playerInfo with
      | None => (st, [SocketEmit socketId (EvError "Room not found")])
      | Some room =>
          match makeMoveOnGame (gameState room) (playerId playerInfo) data with
          | inl message => (st, [SocketEmit socketId (EvError message)])
          | inr g =>
              (mkServer (<[roomId playerInfo := mkRoom (players room) g]> (rooms st))
                        (registry st),
               [IoTo (roomId playerInfo) (EvGameStateUpdate g)])
          end
      end
  end.

(** server.js 374-416 *)
Definition onDisconnect (st : Server) (socketId : string) : Server * list Emit :=
  match registry st !! socketId with
  | Some playerInfo =>
      let '(rooms', out) :=
        match rooms st !! roomId playerInfo with
        | Some room =>
            let wasFull := bool_decide (length (players room) = 2%nat) in
            let players' := filter (fun id => id ≠ socketId) (players room) in
            match players' with
            | [] => (delete (roomId playerInfo) (rooms st), [])
            | remainingPlayerId :: _ =>
                if wasFull then
                  match registry st !! remainingPlayerId with
                  | Some remainingPlayerInfo =>
                      if negb (gameOver (gameState room)) then
                        let g := mkGameState (board (gameState room)) (pools (gameState room))
                                   (currentPlayer (gameState room)) true
                                   (Some (playerId remainingPlayerInfo)) in
                        (<[roomId playerInfo := mkRoom players' g]> (rooms st),
                         [IoTo remainingPlayerId
                            (EvPlayerDisconnected (playerId playerInfo) "opponent_disconnected");
                          IoTo remainingPlayerId (EvGameStateUpdate g)])
                      else
                        (<[roomId playerInfo := mkRoom players' (gameState room)]> (rooms st), [])
                  | None =>
                      (<[roomId playerInfo := mkRoom players' (gameState room)]> (rooms st), [])
                  end
                else
                  (<[roomId playerInfo := mkRoom players' (gameState room)]> (rooms st),
                   [IoTo (roomId playerInfo)
                      (EvPlayerDisconnected (playerId playerInfo) "waiting")])
            end
        | None => (rooms st, [])
        end in
      let registry' := delete socketId (registry st) in
      (mkServer rooms' registry', out ++ [IoEmit (EvOnlineCount (size registry'))])
  | None => (st, [IoEmit (EvOnlineCount (size (registry st)))])
  end.

(** States of a room's game.  A room starts with the initial state
    (server.js 206, 224) and is given it again when a second occupant is
    seated by [findOrCreateRoom] (server.js 181); an accepted [makeMove]
    message leads to the next state; and the [disconnect] handler ends an
    unfinished game in favour of the occupant that stays (server.js 390-393),
    writing [gameOver] and [winner] and nothing else.  The game of every room
    of a lobby is such a state ([lobby_games_reachable]). *)
Inductive reachable : GameState -> Prop :=
  | reach_init : reachable createInitialGameState
  | reach_step g playerId data g' :
      reachable g -> makeMoveOnGame g playerId data = inr g' -> reachable g'
  | reach_award g remaining :
      reachable g -> gameOver g = false ->
      reachable (mkGameState (board g) (pools g) (currentPlayer g) true (Some remaining)).

End ServerJs.

(** ** The local game and its AI (game.js) *)

Module GameJs.

(** The module-level variables [board], [pools], [currentPlayer], [gameOver]
    (game.js 20-23).  Functions that read or write them take and return this
    record. *)
Record State := mkState {
  board : Board;
  pools : Pools;
  currentPlayer : Player;
  gameOver : bool
}.

(** game.js 912-919 *)
Definition initGame : State := mkState emptyBoard initialPools PLAYER_X false.

Definition canCurrentPlayerMovePieces (st : State) : bool :=
  bothPlayersHaveThree (board st).

(** game.js 508-536, with the global board as first argument.
    [isLegalPawnMoveOnBoard] (game.js 601-617) has the same body over [b]. *)
Definition isLegalPawnMove (board : Board) (fr fc tr tc : Z) (piece : Piece) : bool :=
  match dir piece with
  | None => false
  | Some dir =>
      let forwardRow := fr + dir in
      let backwardRow := fr - dir in
      if (tc =? fc) && (tr =? forwardRow) && isNull (arr_getZ board (rowColToIndex tr tc))
      then true
      else if ((fr =? 0) || (fr =? BOARD_SIZE - 1)) && (tr =? backwardRow)
              && isNull (arr_getZ board (rowColToIndex tr tc))
      then true
      else if (tr =? forwardRow) && (Z.abs (tc - fc) =? 1)
              && isOpponentOf piece (arr_getZ board (rowColToIndex tr tc))
      then true
      else false
  end.

Definition isLegalPawnMoveOnBoard := isLegalPawnMove.

(** game.js 440-459, with the global board as first argument.
    [isLegalMoveOnBoard] (game.js 619-637) has the same body over [b]. *)
Definition isLegalMove (board : Board) (fromIndex toIndex : nat) (piece : Piece) : bool :=
  let '(fr, fc) := indexToRowCol (Z.of_nat fromIndex) in
  let '(tr, tc) := indexToRowCol (Z.of_nat toIndex) in
  let dr := tr - fr in
  let dc := tc - fc in
  match type piece with
  | Rook => isLegalRookMove board fr fc tr tc
  | Bishop => isLegalBishopMove board fr fc tr tc
  | Knight => isLegalKnightMove dr dc
  | Pawn => isLegalPawnMove board fr fc tr tc piece
  end.

Definition isLegalMoveOnBoard := isLegalMove.

(** game.js 380-385 and 680-683: the piece a placement puts on the board. *)
Definition newPiece (player : Player) (type : PieceType) : Piece :=
  match type with
  | Pawn => mkPiece player type (Some (if bool_decide (player = PLAYER_X) then -1 else 1))
  | _ => mkPiece player type None
  end.

(** game.js 837-860, without the rendering.  The AI's turn is not run here:
    [maybeTriggerAiTurn] only schedules [aiTakeTurn] for later. *)
Definition afterAction (st : State) : State :=
  match checkWinner (board st) with
  | Some _ => mkState (board st) (pools st) (currentPlayer st) true
  | None =>
      if isBoardFull (board st)
      then mkState (board st) (pools st) (currentPlayer st) true
      else mkState (board st) (pools st) (otherPlayer (currentPlayer st)) (gameOver st)
  end.

(** game.js 371-394 *)
Definition placePiece (st : State) (player : Player) (type : PieceType) (index : nat) : State :=
  if gameOver st then st
  else if negb (bool_decide (player = currentPlayer st)) then st
  else if notNull (arr_get (board st) index) then st
  else
    let pool := getPool (pools st) player in
    match indexOf type pool with
    | None => st
    | Some idx =>
        let piece := newPiece player type in
        afterAction (mkState (arr_set index (Occ piece) (board st))
                             (setPool (pools st) player (splice1 idx pool))
                             (currentPlayer st) (gameOver st))
    end.

(** game.js 396-438; the boolean is the function's return value. *)
Definition tryMovePiece (st : State) (fromIndex toIndex : nat) : State * bool :=
  if gameOver st then (st, false)
  else if negb (canCurrentPlayerMovePieces st) then (st, false)
  else
    match arr_get (board st) fromIndex with
    | Occ fromCell =>
        if negb (bool_decide (player fromCell = currentPlayer st)) then (st, false)
        else if bool_decide (fromIndex = toIndex) then (st, false)
        else
          let toCell := arr_get (board st) toIndex in
          if ownedBy (currentPlayer st) toCell then (st, false)
          else if negb (isLegalMove (board st) fromIndex toIndex fromCell) then (st, false)
          else
            (afterAction (mkState (movePieceOnBoard (board st) fromIndex toIndex fromCell)
                                  (capture (pools st) (currentPlayer st) toCell)
                                  (currentPlayer st) (gameOver st)),
             true)
    | _ => (st, false)
    end.

(** *** AI: minimax with alpha-beta pruning (game.js 543-786) *)

Definition cloneBoard (b : Board) : Board :=
  map (fun cell =>
         match cell with
         | Occ c => Occ (mkPiece (player c) (type c) (dir c))
         | Hole => Hole
         | Null => Null
         end) b.

Definition clonePools (p : Pools) : Pools := mkPools (poolX p) (poolO p).

Definition countPiecesOnBoardFor := countPiecesOnBoard.
Definition bothPlayersHaveThreeFor := bothPlayersHaveThree.

Definition canPlayerMovePiecesFor (b : Board) (p : Pools) (player : Player) : bool :=
  bothPlayersHaveThreeFor b.

(** The objects [{ kind: "place", index, type }] and [{ kind: "move", from, to }]. *)
Inductive Action :=
  | APlace (index : nat) (type : PieceType)
  | AMove (from to : nat).

(** game.js 639-650 *)
Definition getAllLegalPlacementsFor (b : Board) (p : Pools) (player : Player) : list Action :=
  let pool := getPool p player in
  match pool with
  | [] => []
  | _ =>
      flat_map (fun i => if notNull (arr_get b i) then []
                         else map (fun t => APlace i t) pool)
               (seq 0 BOARD_CELLS)
  end.

(** game.js 652-667 *)
Definition getAllLegalMovesFor (b : Board) (p : Pools) (pl : Player) : list Action :=
  flat_map (fun i =>
    match arr_get b i with
    | Occ cell =>
        if negb (bool_decide (player cell = pl)) then []
        else
          flat_map (fun j =>
            if bool_decide (i = j) then []
            else if ownedBy pl (arr_get b j) then []
            else if isLegalMoveOnBoard b i j cell then [AMove i j]
            else [])
            (seq 0 BOARD_CELLS)
    | _ => []
    end) (seq 0 BOARD_CELLS).

(** game.js 669-674 *)
Definition getAllActions (b : Board) (p : Pools) (player : Player) : list Action :=
  let placements := getAllLegalPlacementsFor b p player in
  let canMove := canPlayerMovePiecesFor b p player in
  let moves := if canMove then getAllLegalMovesFor b p player else [] in
  placements ++ moves.

(** game.js 676-686; the mutated [b] and [p] are returned. *)
Definition applyPlacement (b : Board) (p : Pools) (player : Player) (type : PieceType)
    (index : nat) : Board * Pools :=
  let pool := getPool p player in
  match indexOf type pool with
  | None => (b, p)
  | Some idx =>
      let piece := newPiece player type in
      (arr_set index (Occ piece) b, setPool p player (splice1 idx pool))
  end.

(** game.js 688-703; the mutated [b] and [p] are returned. *)
Definition applyMove (b : Board) (p : Pools) (fromIndex toIndex : nat) : Board * Pools :=
  match arr_get b fromIndex with
  | Occ fromCell =>
      let toCell := arr_get b toIndex in
      (movePieceOnBoard b fromIndex toIndex fromCell, capture p (player fromCell) toCell)
  | _ => (b, p)
  end.

Definition MINIMAX_WIN : Z := 100.
Definition MINIMAX_LOSS : Z := -100.
Definition MINIMAX_DRAW : Z := 0.
Definition MAX_DEPTH : Z := 2.

(** The branch on [action.kind] inside the search loops (game.js 730-734,
    747-751, 774-778), on clones of the position. *)
Definition applyAction (b : Board) (p : Pools) (player : Player) (action : Action)
  : Board * Pools :=
  let b2 := cloneBoard b in
  let p2 := clonePools p in
  match action with
  | APlace index type => applyPlacement b2 p2 player type index
  | AMove from to => applyMove b2 p2 from to
  end.

(** The maximizing loop (game.js 725-740).  [child action alpha beta] is the
    recursive call on the position after [action]; [None] is passed on. *)
Fixpoint maxLoop (child : Action -> Z -> Z -> option Z) (actions : list Action)
    (best alpha beta : Z) : option Z :=
  match actions with
  | [] => Some best
  | action :: rest =>
      match child action alpha beta with
      | None => None
      | Some score =>
          let best := Z.max best score in
          let alpha := Z.max alpha score in
          if beta <=? alpha then Some best
          else maxLoop child rest best alpha beta
      end
  end.

(** The minimizing loop (game.js 742-757). *)
Fixpoint minLoop (child : Action -> Z -> Z -> option Z) (actions : list Action)
    (best alpha beta : Z) : option Z :=
  match actions with
  | [] => Some best
  | action :: rest =>
      match child action alpha beta with
      | None => None
      | Some score =>
          let best := Z.min best score in
          let beta := Z.min beta score in
          if beta <=? alpha then Some best
          else minLoop child rest best alpha beta
      end
  end.

(** game.js 710-759.  The recursion goes one ply deeper each time and stops at
    [MAX_DEPTH]; [fuel] bounds the number of nested calls and [None] means it
    ran out. *)
Fixpoint minimaxFuel (fuel : nat) (b : Board) (p : Pools) (depth : Z)
    (isMaximizing : bool) (alpha beta : Z) : option Z :=
  match checkWinner b with
  | Some PLAYER_O => Some (MINIMAX_WIN - depth)
  | Some PLAYER_X => Some (MINIMAX_LOSS + depth)
  | None =>
      if isBoardFull b then Some MINIMAX_DRAW
      else if depth >=? MAX_DEPTH then Some MINIMAX_DRAW
      else
        let player := if isMaximizing then PLAYER_O else PLAYER_X in
        let actions := getAllActions b p player in
        match actions with
        | [] => Some MINIMAX_DRAW
        | _ =>
            match fuel with
            | 0%nat => None
            | S fuel' =>
                if isMaximizing then
                  maxLoop (fun action alpha beta =>
                             let '(b2, p2) := applyAction b p PLAYER_O action in
                             minimaxFuel fuel' b2 p2 (depth + 1) false alpha beta)
                          actions MINIMAX_LOSS alpha beta
                else
                  minLoop (fun action alpha beta =>
                             let '(b2, p2) := applyAction b p PLAYER_X action in
                             minimaxFuel fuel' b2 p2 (depth + 1) true alpha beta)
                          actions MINIMAX_WIN alpha beta
            end
        end
  end.

(** Nested calls needed from [depth]: one per ply up to [MAX_DEPTH]
    (see [minimaxFuel_total]). *)
Definition minimaxDepthFuel (depth : Z) : nat := Z.to_nat (MAX_DEPTH - depth).

Definition minimax (b : Board) (p : Pools) (depth : Z) (isMaximizing : bool)
    (alpha beta : Z) : Z :=
  match minimaxFuel (minimaxDepthFuel depth) b p depth isMaximizing alpha beta with
  | Some score => score
  | None => MINIMAX_DRAW
  end.

(** The selection loop of [getBestAiAction] (game.js 770-784). *)
Fixpoint bestActionLoop (board : Board) (pools : Pools) (actions : list Action)
    (bestScore : Z) (bestAction : option Action) : option Action :=
  match actions with
  | [] => bestAction
  | action :: rest =>
      let '(b2, p2) := applyAction board pools PLAYER_O action in
      let score := minimax b2 p2 0 false MINIMAX_LOSS MINIMAX_WIN in
      if score >? bestScore
      then bestActionLoop board pools rest score (Some action)
      else bestActionLoop board pools rest bestScore bestAction
  end.

(** game.js 761-786, on the global board and pools; [None] is [null]. *)
Definition getBestAiAction (board : Board) (pools : Pools) : option Action :=
  let b := cloneBoard board in
  let p := clonePools pools in
  let actions := getAllActions b p PLAYER_O in
  match actions with
  | [] => None
  | _ => bestActionLoop board pools actions MINIMAX_LOSS None
  end.

(** game.js 818-835 *)
Definition aiTakeTurn (st : State) : State :=
  if gameOver st then st
  else if negb (bool_decide (currentPlayer st = PLAYER_O)) then st
  else
    match getBestAiAction (board st) (pools st) with
    | None => mkState (board st) (pools st) PLAYER_X (gameOver st)
    | Some (APlace index type) => placePiece st PLAYER_O type index
    | Some (AMove from to) => fst (tryMovePiece st from to)
    end.

(** States of the local game: [initGame], then any calls of the three entry
    points that change the position. *)
Inductive reachable : State -> Prop :=
  | reach_init : reachable initGame
  | reach_place st player type index :
      reachable st -> reachable (placePiece st player type index)
  | reach_move st fromIndex toIndex :
      reachable st -> reachable (fst (tryMovePiece st fromIndex toIndex))
  | reach_ai st :
      reachable st -> reachable (aiTakeTurn st).

End GameJs.

(** ** Properties the specification talks about *)

(** A board and pools that occur in some reachable state of either program. *)
Inductive reachablePosition (b : Board) (p : Pools) : Prop :=
  | reachable_on_server g :
      ServerJs.reachable g -> ServerJs.board g = b -> ServerJs.pools g = p ->
      reachablePosition b p
  | reachable_in_game st :
      GameJs.reachable st -> GameJs.board st = b -> GameJs.pools st = p ->
      reachablePosition b p.

(** [side] owns all four cells of line [l]. *)
Definition ownsLine (b : Board) (side : Player) (l : nat * nat * nat * nat) : Prop :=
  let '(a, b0, c, d) := l in
  ownedBy side (arr_get b a) = true /\ ownedBy side (arr_get b b0) = true /\
  ownedBy side (arr_get b c) = true /\ ownedBy side (arr_get b d) = true.

(** One of the ten lines is owned by [side]. *)
Definition hasLine (b : Board) (side : Player) : Prop :=
  exists l, l ∈ lines /\ ownsLine b side l.

(** The ten lines in the specification's words, as runs of four squares
    given by row and column: the four rows, the four columns and the two
    diagonals. *)
Definition rowLine (row : Z) : list (Z * Z) := [ (row, 0); (row, 1); (row, 2); (row, 3) ].

Definition columnLine (col : Z) : list (Z * Z) := [ (0, col); (1, col); (2, col); (3, col) ].

Definition diagonalLines : list (list (Z * Z)) :=
  [ [ (0, 0); (1, 1); (2, 2); (3, 3) ]; [ (0, 3); (1, 2); (2, 1); (3, 0) ] ].

Definition canonicalLines : list (list (Z * Z)) :=
  map rowLine [0; 1; 2; 3] ++ map columnLine [0; 1; 2; 3] ++ diagonalLines.

(** The cell of the board at a row and a column. *)
Definition cellAt (b : Board) (square : Z * Z) : Slot Piece :=
  arr_getZ b (rowColToIndex (fst square) (snd square)).

(** [side] has a piece on every square of one of the ten canonical lines. *)
Definition ownsCanonicalLine (b : Board) (side : Player) : Prop :=
  exists line, line ∈ canonicalLines /\
               forall square, square ∈ line -> ownedBy side (cellAt b square) = true.

(** No slot of the array is missing. *)
Definition noHoles (b : Board) : bool :=
  forallb (fun s => match s with Hole => false | _ => true end) b.

(** A board of the data model: sixteen cells, each [null] or a piece. *)
Definition wfBoard (b : Board) : Prop :=
  length b = BOARD_CELLS /\ noHoles b = true.

(** Every one of the sixteen cells holds a piece. *)
Definition allOccupied (b : Board) : Prop :=
  forall i, (i < BOARD_CELLS)%nat -> exists pc, arr_get b i = Occ pc.

(** The [k]-th cell on the way from [(fr, fc)] towards [(tr, tc)], one step
    per unit of [k] along the row and column directions of the move. *)
Definition pathCell (b : Board) (fr fc tr tc k : Z) : Slot Piece :=
  arr_getZ b (rowColToIndex (fr + k * Z.sgn (tr - fr)) (fc + k * Z.sgn (tc - fc))).

(** Number of steps from source to destination of an aligned move. *)
Definition pathLength (fr fc tr tc : Z) : Z :=
  Z.max (Z.abs (tr - fr)) (Z.abs (tc - fc)).

(** Every cell strictly between source and destination is empty. *)
Definition pathClear (b : Board) (fr fc tr tc : Z) : Prop :=
  forall k, 0 < k < pathLength fr fc tr tc -> pathCell b fr fc tr tc k = Null.

(** The two destinations a pawn may have, given the row in front of it: that
    row in the pawn's own column if the cell is empty, or that row one column
    over if the cell holds an opponent's piece. *)
Definition pawnDestination (b : Board) (forwardRow fc tr tc : Z) (piece : Piece) : Prop :=
  (tc = fc /\ tr = forwardRow /\ arr_getZ b (rowColToIndex tr tc) = Null) \/
  (tr = forwardRow /\ Z.abs (tc - fc) = 1 /\
   exists t, arr_getZ b (rowColToIndex tr tc) = Occ t /\ player t ≠ player piece).

(** Pieces on the board plus pieces in the pool, four for each side. *)
Definition materialConserved (b : Board) (p : Pools) : Prop :=
  forall side, (countPiecesOnBoard b side + length (getPool p side) = 4)%nat.

(** Every pawn on the board carries a direction, and it is [1] or [-1]. *)
Definition pawnsFaceUnit (b : Board) : Prop :=
  forall i pc, arr_get b i = Occ pc -> type pc = Pawn ->
               dir pc = Some 1 \/ dir pc = Some (-1).

(** The phase never goes back: once both sides have three pieces on the
    board, no accepted message leads to a state that rejects a move for the
    phase. *)
Definition flexibleIsOneWay : Prop :=
  forall g side data g' side' data',
    ServerJs.reachable g -> bothPlayersHaveThree (ServerJs.board g) = true ->
    ServerJs.makeMoveOnGame g side data = inr g' ->
    ServerJs.makeMoveOnGame g' side' data' ≠ inl "Cannot move yet".

(** ** Matchmaking on the server (server.js 158-272) *)

Module ServerRooms.

(** The [rooms] Map iterates in insertion order.  A lobby is the server's two
    maps together with the ids of [rooms] in that order. *)
Record Lobby := mkLobby {
  lobbyServer : ServerJs.Server;
  roomOrder : list string
}.

Definition emptyLobby : Lobby := mkLobby (ServerJs.mkServer ∅ ∅) [].

(** Order of the keys after [rooms.set(roomId, ...)]: a new key goes last, a
    key that is present keeps its place. *)
Definition orderAfterSet (roomId : string) (order : list string) : list string :=
  if bool_decide (roomId ∈ order) then order else order ++ [roomId].

(** The payloads of [roomCreated], [roomJoined] and [error]. *)
Inductive RoomEvent :=
  | EvRoomCreated (roomId : string) (playerId : Player) (isFull : bool) (playersCount : nat)
  | EvRoomJoined (roomId : string) (gameState : ServerJs.GameState)
      (players : list (string * option Player)) (isFull : bool) (playersCount : nat)
  | EvRoomError (message : string).

(** [socket.emit] and [io.to(target).emit]. *)
Inductive RoomEmit :=
  | RoomSocketEmit (socketId : string) (ev : RoomEvent)
  | RoomIoTo (target : string) (ev : RoomEvent).

(** server.js 158-165, over the ids in iteration order. *)
Fixpoint findAvailableRoom (rooms : gmap string ServerJs.Room) (order : list string)
  : option string :=
  match order with
  | [] => None
  | roomId :: rest =>
      match rooms !! roomId with
      | Some room =>
          if bool_decide (length (ServerJs.players room) = 1%nat) then Some roomId
          else findAvailableRoom rooms rest
      | None => findAvailableRoom rooms rest
      end
  end.

(** [`room_${Date.now()}_${Math.random().toString(36).substr(2, 9)}`], with
    the part after the prefix given by the caller. *)
Definition newRoomId (stamp : string) : string := "room_" +:+ stamp.

(** [room.players.map(id => ({ id, playerId: players.get(id)?.playerId }))] *)
Definition playersWithSides (registry : gmap string ServerJs.PlayerInfo)
    (players : list string) : list (string * option Player) :=
  map (fun id => (id, ServerJs.playerId <$> registry !! id)) players.

(** server.js 202-217 and 220-235: a new room for the sender, who plays X. *)
Definition createRoomFor (l : Lobby) (socketId stamp : string) : Lobby * list RoomEmit :=
  let st := lobbyServer l in
  let roomId := newRoomId stamp in
  let newRoom := ServerJs.mkRoom [socketId] ServerJs.createInitialGameState in
  (mkLobby
     (ServerJs.mkServer
        (<[roomId := newRoom]> (ServerJs.rooms st))
        (<[socketId := ServerJs.mkPlayerInfo roomId PLAYER_X]> (ServerJs.registry st)))
     (orderAfterSet roomId (roomOrder l)),
   [RoomSocketEmit socketId (EvRoomCreated roomId PLAYER_X false 1)]).

(** server.js 172-218.  An id that [findAvailableRoom] returns is a key of
    [rooms] (see [findAvailableRoom_Some]); for any other the source would
    throw on [room.players], and the lobby is then left as it is. *)
Definition onFindOrCreateRoom (l : Lobby) (socketId stamp : string) : Lobby * list RoomEmit :=
  let st := lobbyServer l in
  match findAvailableRoom (ServerJs.rooms st) (roomOrder l) with
  | Some availableRoomId =>
      if String.eqb availableRoomId "" then createRoomFor l socketId stamp
      else
        match ServerJs.rooms st !! availableRoomId with
        | Some room =>
            if bool_decide (length (ServerJs.players room) < 2)%nat
               && negb (bool_decide (socketId ∈ ServerJs.players room))
            then
              let gameState := ServerJs.createInitialGameState in
              let players := ServerJs.players room ++ [socketId] in
              let registry :=
                <[socketId := ServerJs.mkPlayerInfo availableRoomId PLAYER_O]>
                  (ServerJs.registry st) in
              (mkLobby
                 (ServerJs.mkServer
                    (<[availableRoomId := ServerJs.mkRoom players gameState]>
                       (ServerJs.rooms st))
                    registry)
                 (roomOrder l),
               [RoomIoTo availableRoomId
                  (EvRoomJoined availableRoomId gameState
                     (playersWithSides registry players) true 2)])
            else createRoomFor l socketId stamp
        | None => (l, [])
        end
  | None => createRoomFor l socketId stamp
  end.

(** server.js 220-235 *)
Definition onCreateRoom (l : Lobby) (socketId stamp : string) : Lobby * list RoomEmit :=
  createRoomFor l socketId stamp.

(** server.js 237-272 *)
Definition onJoinRoom (l : Lobby) (socketId roomId : string) : Lobby * list RoomEmit :=
  let st := lobbyServer l in
  match ServerJs.rooms st !! roomId with
  | None => (l, [RoomSocketEmit socketId (EvRoomError "Room not found")])
  | Some room =>
      if bool_decide (2 <= length (ServerJs.players room))%nat
      then (l, [RoomSocketEmit socketId (EvRoomError "Room is full")])
      else if bool_decide (socketId ∈ ServerJs.players room) then (l, [])
      else
        let players := ServerJs.players room ++ [socketId] in
        let registry :=
          <[socketId := ServerJs.mkPlayerInfo roomId PLAYER_O]> (ServerJs.registry st) in
        (mkLobby
           (ServerJs.mkServer
              (<[roomId := ServerJs.mkRoom players (ServerJs.gameState room)]>
                 (ServerJs.rooms st))
              registry)
           (roomOrder l),
         [RoomIoTo roomId
            (EvRoomJoined roomId (ServerJs.gameState room)
               (playersWithSides registry players) true 2)])
  end.

(** The [makeMove] handler on a lobby: it sets no new key and deletes none. *)
Definition onMakeMove (l : Lobby) (socketId : string) (data : ServerJs.MoveData)
  : Lobby * list ServerJs.Emit :=
  let '(st, out) := ServerJs.onMakeMove (lobbyServer l) socketId data in
  (mkLobby st (roomOrder l), out).

(** The [disconnect] handler on a lobby: the ids that are still keys of
    [rooms] keep their order. *)
Definition onDisconnect (l : Lobby) (socketId : string) : Lobby * list ServerJs.Emit :=
  let '(st, out) := ServerJs.onDisconnect (lobbyServer l) socketId in
  (mkLobby st (filter (fun id => is_Some (ServerJs.rooms st !! id)) (roomOrder l)), out).

(** Lobbies the five handlers lead to, with any senders and any payloads. *)
Inductive reachable : Lobby -> Prop :=
  | reach_empty : reachable emptyLobby
  | reach_find l socketId stamp :
      reachable l -> reachable (fst (onFindOrCreateRoom l socketId stamp))
  | reach_create l socketId stamp :
      reachable l -> reachable (fst (onCreateRoom l socketId stamp))
  | reach_join l socketId roomId :
      reachable l -> reachable (fst (onJoinRoom l socketId roomId))
  | reach_move l socketId data :
      reachable l -> reachable (fst (onMakeMove l socketId data))
  | reach_disconnect l socketId :
      reachable l -> reachable (fst (onDisconnect l socketId)).

(** Lobbies reached when every connection behaves like the client's
    automatic flow: it asks for a room once, before anything else, and the id
    of a room that gets created is not in use. *)
Inductive autoJoinReachable : Lobby -> Prop :=
  | auto_empty : autoJoinReachable emptyLobby
  | auto_find l socketId stamp :
      autoJoinReachable l ->
      ServerJs.registry (lobbyServer l) !! socketId = None ->
      ServerJs.rooms (lobbyServer l) !! newRoomId stamp = None ->
      autoJoinReachable (fst (onFindOrCreateRoom l socketId stamp))
  | auto_move l socketId data :
      autoJoinReachable l -> autoJoinReachable (fst (onMakeMove l socketId data))
  | auto_disconnect l socketId :
      autoJoinReachable l -> autoJoinReachable (fst (onDisconnect l socketId)).

(** Every room has one or two occupants, and no occupant twice. *)
Definition roomsWellSized (l : Lobby) : Prop :=
  forall rid room,
    ServerJs.rooms (lobbyServer l) !! rid = Some room ->
    (1 <= length (ServerJs.players room) <= 2)%nat /\ NoDup (ServerJs.players room).

(** [roomOrder] lists the keys of [rooms], each once. *)
Definition orderMatches (l : Lobby) : Prop :=
  NoDup (roomOrder l) /\
  forall rid, rid ∈ roomOrder l <-> is_Some (ServerJs.rooms (lobbyServer l) !! rid).

End ServerRooms.

(** The two properties of a lobby that every handler keeps. *)
Definition lobbyOk (l : ServerRooms.Lobby) : Prop :=
  ServerRooms.roomsWellSized l /\ ServerRooms.orderMatches l.

(** Seats and registry agree: every occupant of a room is registered for that
    room, and every registered connection sits in the room it is registered
    for. *)
Definition seatsMatchRegistry (l : ServerRooms.Lobby) : Prop :=
  (forall rid room s,
     ServerJs.rooms (ServerRooms.lobbyServer l) !! rid = Some room ->
     s ∈ ServerJs.players room ->
     exists side,
       ServerJs.registry (ServerRooms.lobbyServer l) !! s
       = Some (ServerJs.mkPlayerInfo rid side)) /\
  (forall s info,
     ServerJs.registry (ServerRooms.lobbyServer l) !! s = Some info ->
     exists room,
       ServerJs.rooms (ServerRooms.lobbyServer l) !! ServerJs.roomId info = Some room /\
       s ∈ ServerJs.players room).

(** ** Counting pieces by kind *)

Fixpoint countIf {A : Type} (f : A -> bool) (l : list A) : nat :=
  match l with
  | [] => 0
  | x :: rest => ((if f x then 1 else 0) + countIf f rest)%nat
  end.

(** The slot holds a piece of [side] of kind [kind]. *)
Definition isPieceOf (side : Player) (kind : PieceType) (s : Slot Piece) : bool :=
  match s with
  | Occ pc => bool_decide (player pc = side) && bool_decide (type pc = kind)
  | _ => false
  end.

Definition countKindOnBoard (b : Board) (side : Player) (kind : PieceType) : nat :=
  countIf (isPieceOf side kind) b.

Definition countKindInPool (pool : list PieceType) (kind : PieceType) : nat :=
  countIf (fun t => bool_decide (t = kind)) pool.

(** Each side has exactly one piece of each kind, on the board or in its
    pool. *)
Definition oneOfEachKind (b : Board) (p : Pools) : Prop :=
  forall side kind,
    (countKindOnBoard b side kind + countKindInPool (getPool p side) kind = 1)%nat.

(** The slot holds a piece. *)
Definition isOccupied (s : Slot Piece) : bool :=
  match s with Occ _ => true | _ => false end.

(** Slots that are [null] or hold a piece. *)
Definition cellCount (b : Board) : nat := (countIf isNull b + countIf isOccupied b)%nat.

(** The piece that stands on the destination after a move: the moved piece,
    with its direction negated if it is a pawn arriving on row 0 or 3. *)
Definition movedPiece (fromCell : Piece) (toIndex : nat) : Piece :=
  match type fromCell, dir fromCell with
  | Pawn, Some d =>
      let row := fst (indexToRowCol (Z.of_nat toIndex)) in
      if (row =? 0) || (row =? 3) then mkPiece (player fromCell) Pawn (Some (- d))
      else fromCell
  | _, _ => fromCell
  end.

(** States of the server's game when every move names a destination among
    the sixteen cells. *)
Inductive playedOnCells : ServerJs.GameState -> Prop :=
  | cells_init : playedOnCells ServerJs.createInitialGameState
  | cells_step g side data g' :
      playedOnCells g ->
      (ServerJs.d_toIndex data < BOARD_CELLS)%nat ->
      ServerJs.makeMoveOnGame g side data = inr g' ->
      playedOnCells g'
  | cells_award g remaining :
      playedOnCells g -> ServerJs.gameOver g = false ->
      playedOnCells (ServerJs.mkGameState (ServerJs.board g) (ServerJs.pools g)
                       (ServerJs.currentPlayer g) true (Some remaining)).

(** States of the local game when every move names a destination among the
    sixteen cells, as the clicks on the board and the AI do. *)
Inductive playedOnCellsLocally : GameJs.State -> Prop :=
  | local_init : playedOnCellsLocally GameJs.initGame
  | local_place st side t index :
      playedOnCellsLocally st -> playedOnCellsLocally (GameJs.placePiece st side t index)
  | local_move st fromIndex toIndex :
      playedOnCellsLocally st -> (toIndex < BOARD_CELLS)%nat ->
      playedOnCellsLocally (fst (GameJs.tryMovePiece st fromIndex toIndex))
  | local_ai st :
      playedOnCellsLocally st -> playedOnCellsLocally (GameJs.aiTakeTurn st).


(** A server game and a local game show the same position: board, pools,
    side to move and the game-over flag (the local game keeps no winner
    field). *)
Definition sameGame (g : ServerJs.GameState) (st : GameJs.State) : Prop :=
  ServerJs.board g = GameJs.board st /\ ServerJs.pools g = GameJs.pools st /\
  ServerJs.currentPlayer g = GameJs.currentPlayer st /\
  ServerJs.gameOver g = GameJs.gameOver st.

(** The same piece facing the other way. *)
Definition turnedAround (piece : Piece) : Piece :=
  mkPiece (player piece) (type piece) (option_map Z.opp (dir piece)).

(** How the server's [gameOver] and [winner] stand to the outcome detector's
    verdict on the board: a verdict is stored as it is; without a verdict the
    game is either going on, or it was ended by a disconnect and has the
    winner the disconnect named. *)
Definition resultStored (g : ServerJs.GameState) : Prop :=
  match detect (ServerJs.board g) with
  | Winner w => ServerJs.gameOver g = true /\ ServerJs.winner g = Some w
  | Draw => ServerJs.gameOver g = true /\ ServerJs.winner g = None
  | NoOutcome =>
      (ServerJs.gameOver g = false /\ ServerJs.winner g = None) \/
      (ServerJs.gameOver g = true /\ exists w, ServerJs.winner g = Some w)
  end.

(** ** The browser client with online play (src/unnamed/part_000)

    The client keeps its own copy of the position, sends the player's actions
    to the server when the mode is "online" and applies them itself in the
    other modes.  Rendering, the status line and the timer that schedules the
    AI are left out; [roomId], [onlineCount] and [isAiThinking] only feed
    those. *)

Module OnlineClient.

Inductive Mode := ModeHuman | ModeAi | ModeOnline.

#[global] Instance Mode_eq_dec : EqDecision Mode.
Proof. solve_decision. Defined.

(** The variables [board], [pools], [currentPlayer], [gameOver] and
    [lastMoveIndex] (part_000 20-26).  A history snapshot is an object with
    the same five fields (part_000 1096-1105). *)
Record Position := mkPosition {
  board : Board;
  pools : Pools;
  currentPlayer : Player;
  gameOver : bool;
  lastMoveIndex : option nat
}.

(** The remaining variables (part_000 28-45); [socket] tells whether the
    variable holds a connection. *)
Record Client := mkClient {
  position : Position;
  moveHistory : list Position;
  moveIndex : Z;
  gameMode : Mode;
  socket : bool;
  onlinePlayerId : option Player;
  isRoomFull : bool;
  selectedFromBoardIndex : option nat;
  selectedPoolPiece : option (Player * PieceType)
}.

Definition withPosition (c : Client) (p : Position) : Client :=
  mkClient p (moveHistory c) (moveIndex c) (gameMode c) (socket c) (onlinePlayerId c)
           (isRoomFull c) (selectedFromBoardIndex c) (selectedPoolPiece c).

Definition withHistory (c : Client) (history : list Position) (index : Z) : Client :=
  mkClient (position c) history index (gameMode c) (socket c) (onlinePlayerId c)
           (isRoomFull c) (selectedFromBoardIndex c) (selectedPoolPiece c).

Definition withSelection (c : Client) (fromBoard : option nat)
    (fromPool : option (Player * PieceType)) : Client :=
  mkClient (position c) (moveHistory c) (moveIndex c) (gameMode c) (socket c)
           (onlinePlayerId c) (isRoomFull c) fromBoard fromPool.

Definition withConnection (c : Client) (mode : Mode) (connected : bool)
    (playerId : option Player) (full : bool) : Client :=
  mkClient (position c) (moveHistory c) (moveIndex c) mode connected playerId full
           (selectedFromBoardIndex c) (selectedPoolPiece c).

(** [gameMode === "online" && onlinePlayerId === PLAYER_O] *)
Definition shouldFlip (c : Client) : bool :=
  bool_decide (gameMode c = ModeOnline) && bool_decide (onlinePlayerId c = Some PLAYER_O).

(** part_000 141-153 *)
Definition getDisplayIndex (c : Client) (boardIndex : Z) : Z :=
  if shouldFlip c then Z.of_nat BOARD_CELLS - 1 - boardIndex else boardIndex.

(** part_000 155-166 *)
Definition getBoardIndex (c : Client) (displayIndex : Z) : Z :=
  if shouldFlip c then Z.of_nat BOARD_CELLS - 1 - displayIndex else displayIndex.

(** [b.map(cell => (cell ? { ...cell } : null))] *)
Definition copyBoard (b : Board) : Board :=
  map (fun cell =>
         match cell with
         | Occ pc => Occ (mkPiece (player pc) (type pc) (dir pc))
         | Hole => Hole
         | Null => Null
         end) b.

(** [{ X: p.X.slice(), O: p.O.slice() }] *)
Definition copyPools (p : Pools) : Pools := mkPools (poolX p) (poolO p).

Definition copyPosition (p : Position) : Position :=
  mkPosition (copyBoard (board p)) (copyPools (pools p)) (currentPlayer p) (gameOver p)
             (lastMoveIndex p).

(** part_000 1094-1114 *)
Definition recordHistorySnapshot (c : Client) : Client :=
  let snapshot := copyPosition (position c) in
  let len := Z.of_nat (length (moveHistory c)) in
  let history :=
    if (0 <=? moveIndex c) && (moveIndex c <? len - 1)
    then take (Z.to_nat (moveIndex c + 1)) (moveHistory c)
    else moveHistory c in
  let history := history ++ [snapshot] in
  withHistory c history (Z.of_nat (length history) - 1).

(** part_000 1116-1140.  The index is stored before the snapshot is looked
    up, so a missing snapshot would leave only the index changed. *)
Definition stepHistory (c : Client) (direction : Z) : Client :=
  if bool_decide (length (moveHistory c) = 0%nat) then c
  else
    let newIndex := moveIndex c + direction in
    if (newIndex <? 0) || (Z.of_nat (length (moveHistory c)) <=? newIndex) then c
    else
      let c := withHistory c (moveHistory c) newIndex in
      match moveHistory c !! Z.to_nat newIndex with
      | None => c
      | Some snapshot => withPosition c (copyPosition snapshot)
      end.

(** [moveHistory.length > 0 && moveIndex !== moveHistory.length - 1]: an older
    position is on screen. *)
Definition viewingHistory (c : Client) : bool :=
  bool_decide (0 < length (moveHistory c))%nat
  && negb (moveIndex c =? Z.of_nat (length (moveHistory c)) - 1).

Definition canCurrentPlayerMovePieces (c : Client) : bool :=
  bothPlayersHaveThree (board (position c)).

(** part_000 674-700 *)
Definition isLegalPawnMove (board : Board) (fr fc tr tc : Z) (piece : Piece) : bool :=
  match dir piece with
  | None => false
  | Some dir =>
      let forwardRow := fr - dir in
      if (tc =? fc) && (tr =? forwardRow) && isNull (arr_getZ board (rowColToIndex tr tc))
      then true
      else if (tr =? forwardRow) && (Z.abs (tc - fc) =? 1)
              && isOpponentOf piece (arr_getZ board (rowColToIndex tr tc))
      then true
      else false
  end.

(** part_000 606-625 *)
Definition isLegalMove (board : Board) (fromIndex toIndex : nat) (piece : Piece) : bool :=
  let '(fr, fc) := indexToRowCol (Z.of_nat fromIndex) in
  let '(tr, tc) := indexToRowCol (Z.of_nat toIndex) in
  let dr := tr - fr in
  let dc := tc - fc in
  match type piece with
  | Rook => isLegalRookMove board fr fc tr tc
  | Bishop => isLegalBishopMove board fr fc tr tc
  | Knight => isLegalKnightMove dr dc
  | Pawn => isLegalPawnMove board fr fc tr tc piece
  end.

(** part_000 526-535: the piece a local placement puts on the board. *)
Definition newPiece (player : Player) (type : PieceType) (index : nat) : Piece :=
  match type with
  | Pawn =>
      let dir := if bool_decide (player = PLAYER_X) then 1 else -1 in
      let dir :=
        if bool_decide (index ∈ [12; 13; 14; 15]%nat) && bool_decide (player = PLAYER_O)
           || bool_decide (index ∈ [0; 1; 2; 3]%nat) && bool_decide (player = PLAYER_X)
        then -1 * dir else dir in
      mkPiece player type (Some dir)
  | _ => mkPiece player type None
  end.

Definition endGame (p : Position) : Position :=
  mkPosition (board p) (pools p) (currentPlayer p) true (lastMoveIndex p).

(** part_000 1003-1036 *)
Definition afterAction (c : Client) : Client :=
  match gameMode c with
  | ModeOnline => c
  | _ =>
      let p := position c in
      match checkWinner (board p) with
      | Some _ => recordHistorySnapshot (withPosition c (endGame p))
      | None =>
          if isBoardFull (board p)
          then recordHistorySnapshot (withPosition c (endGame p))
          else recordHistorySnapshot
                 (withPosition c (mkPosition (board p) (pools p) (otherPlayer (currentPlayer p))
                                             (gameOver p) (lastMoveIndex p)))
      end
  end.

(** The messages [{ action: "place", index, type }] and
    [{ action: "move", fromIndex, toIndex }]; the fields a message lacks are
    not read by the server's branch for its action. *)
Definition placeMessage (index : nat) (type : PieceType) : ServerJs.MoveData :=
  ServerJs.mkMoveData "place" index type 0 0.

Definition moveMessage (fromIndex toIndex : nat) : ServerJs.MoveData :=
  ServerJs.mkMoveData "move" 0 Pawn fromIndex toIndex.

(** part_000 507-547.  The second component is the [makeMove] message sent to
    the server, if any. *)
Definition placePiece (c : Client) (player : Player) (type : PieceType) (index : nat)
  : Client * option ServerJs.MoveData :=
  let p := position c in
  if gameOver p then (c, None)
  else if viewingHistory c then (c, None)
  else if negb (bool_decide (player = currentPlayer p)) then (c, None)
  else if notNull (arr_get (board p) index) then (c, None)
  else if bool_decide (gameMode c = ModeOnline) && socket c then
    if negb (isRoomFull c) then (c, None)
    else if negb (bool_decide (Some player = onlinePlayerId c)) then (c, None)
    else (c, Some (placeMessage index type))
  else
    let pool := getPool (pools p) player in
    match indexOf type pool with
    | None => (c, None)
    | Some idx =>
        let piece := newPiece player type index in
        let p' := mkPosition (arr_set index (Occ piece) (board p))
                             (setPool (pools p) player (splice1 idx pool))
                             (currentPlayer p) (gameOver p) (Some index) in
        (afterAction (withSelection (withPosition c p') None None), None)
    end.

(** part_000 549-604.  The boolean is the function's return value, the last
    component the message sent to the server, if any. *)
Definition tryMovePiece (c : Client) (fromIndex toIndex : nat)
  : Client * bool * option ServerJs.MoveData :=
  let p := position c in
  if gameOver p then (c, false, None)
  else if viewingHistory c then (c, false, None)
  else if negb (canCurrentPlayerMovePieces c) then (c, false, None)
  else
    match arr_get (board p) fromIndex with
    | Occ fromCell =>
        if negb (bool_decide (player fromCell = currentPlayer p)) then (c, false, None)
        else if bool_decide (fromIndex = toIndex) then (c, false, None)
        else
          let toCell := arr_get (board p) toIndex in
          if ownedBy (currentPlayer p) toCell then (c, false, None)
          else if negb (isLegalMove (board p) fromIndex toIndex fromCell) then (c, false, None)
          else if bool_decide (gameMode c = ModeOnline) && socket c then
            if negb (isRoomFull c) then (c, false, None)
            else if negb (bool_decide (Some (player fromCell) = onlinePlayerId c))
            then (c, false, None)
            else (c, true, Some (moveMessage fromIndex toIndex))
          else
            let p' := mkPosition (movePieceOnBoard (board p) fromIndex toIndex fromCell)
                                 (capture (pools p) (currentPlayer p) toCell)
                                 (currentPlayer p) (gameOver p) (Some toIndex) in
            (afterAction (withSelection (withPosition c p') None None), true, None)
    | _ => (c, false, None)
    end.

(** The test inside the loop of [syncGameStateFromServer] (part_000 1328-1331). *)
Definition cellChanged (oldCell newCell : Slot Piece) : bool :=
  match oldCell, newCell with
  | Occ o, Occ n =>
      negb (bool_decide (player o = player n)) || negb (bool_decide (type o = type n))
      || negb (bool_decide (dir o = dir n))
  | Occ _, _ => false
  | _, Occ _ => true
  | _, _ => false
  end.

(** The loop (part_000 1323-1334): the first of the sixteen cells that changed. *)
Definition firstChanged (previousBoard b : Board) : option nat :=
  find (fun i => cellChanged (arr_get previousBoard i) (arr_get b i)) (seq 0 BOARD_CELLS).

(** part_000 1305-1360 *)
Definition syncGameStateFromServer (c : Client) (gameState : ServerJs.GameState) : Client :=
  let previousBoard :=
    if bool_decide (0 < length (board (position c)))%nat
    then Some (copyBoard (board (position c))) else None in
  let previousCurrentPlayer := currentPlayer (position c) in
  let b := copyBoard (ServerJs.board gameState) in
  let cur := ServerJs.currentPlayer gameState in
  let over := ServerJs.gameOver gameState in
  let last :=
    match previousBoard with
    | Some previous =>
        if negb (bool_decide (previousCurrentPlayer = cur)) && negb over
        then match firstChanged previous b with
             | Some i => Some i
             | None => lastMoveIndex (position c)
             end
        else lastMoveIndex (position c)
    | None => None
    end in
  let c := withPosition c (mkPosition b (copyPools (ServerJs.pools gameState)) cur over last) in
  let c := recordHistorySnapshot c in
  match ServerJs.winner gameState with
  | Some _ => withPosition c (endGame (position c))
  | None => if over then withPosition c (endGame (position c)) else c
  end.

Definition initialPosition : Position :=
  mkPosition emptyBoard initialPools PLAYER_X false None.

(** part_000 1154-1208.  In online mode a connection is opened if there is
    none (and [findOrCreateRoom] is sent over it). *)
Definition initGame (c : Client) : Client :=
  let connected := socket c || bool_decide (gameMode c = ModeOnline) in
  recordHistorySnapshot
    (mkClient initialPosition [] (-1) (gameMode c) connected (onlinePlayerId c)
              (isRoomFull c) None None).

(** part_000 1210-1235 *)
Definition setGameMode (c : Client) (mode : Mode) : Client :=
  let c :=
    if bool_decide (gameMode c = ModeOnline) && negb (bool_decide (mode = ModeOnline))
       && socket c
    then withConnection c (gameMode c) false None false else c in
  let c :=
    if bool_decide (mode = ModeOnline) && negb (socket c)
    then withConnection c (gameMode c) true (onlinePlayerId c) (isRoomFull c) else c in
  initGame (withConnection c mode (socket c) (onlinePlayerId c) (isRoomFull c)).

(** part_000 984-1001, the branch without an action: the turn goes back to X. *)
Definition aiPasses (c : Client) : Client :=
  let p := position c in
  withPosition c (mkPosition (board p) (pools p) PLAYER_X (gameOver p) (lastMoveIndex p)).

(** The client's states: a game is set up, then pieces are placed and moved,
    the history is browsed, the server's updates arrive, the connection
    variables are assigned by the socket handlers (part_000 1244-1302), and
    the AI may find no action. *)
Inductive running : Client -> Prop :=
  | run_init c : running (initGame c)
  | run_mode c mode : running c -> running (setGameMode c mode)
  | run_place c side t index : running c -> running (fst (placePiece c side t index))
  | run_move c fromIndex toIndex :
      running c -> running (fst (fst (tryMovePiece c fromIndex toIndex)))
  | run_step c direction : running c -> running (stepHistory c direction)
  | run_sync c gameState : running c -> running (syncGameStateFromServer c gameState)
  | run_handler c playerId full :
      running c -> running (withConnection c (gameMode c) (socket c) playerId full)
  | run_select c fromBoard fromPool : running c -> running (withSelection c fromBoard fromPool)
  | run_pass c : running c -> running (aiPasses c).

(** The client shows the server's position. *)
Definition mirrors (c : Client) (g : ServerJs.GameState) : Prop :=
  board (position c) = ServerJs.board g /\ pools (position c) = ServerJs.pools g /\
  currentPlayer (position c) = ServerJs.currentPlayer g /\
  gameOver (position c) = ServerJs.gameOver g.

(** The snapshot under the history cursor. *)
Definition snapshotAtCursor (c : Client) : option Position :=
  if moveIndex c <? 0 then None else moveHistory c !! Z.to_nat (moveIndex c).

End OnlineClient.

(** The cell an action ends on: the cell of a placement, the destination of a
    move. *)
Definition destination (data : ServerJs.MoveData) : nat :=
  if String.eqb (ServerJs.d_action data) "place"
  then ServerJs.d_index data else ServerJs.d_toIndex data.

(** ** The [makeMove] handler for any integer index (server.js 85-156, 274-372)

    The handler takes [index], [fromIndex] and [toIndex] from the message and
    uses them as they come (server.js 287).  [ServerJs.makeMoveOnGame] covers
    the messages in which they name elements of the board array; here they are
    arbitrary integers (of a magnitude below 2^53, where the arithmetic of the
    handler is exact).  On a JavaScript array an integer from 0 to 2^32 - 2
    names an element.  Any other integer names an ordinary property of the
    array object: it can be read and written like an element, but [reduce],
    [every] and the table of [checkWinner] never visit it. *)

Module ServerAnyIndex.

(** The integers that are array indices. *)
Definition isArrayIndex (k : Z) : bool := (0 <=? k) && (k <? 2 ^ 32 - 1).

(** The board array as an object: its elements, and its properties under the
    integers that are not array indices. *)
Record BoardObject := mkBoardObject {
  cells : Board;
  props : gmap Z (Slot Piece)
}.

(** [board[k]]; a property that was never written reads as [undefined]. *)
Definition getAt (o : BoardObject) (k : Z) : Slot Piece :=
  if isArrayIndex k then arr_get (cells o) (Z.to_nat k)
  else match props o !! k with
       | Some v => v
       | None => Hole
       end.

(** [board[k] = v] *)
Definition setAt (k : Z) (v : Slot Piece) (o : BoardObject) : BoardObject :=
  if isArrayIndex k then mkBoardObject (arr_set (Z.to_nat k) v (cells o)) (props o)
  else mkBoardObject (cells o) (<[k := v]> (props o)).

Record GameState := mkGameState {
  board : BoardObject;
  pools : Pools;
  currentPlayer : Player;
  gameOver : bool;
  winner : option Player
}.

(** server.js 28-39 *)
Definition createInitialGameState : GameState :=
  mkGameState (mkBoardObject emptyBoard ∅) initialPools PLAYER_X false None.

(** The loop of [isLegalRookMove] and [isLegalBishopMove] (server.js 90-95,
    106-111), as [pathLoop], reading the board object. *)
Fixpoint pathLoop (fuel : nat) (o : BoardObject) (r c tr tc stepRow stepCol : Z)
  : option bool :=
  if negb (r =? tr) || negb (c =? tc) then
    match fuel with
    | 0%nat => None
    | S fuel' =>
        if notNull (getAt o (rowColToIndex r c)) then Some false
        else pathLoop fuel' o (r + stepRow) (c + stepCol) tr tc stepRow stepCol
    end
  else Some true.

(** server.js 85-97 *)
Definition isLegalRookMove (o : BoardObject) (fr fc tr tc : Z) : bool :=
  if negb (fr =? tr) && negb (fc =? tc) then false
  else
    let stepRow := if fr =? tr then 0 else if tr >? fr then 1 else -1 in
    let stepCol := if fc =? tc then 0 else if tc >? fc then 1 else -1 in
    match pathLoop (pathFuel fr fc tr tc) o (fr + stepRow) (fc + stepCol) tr tc stepRow stepCol with
    | Some res => res
    | None => false
    end.

(** server.js 99-113 *)
Definition isLegalBishopMove (o : BoardObject) (fr fc tr tc : Z) : bool :=
  let dr := tr - fr in
  let dc := tc - fc in
  if negb (Z.abs dr =? Z.abs dc) || (dr =? 0) then false
  else
    let stepRow := if dr >? 0 then 1 else -1 in
    let stepCol := if dc >? 0 then 1 else -1 in
    match pathLoop (pathFuel fr fc tr tc) o (fr + stepRow) (fc + stepCol) tr tc stepRow stepCol with
    | Some res => res
    | None => false
    end.

(** server.js 115-135 *)
Definition isLegalPawnMove (o : BoardObject) (fr fc tr tc : Z) (piece : Piece) : bool :=
  match dir piece with
  | None => false
  | Some dir =>
      let forwardRow := fr - dir in
      if (tc =? fc) && (tr =? forwardRow) && isNull (getAt o (rowColToIndex tr tc))
      then true
      else if (tr =? forwardRow) && (Z.abs (tc - fc) =? 1)
              && isOpponentOf piece (getAt o (rowColToIndex tr tc))
      then true
      else false
  end.

(** server.js 137-156 *)
Definition isLegalMove (o : BoardObject) (fromIndex toIndex : Z) (piece : Piece) : bool :=
  let '(fr, fc) := indexToRowCol fromIndex in
  let '(tr, tc) := indexToRowCol toIndex in
  let dr := tr - fr in
  let dc := tc - fc in
  match type piece with
  | Rook => isLegalRookMove o fr fc tr tc
  | Bishop => isLegalBishopMove o fr fc tr tc
  | Knight => isLegalKnightMove dr dc
  | Pawn => isLegalPawnMove o fr fc tr tc piece
  end.

(** The payload of a [makeMove] message with integer indices. *)
Record MoveData := mkMoveData {
  d_action : string;
  d_index : Z;
  d_type : PieceType;
  d_fromIndex : Z;
  d_toIndex : Z
}.

(** server.js 313-320 *)
Definition newPiece (playerId : Player) (type : PieceType) (index : Z) : Piece :=
  match type with
  | Pawn =>
      let dir := if bool_decide (playerId = PLAYER_X) then -1 else 1 in
      let dir :=
        if bool_decide (index ∈ [12; 13; 14; 15]) && bool_decide (playerId = PLAYER_X)
           || bool_decide (index ∈ [0; 1; 2; 3]) && bool_decide (playerId = PLAYER_O)
        then -1 * dir else dir in
      mkPiece playerId type (Some dir)
  | _ => mkPiece playerId type None
  end.

(** [board[i].dir = d], as [setDirAt]. *)
Definition setDirAt (o : BoardObject) (i : Z) (d : Z) : BoardObject :=
  match getAt o i with
  | Occ pc => setAt i (Occ (mkPiece (player pc) (type pc) (Some d))) o
  | _ => o
  end.

(** server.js 347-356 *)
Definition movePieceOnBoard (o : BoardObject) (fromIndex toIndex : Z) (fromCell : Piece)
  : BoardObject :=
  let o1 := setAt toIndex (Occ fromCell) o in
  let o2 := setAt fromIndex Null o1 in
  match type fromCell, dir fromCell with
  | Pawn, Some d =>
      let row := fst (indexToRowCol toIndex) in
      if (row =? 0) || (row =? BOARD_SIZE - 1) then setDirAt o2 toIndex (- d) else o2
  | _, _ => o2
  end.

(** server.js 359-368; [checkWinner] and [isBoardFull] see the elements only. *)
Definition checkEnd (g : GameState) : GameState :=
  match checkWinner (cells (board g)) with
  | Some w => mkGameState (board g) (pools g) (currentPlayer g) true (Some w)
  | None =>
      if isBoardFull (cells (board g))
      then mkGameState (board g) (pools g) (currentPlayer g) true (winner g)
      else mkGameState (board g) (pools g) (otherPlayer (currentPlayer g))
             (gameOver g) (winner g)
  end.

(** server.js 287-368, as [ServerJs.makeMoveOnGame]. *)
Definition makeMoveOnGame (gameState : GameState) (playerId : Player) (data : MoveData)
  : string + GameState :=
  if gameOver gameState then inl "Game is over"
  else if negb (bool_decide (currentPlayer gameState = playerId)) then inl "Not your turn"
  else if String.eqb (d_action data) "place" then
    let index := d_index data in
    let type := d_type data in
    if notNull (getAt (board gameState) index) then inl "Cell is not empty"
    else
      let pool := getPool (pools gameState) playerId in
      match indexOf type pool with
      | None => inl "Piece not available"
      | Some idx =>
          let piece := newPiece playerId type index in
          inr (checkEnd (mkGameState
                 (setAt index (Occ piece) (board gameState))
                 (setPool (pools gameState) playerId (splice1 idx pool))
                 (currentPlayer gameState) (gameOver gameState) (winner gameState)))
      end
  else if String.eqb (d_action data) "move" then
    let fromIndex := d_fromIndex data in
    let toIndex := d_toIndex data in
    if negb (bothPlayersHaveThree (cells (board gameState))) then inl "Cannot move yet"
    else
      match getAt (board gameState) fromIndex with
      | Occ fromCell =>
          if negb (bool_decide (player fromCell = playerId)) then inl "Invalid move"
          else
            let toCell := getAt (board gameState) toIndex in
            if ownedBy playerId toCell then inl "Cannot capture own piece"
            else if negb (isLegalMove (board gameState) fromIndex toIndex fromCell)
            then inl "Illegal move"
            else
              inr (checkEnd (mkGameState
                     (movePieceOnBoard (board gameState) fromIndex toIndex fromCell)
                     (capture (pools gameState) playerId toCell)
                     (currentPlayer gameState) (gameOver gameState) (winner gameState)))
      | _ => inl "Invalid move"
      end
  else
    inr (checkEnd gameState).

(** States of a room's game, as [ServerJs.reachable]. *)
Inductive reachable : GameState -> Prop :=
  | reach_init : reachable createInitialGameState
  | reach_step g playerId data g' :
      reachable g -> makeMoveOnGame g playerId data = inr g' -> reachable g'
  | reach_award g remaining :
      reachable g -> gameOver g = false ->
      reachable (mkGameState (board g) (pools g) (currentPlayer g) true (Some remaining)).

(** A message whose indices are natural numbers, and a state whose board has
    no property besides its elements. *)
Definition ofMoveData (data : ServerJs.MoveData) : MoveData :=
  mkMoveData (ServerJs.d_action data) (Z.of_nat (ServerJs.d_index data))
    (ServerJs.d_type data) (Z.of_nat (ServerJs.d_fromIndex data))
    (Z.of_nat (ServerJs.d_toIndex data)).

Definition ofGameState (g : ServerJs.GameState) : GameState :=
  mkGameState (mkBoardObject (ServerJs.board g) ∅) (ServerJs.pools g)
    (ServerJs.currentPlayer g) (ServerJs.gameOver g) (ServerJs.winner g).

(** The messages of [ServerJs.MoveData] that name elements of the array. *)
Definition namesElements (data : ServerJs.MoveData) : Prop :=
  isArrayIndex (Z.of_nat (ServerJs.d_index data)) = true /\
  isArrayIndex (Z.of_nat (ServerJs.d_fromIndex data)) = true /\
  isArrayIndex (Z.of_nat (ServerJs.d_toIndex data)) = true.

(** States of a room's game when every move names a destination among the
    sixteen cells; the other fields of the messages are any integers. *)
Inductive playedOnCells : GameState -> Prop :=
  | cells_init : playedOnCells createInitialGameState
  | cells_step g side data g' :
      playedOnCells g ->
      (d_action data = "move" -> 0 <= d_toIndex data < Z.of_nat BOARD_CELLS) ->
      makeMoveOnGame g side data = inr g' ->
      playedOnCells g'
  | cells_award g remaining :
      playedOnCells g -> gameOver g = false ->
      playedOnCells (mkGameState (board g) (pools g) (currentPlayer g) true (Some remaining)).

End ServerAnyIndex.
(** ** Example positions *)

Definition xP (d : Z) : Slot Piece := Occ (mkPiece PLAYER_X Pawn (Some d)).
Definition xR : Slot Piece := Occ (mkPiece PLAYER_X Rook None).
Definition xN : Slot Piece := Occ (mkPiece PLAYER_X Knight None).
Definition xB : Slot Piece := Occ (mkPiece PLAYER_X Bishop None).
Definition oP (d : Z) : Slot Piece := Occ (mkPiece PLAYER_O Pawn (Some d)).
Definition oR : Slot Piece := Occ (mkPiece PLAYER_O Rook None).
Definition oN : Slot Piece := Occ (mkPiece PLAYER_O Knight None).
Definition oB : Slot Piece := Occ (mkPiece PLAYER_O Bishop None).

(** A full board on which neither side owns a line. *)
Definition drawnBoard : Board :=
  [ xR; xN; oR; oN;
    oB; oP 1; xB; xP (-1);
    xR; xN; oR; oN;
    oB; oP 1; xB; xP (-1) ].

(** The board after [placePiece(PLAYER_X, "P", 0)] on a fresh game. *)
Definition pawnOnTopRank : Board := xP (-1) :: replicate 15 Null.

(** A pawn of X in the middle of an otherwise empty board. *)
Definition pawnMidBoard : Board :=
  replicate 5 Null ++ [xP (-1)] ++ replicate 10 Null.

(** [makeMove] payloads as the client builds them (the fields a branch does
    not read are filled in arbitrarily). *)
Definition placeMsg (t : PieceType) (i : nat) : ServerJs.MoveData :=
  ServerJs.mkMoveData "place" i t 0 0.
Definition moveMsg (fromIndex toIndex : nat) : ServerJs.MoveData :=
  ServerJs.mkMoveData "move" 0 Pawn fromIndex toIndex.
Definition passMsg : ServerJs.MoveData :=
  ServerJs.mkMoveData "pass" 0 Pawn 0 0.

(** A sequence of messages, each from the given side, all of them accepted. *)
Fixpoint playOnServer (g : ServerJs.GameState) (msgs : list (Player * ServerJs.MoveData))
  : option ServerJs.GameState :=
  match msgs with
  | [] => Some g
  | (side, data) :: rest =>
      match ServerJs.makeMoveOnGame g side data with
      | inl _ => None
      | inr g' => playOnServer g' rest
      end
  end.

(** Three placements each: X puts rook, knight and bishop on 0, 8 and 15,
    O puts knight, bishop and pawn on 1, 10 and 6. *)
Definition opening : list (Player * ServerJs.MoveData) :=
  [ (PLAYER_X, placeMsg Rook 0); (PLAYER_O, placeMsg Knight 1);
    (PLAYER_X, placeMsg Knight 8); (PLAYER_O, placeMsg Bishop 10);
    (PLAYER_X, placeMsg Bishop 15); (PLAYER_O, placeMsg Pawn 6) ].

Definition afterOpening : ServerJs.GameState :=
  ServerJs.mkGameState
    [ xR; oN; Null; Null;
      Null; Null; oP 1; Null;
      xN; Null; oB; Null;
      Null; Null; Null; xB ]
    (mkPools [Pawn] [Rook]) PLAYER_X false None.

(** The position after X's rook on 0 has captured O's knight on 1. *)
Definition afterCapture : ServerJs.GameState :=
  ServerJs.mkGameState
    [ Null; xR; Null; Null;
      Null; Null; oP 1; Null;
      xN; Null; oB; Null;
      Null; Null; Null; xB ]
    (mkPools [Pawn] [Rook; Knight]) PLAYER_O false None.

(** One room with both seats taken and a fresh game. *)
Definition fullRoomServer : ServerJs.Server :=
  ServerJs.mkServer
    {[ "room_1" := ServerJs.mkRoom ["s1"; "s2"] ServerJs.createInitialGameState ]}
    {[ "s1" := ServerJs.mkPlayerInfo "room_1" PLAYER_X;
       "s2" := ServerJs.mkPlayerInfo "room_1" PLAYER_O ]}.

(** X owns the top row; O has not placed anything. *)
Definition xWonBoard : Board := [xR; xN; xB; xP (-1)] ++ replicate 12 Null.


(** ** Example lobbies *)

(** [s1] asks for a room and gets a new one. *)
Definition lobbyWaiting : ServerRooms.Lobby :=
  fst (ServerRooms.onFindOrCreateRoom ServerRooms.emptyLobby "s1" "1").

(** [s2] asks for a room and is seated with [s1]. *)
Definition lobbyPlaying : ServerRooms.Lobby :=
  fst (ServerRooms.onFindOrCreateRoom lobbyWaiting "s2" "2").

(** [s1] leaves: [s2], who plays O, stays behind alone. *)
Definition lobbyAbandoned : ServerRooms.Lobby :=
  fst (ServerRooms.onDisconnect lobbyPlaying "s1").

(** A full room and a second room whose creator is waiting. *)
Definition twoRoomServer : ServerJs.Server :=
  ServerJs.mkServer
    {[ "room_1" := ServerJs.mkRoom ["s1"; "s2"] ServerJs.createInitialGameState;
       "room_2" := ServerJs.mkRoom ["s3"] ServerJs.createInitialGameState ]}
    {[ "s1" := ServerJs.mkPlayerInfo "room_1" PLAYER_X;
       "s2" := ServerJs.mkPlayerInfo "room_1" PLAYER_O;
       "s3" := ServerJs.mkPlayerInfo "room_2" PLAYER_X ]}.

(** X completes the top row with its fourth placement. *)
Definition winningPlacements : list (Player * ServerJs.MoveData) :=
  [ (PLAYER_X, placeMsg Rook 0); (PLAYER_O, placeMsg Knight 4);
    (PLAYER_X, placeMsg Knight 1); (PLAYER_O, placeMsg Bishop 5);
    (PLAYER_X, placeMsg Bishop 2); (PLAYER_O, placeMsg Pawn 6);
    (PLAYER_X, placeMsg Pawn 3) ].

Definition afterWin : ServerJs.GameState :=
  ServerJs.mkGameState
    ([ xR; xN; xB; xP (-1);
       oN; oB; oP 1; Null ] ++ replicate 8 Null)
    (mkPools [] [Rook]) PLAYER_X true (Some PLAYER_X).


(** The fresh game of [lobbyPlaying], ended by the disconnect of [s1] in
    favour of [s2]. *)
Definition wonByDisconnect : ServerJs.GameState :=
  ServerJs.mkGameState emptyBoard initialPools PLAYER_X true (Some PLAYER_O).

(** [s1] asks for a room, then creates another one; [s3] asks for a room and
    is seated with [s1] in the first. *)
Definition lobbyTwoSeats : ServerRooms.Lobby :=
  fst (ServerRooms.onFindOrCreateRoom
         (fst (ServerRooms.onCreateRoom
                 (fst (ServerRooms.onFindOrCreateRoom ServerRooms.emptyLobby "s1" "1"))
                 "s1" "2"))
         "s3" "3").

(** ** Example clients *)

(** The page as loaded in the given mode. *)
Definition freshClient (mode : OnlineClient.Mode) : OnlineClient.Client :=
  OnlineClient.initGame
    (OnlineClient.mkClient OnlineClient.initialPosition [] (-1) mode false None false
       None None).

(** An online client seated as the given side in a full room. *)
Definition seatedClient (side : Player) : OnlineClient.Client :=
  OnlineClient.withConnection (freshClient OnlineClient.ModeOnline) OnlineClient.ModeOnline
    true (Some side) true.

(** The seated client after the server has sent the given state. *)
Definition syncedClient (side : Player) (g : ServerJs.GameState) : OnlineClient.Client :=
  OnlineClient.syncGameStateFromServer (seatedClient side) g.

(** A local two-player game after X has put a rook on cell 5. *)
Definition localAfterRook : OnlineClient.Client :=
  fst (OnlineClient.placePiece (freshClient OnlineClient.ModeHuman) PLAYER_X Rook 5).

(** ** Messages with indices off the board *)

(** X's move from cell 0 to index -4, one row above the board. *)
Definition moveOffBoard : ServerAnyIndex.MoveData :=
  ServerAnyIndex.mkMoveData "move" 0 Pawn 0 (-4).

(** The placements of [opening], as messages with integer indices. *)
Fixpoint playAnyIndex (g : ServerAnyIndex.GameState)
    (msgs : list (Player * ServerAnyIndex.MoveData)) : option ServerAnyIndex.GameState :=
  match msgs with
  | [] => Some g
  | (side, data) :: rest =>
      match ServerAnyIndex.makeMoveOnGame g side data with
      | inl _ => None
      | inr g' => playAnyIndex g' rest
      end
  end.

Definition openingAnyIndex : list (Player * ServerAnyIndex.MoveData) :=
  map (fun m => (fst m, ServerAnyIndex.ofMoveData (snd m))) opening.
(** * Facts about arrays and counting *)

Section arrays.
Context {A : Type}.
Implicit Types (arr : list (Slot A)) (v : Slot A) (i j : nat).

Lemma arr_get_set arr i j v :
  arr_get (arr_set i v arr) j = if bool_decide (j = i) then v else arr_get arr j.
Proof.
  unfold arr_get, arr_set.
  case_bool_decide as Hlt; case_bool_decide as Hji; subst.
  - by rewrite list_lookup_insert_eq.
  - by rewrite list_lookup_insert_ne.
  - rewrite lookup_app_r by lia.
    rewrite lookup_app_r by (rewrite length_replicate; lia).
    rewrite length_replicate.
    by replace (i - length arr - (i - length arr))%nat with 0%nat by lia.
  - destruct (decide (j < length arr)%nat).
    + by rewrite lookup_app_l.
    + rewrite lookup_app_r by lia.
      rewrite (lookup_ge_None_2 arr j) by lia.
      destruct (decide (j < i)%nat).
      * rewrite lookup_app_l by (rewrite length_replicate; lia).
        by rewrite lookup_replicate_2 by lia.
      * rewrite lookup_ge_None_2; [done |].
        rewrite length_app, length_replicate. simpl. lia.
Qed.

Lemma arr_get_set_ne arr i j v : j ≠ i -> arr_get (arr_set i v arr) j = arr_get arr j.
Proof. intros. rewrite arr_get_set. by rewrite bool_decide_eq_false_2. Qed.
End arrays.

(** [occ side s] is what a slot adds to [countPiecesOnBoard]. *)
Lemma foldl_count_acc (side : Player) (b : Board) (acc : nat) :
  foldl (fun acc cell => (acc + (if ownedBy side cell then 1 else 0))%nat) acc b
  = (acc + countPiecesOnBoard b side)%nat.
Proof.
  unfold countPiecesOnBoard. revert acc.
  induction b as [|s b IH]; intros acc; simpl; [lia|].
  rewrite IH, (IH (if ownedBy side s then _ else _)). lia.
Qed.

Lemma count_cons (side : Player) (s : Slot Piece) (b : Board) :
  countPiecesOnBoard (s :: b) side
  = ((if ownedBy side s then 1 else 0) + countPiecesOnBoard b side)%nat.
Proof. unfold countPiecesOnBoard at 1. simpl. by rewrite foldl_count_acc. Qed.

Lemma count_app (side : Player) (b1 b2 : Board) :
  countPiecesOnBoard (b1 ++ b2) side
  = (countPiecesOnBoard b1 side + countPiecesOnBoard b2 side)%nat.
Proof.
  induction b1 as [|s b1 IH]; simpl; [done|].
  rewrite !count_cons, IH. lia.
Qed.

Lemma count_holes (side : Player) (n : nat) :
  countPiecesOnBoard (replicate n Hole) side = 0%nat.
Proof. induction n as [|n IH]; simpl; [done|]. by rewrite count_cons, IH. Qed.

Lemma count_nulls (side : Player) (n : nat) :
  countPiecesOnBoard (replicate n Null) side = 0%nat.
Proof. induction n as [|n IH]; simpl; [done|]. by rewrite count_cons, IH. Qed.

(** Writing a slot changes the count by what goes in minus what was there. *)
Lemma count_arr_set (side : Player) (b : Board) (i : nat) (v : Slot Piece) :
  (countPiecesOnBoard (arr_set i v b) side + (if ownedBy side (arr_get b i) then 1 else 0)
   = countPiecesOnBoard b side + (if ownedBy side v then 1 else 0))%nat.
Proof.
  unfold arr_set. case_bool_decide as Hlt.
  - revert i Hlt. induction b as [|s b IH]; intros i Hlt; simpl in Hlt; [lia|].
    destruct i as [|i]; simpl.
    + rewrite !count_cons. unfold arr_get. simpl. lia.
    + rewrite !count_cons. specialize (IH i ltac:(lia)).
      unfold arr_get in *. simpl. lia.
  - rewrite !count_app, count_holes.
    unfold arr_get. rewrite lookup_ge_None_2 by lia.
    rewrite count_cons. change (countPiecesOnBoard [] side) with 0%nat.
    simpl. destruct (ownedBy side v); lia.
Qed.

(** * Outcome detector *)

Lemma ownedBy_Occ (side : Player) (s : Slot Piece) :
  ownedBy side s = true <-> exists pc, s = Occ pc /\ player pc = side.
Proof.
  destruct s as [| |pc]; simpl; split; try discriminate.
  - by intros (? & ? & _).
  - by intros (? & ? & _).
  - intros H%bool_decide_eq_true. eauto.
  - intros (? & [= <-] & ?). by apply bool_decide_eq_true.
Qed.

Lemma lineWinner_Some (b : Board) (l : nat * nat * nat * nat) (side : Player) :
  lineWinner b l = Some side <-> ownsLine b side l.
Proof.
  destruct l as [[[a b0] c] d]. unfold lineWinner, ownsLine.
  rewrite !ownedBy_Occ. split.
  - destruct (arr_get b a) as [| |first]; try discriminate.
    destruct (arr_get b b0) as [| |p1]; try discriminate.
    destruct (arr_get b c) as [| |p2]; try discriminate.
    destruct (arr_get b d) as [| |p3]; try discriminate.
    repeat case_bool_decide; simpl; try discriminate.
    intros [= <-]. repeat split; eauto.
  - intros ((first & -> & H0) & (p1 & -> & H1) & (p2 & -> & H2) & (p3 & -> & H3)).
    rewrite !bool_decide_eq_true_2 by congruence. simpl. by rewrite H0.
Qed.

Lemma checkWinnerLoop_Some (b : Board) (ls : list (nat * nat * nat * nat)) (side : Player) :
  checkWinnerLoop b ls = Some side -> exists l, l ∈ ls /\ ownsLine b side l.
Proof.
  induction ls as [|l ls IH]; simpl; [discriminate|].
  destruct (lineWinner b l) as [w|] eqn:Hl.
  - intros [= <-]. exists l. split; [left|]. by apply lineWinner_Some.
  - intros (l' & Hin & Hown)%IH. exists l'. split; [by right | done].
Qed.

Lemma checkWinnerLoop_None (b : Board) (ls : list (nat * nat * nat * nat)) :
  checkWinnerLoop b ls = None <-> forall l side, l ∈ ls -> ~ ownsLine b side l.
Proof.
  induction ls as [|l ls IH]; simpl.
  - split; [|done]. intros _ l side Hin. by apply elem_of_nil in Hin.
  - destruct (lineWinner b l) as [w|] eqn:Hl.
    + split; [discriminate|]. intros H. exfalso.
      apply (H l w); [left | by apply lineWinner_Some].
    + rewrite IH. split.
      * intros H l' side [->|Hin]%elem_of_cons; [|by apply H].
        rewrite <- lineWinner_Some. congruence.
      * intros H l' side Hin. apply H. by right.
Qed.

Lemma checkWinner_Some (b : Board) (side : Player) :
  checkWinner b = Some side -> hasLine b side.
Proof. apply checkWinnerLoop_Some. Qed.

Lemma checkWinner_None (b : Board) :
  checkWinner b = None <-> forall side, ~ hasLine b side.
Proof.
  unfold checkWinner, hasLine. rewrite checkWinnerLoop_None. split.
  - intros H side (l & Hin & Hown). by apply (H l side).
  - intros H l side Hin Hown. apply (H side). eauto.
Qed.

Lemma isBoardFull_allOccupied (b : Board) :
  wfBoard b -> isBoardFull b = true <-> allOccupied b.
Proof.
  intros [Hlen Hholes]. unfold isBoardFull, allOccupied, noHoles in *.
  rewrite forallb_forall in Hholes. rewrite forallb_forall. split.
  - intros Hfull i Hi. unfold arr_get.
    destruct (b !! i) as [s|] eqn:Hs.
    + assert (In s b) as Hin by (apply list_elem_of_In; by eapply list_elem_of_lookup_2).
      specialize (Hfull s Hin). specialize (Hholes s Hin).
      destruct s; simpl in *; try discriminate. eauto.
    + apply lookup_ge_None in Hs. lia.
  - intros Hocc s [i Hi]%list_elem_of_In%list_elem_of_lookup_1.
    assert (i < BOARD_CELLS)%nat as Hlt by (apply lookup_lt_Some in Hi; lia).
    destruct (Hocc i Hlt) as [pc Hpc]. unfold arr_get in Hpc. rewrite Hi in Hpc.
    by subst.
Qed.

(** On every board of sixteen cells the outcome detector reports a winner
    exactly when some side owns all four cells of one of the lines of its
    table, the reported winner owns such a line, and it reports a draw exactly
    when all sixteen cells are occupied and no side owns a line. *)
Lemma detect_hasLine (b : Board) (Hwf : wfBoard b) :
  (forall side, detect b = Winner side -> hasLine b side) /\
  ((exists side, detect b = Winner side) <-> (exists side, hasLine b side)) /\
  (detect b = Draw <-> allOccupied b /\ ~ (exists side, hasLine b side)).
Proof.
  unfold detect. destruct (checkWinner b) as [w|] eqn:Hw.
  - pose proof (checkWinner_Some _ _ Hw) as Hline.
    split; [|split].
    + by intros side [= <-].
    + split; eauto.
    + split; [discriminate|]. intros [_ Hno]. exfalso. eauto.
  - pose proof (proj1 (checkWinner_None b) Hw) as Hno.
    rewrite <- (isBoardFull_allOccupied b Hwf).
    split; [|split].
    + intros side. by destruct (isBoardFull b).
    + split.
      * intros [side Hs]. by destruct (isBoardFull b).
      * intros [side Hs]. exfalso. by apply (Hno side).
    + split.
      * destruct (isBoardFull b); [|discriminate].
        intros _. split; [done|]. intros [side Hs]. by apply (Hno side).
      * by intros [-> _].
Qed.

(** The table of [checkWinner] holds the ten canonical lines and no other:
    a side owns a line of the table exactly when it has a piece on every
    square of a row, a column or a diagonal. *)
Lemma hasLine_canonical (b : Board) (side : Player) :
  hasLine b side <-> ownsCanonicalLine b side.
Proof.
  unfold hasLine, ownsCanonicalLine.
  setoid_rewrite <- Forall_forall.
  rewrite <- !Exists_exists.
  unfold lines, canonicalLines, diagonalLines, rowLine, columnLine. simpl.
  rewrite !Exists_cons, !Forall_cons, !Exists_nil, !Forall_nil.
  unfold ownsLine, cellAt, rowColToIndex, arr_getZ, BOARD_SIZE. simpl.
  repeat match goal with
         | |- context [Z.to_nat ?z] =>
             let n := eval vm_compute in (Z.to_nat z) in change (Z.to_nat z) with n
         end.
  tauto.
Qed.

(** C2. The lines are ten: the four rows, the four columns and the two
    diagonals of the board.  On every board of sixteen cells the outcome
    detector reports a winner exactly when some side has its pieces on all
    four squares of one of them, the reported winner is such a side, and it
    reports a draw exactly when all sixteen cells are occupied and no side
    has such a line. *)
Theorem outcome_detector_correct (b : Board) (Hwf : wfBoard b) :
  length canonicalLines = 10%nat /\
  (forall side, detect b = Winner side -> ownsCanonicalLine b side) /\
  ((exists side, detect b = Winner side) <-> (exists side, ownsCanonicalLine b side)) /\
  (detect b = Draw <-> allOccupied b /\ ~ (exists side, ownsCanonicalLine b side)).
Proof.
  destruct (detect_hasLine b Hwf) as (Hwin & Hsome & Hdraw).
  split; [reflexivity|]. split; [|split].
  - intros side Hside. by apply hasLine_canonical, Hwin.
  - rewrite Hsome. by setoid_rewrite hasLine_canonical.
  - rewrite Hdraw. by setoid_rewrite hasLine_canonical.
Qed.

Lemma outcome_detector_correct_witness :
  (wfBoard xWonBoard /\ detect xWonBoard = Winner PLAYER_X /\
   ownsCanonicalLine xWonBoard PLAYER_X) /\
  (wfBoard drawnBoard /\ detect drawnBoard = Draw /\
   allOccupied drawnBoard /\ ~ (exists side, ownsCanonicalLine drawnBoard side)).
Proof.
  assert (wfBoard xWonBoard) as Hwon by (split; reflexivity).
  assert (wfBoard drawnBoard) as Hwf by (split; reflexivity).
  split.
  - split; [exact Hwon|]. split; [reflexivity|].
    exact (proj1 (proj2 (outcome_detector_correct xWonBoard Hwon)) PLAYER_X eq_refl).
  - split; [exact Hwf|]. split; [reflexivity|].
    exact (proj1 (proj2 (proj2 (proj2 (outcome_detector_correct drawnBoard Hwf)))) eq_refl).
Defined.

(** * Sliding pieces *)

Lemma isNull_true (s : Slot Piece) : isNull s = true <-> s = Null.
Proof. by destruct s. Qed.

(** The loop ends within [n] iterations when the destination is [n] steps
    away, and answers [true] exactly when the [n] cells it visits are empty. *)
Lemma pathLoop_spec (b : Board) (sr sc : Z) (n : nat) :
  sr ≠ 0 \/ sc ≠ 0 ->
  forall fuel r c tr tc,
    (n <= fuel)%nat -> tr = r + Z.of_nat n * sr -> tc = c + Z.of_nat n * sc ->
    exists res, pathLoop fuel b r c tr tc sr sc = Some res /\
      (res = true <->
       forall k, 0 <= k < Z.of_nat n ->
                 arr_getZ b (rowColToIndex (r + k * sr) (c + k * sc)) = Null).
Proof.
  intros Hstep. induction n as [|n IH]; intros fuel r c tr tc Hfuel -> ->.
  - exists true. split.
    + destruct fuel; simpl; by rewrite !Z.add_0_r, !Z.eqb_refl.
    + split; [|done]. intros _ k Hk. lia.
  - destruct fuel as [|fuel]; [lia|]. simpl.
    assert (negb (r =? r + Z.of_nat (S n) * sr) || negb (c =? c + Z.of_nat (S n) * sc) = true)
      as ->.
    { apply orb_true_iff. destruct Hstep; [left|right];
        apply negb_true_iff, Z.eqb_neq; nia. }
    destruct (arr_getZ b (rowColToIndex r c)) as [| |pc] eqn:Hcell; simpl.
    + exists false. split; [done|]. split; [discriminate|].
      intros H. specialize (H 0 ltac:(lia)).
      rewrite !Z.mul_0_l, !Z.add_0_r in H. congruence.
    + destruct (IH fuel (r + sr) (c + sc)
                  (r + Z.of_nat (S n) * sr) (c + Z.of_nat (S n) * sc))
        as (res & Hres & Hiff); [lia | lia | lia |].
      exists res. split; [done|]. rewrite Hiff. split.
      * intros H k Hk. destruct (decide (k = 0)) as [->|Hne].
        { by rewrite !Z.mul_0_l, !Z.add_0_r. }
        specialize (H (k - 1) ltac:(lia)).
        by replace (r + sr + (k - 1) * sr) with (r + k * sr) in H by lia;
           replace (c + sc + (k - 1) * sc) with (c + k * sc) in H by lia.
      * intros H k Hk. specialize (H (k + 1) ltac:(lia)).
        by replace (r + (k + 1) * sr) with (r + sr + k * sr) in H by lia;
           replace (c + (k + 1) * sc) with (c + sc + k * sc) in H by lia.
    + exists false. split; [done|]. split; [discriminate|].
      intros H. specialize (H 0 ltac:(lia)).
      rewrite !Z.mul_0_l, !Z.add_0_r in H. congruence.
Qed.

(** From the first cell after the source, with unit steps [sgn dr], [sgn dc]. *)
Lemma pathLoop_between (b : Board) (fr fc tr tc : Z) :
  (fr = tr \/ fc = tc \/ Z.abs (tr - fr) = Z.abs (tc - fc)) ->
  (fr ≠ tr \/ fc ≠ tc) ->
  exists res,
    pathLoop (pathFuel fr fc tr tc) b
      (fr + Z.sgn (tr - fr)) (fc + Z.sgn (tc - fc)) tr tc
      (Z.sgn (tr - fr)) (Z.sgn (tc - fc)) = Some res /\
    (res = true <-> pathClear b fr fc tr tc).
Proof.
  intros Haligned Hmoved.
  set (n := Z.to_nat (pathLength fr fc tr tc - 1)).
  assert (0 < pathLength fr fc tr tc) as Hpos by (unfold pathLength; lia).
  destruct (pathLoop_spec b (Z.sgn (tr - fr)) (Z.sgn (tc - fc)) n
              ltac:(lia) (pathFuel fr fc tr tc)
              (fr + Z.sgn (tr - fr)) (fc + Z.sgn (tc - fc)) tr tc)
    as (res & Hres & Hiff).
  - unfold n, pathFuel, pathLength. lia.
  - unfold n, pathLength. lia.
  - unfold n, pathLength. lia.
  - exists res. split; [done|]. rewrite Hiff. unfold pathClear, pathCell. split.
    + intros H k Hk. specialize (H (k - 1) ltac:(unfold n; lia)).
      by replace (fr + Z.sgn (tr - fr) + (k - 1) * Z.sgn (tr - fr))
           with (fr + k * Z.sgn (tr - fr)) in H by lia;
         replace (fc + Z.sgn (tc - fc) + (k - 1) * Z.sgn (tc - fc))
           with (fc + k * Z.sgn (tc - fc)) in H by lia.
    + intros H k Hk. specialize (H (k + 1) ltac:(unfold n in Hk; lia)).
      by replace (fr + (k + 1) * Z.sgn (tr - fr))
           with (fr + Z.sgn (tr - fr) + k * Z.sgn (tr - fr)) in H by lia;
         replace (fc + (k + 1) * Z.sgn (tc - fc))
           with (fc + Z.sgn (tc - fc) + k * Z.sgn (tc - fc)) in H by lia.
Qed.

Lemma rook_steps (f t : Z) :
  (if f =? t then 0 else if t >? f then 1 else -1) = Z.sgn (t - f).
Proof. destruct (Z.eqb_spec f t), (Z.gtb_spec t f); lia. Qed.

Lemma bishop_steps (d : Z) : d ≠ 0 -> (if d >? 0 then 1 else -1) = Z.sgn d.
Proof. destruct (Z.gtb_spec d 0); lia. Qed.

Lemma isLegalRookMove_spec (b : Board) (fr fc tr tc : Z) :
  isLegalRookMove b fr fc tr tc = true <->
  (fr = tr \/ fc = tc) /\ pathClear b fr fc tr tc.
Proof.
  unfold isLegalRookMove.
  destruct (Z.eqb_spec fr tr) as [Hr|Hr], (Z.eqb_spec fc tc) as [Hc|Hc]; simpl.
  - subst. rewrite !Z.add_0_r. unfold pathFuel.
    rewrite !Z.sub_diag. simpl. rewrite !Z.eqb_refl. simpl.
    split; [|done]. intros _. split; [by left|].
    intros k Hk. unfold pathLength in Hk. lia.
  - rewrite <- (Z.eqb_neq fc tc) in Hc.
    pose proof (rook_steps fc tc) as Hs. rewrite Hc in Hs. rewrite Hs.
    apply Z.eqb_neq in Hc.
    destruct (pathLoop_between b fr fc tr tc) as (res & Hres & Hiff); [lia | lia |].
    subst tr. rewrite Z.sub_diag in Hres. simpl in Hres. rewrite Hres.
    rewrite Hiff. tauto.
  - rewrite <- (Z.eqb_neq fr tr) in Hr.
    pose proof (rook_steps fr tr) as Hs. rewrite Hr in Hs. rewrite Hs.
    apply Z.eqb_neq in Hr.
    destruct (pathLoop_between b fr fc tr tc) as (res & Hres & Hiff); [lia | lia |].
    subst tc. rewrite Z.sub_diag in Hres. simpl in Hres. rewrite Hres.
    rewrite Hiff. tauto.
  - split; [discriminate|]. intros [[?|?] _]; done.
Qed.

Lemma isLegalBishopMove_spec (b : Board) (fr fc tr tc : Z) :
  isLegalBishopMove b fr fc tr tc = true <->
  (Z.abs (tr - fr) = Z.abs (tc - fc) /\ tr ≠ fr) /\ pathClear b fr fc tr tc.
Proof.
  unfold isLegalBishopMove.
  destruct (Z.eqb_spec (Z.abs (tr - fr)) (Z.abs (tc - fc))) as [Habs|Habs]; simpl.
  - destruct (Z.eqb_spec (tr - fr) 0) as [Hz|Hz].
    + split; [discriminate|]. intros [[_ ?] _]. lia.
    + rewrite !bishop_steps by lia.
      destruct (pathLoop_between b fr fc tr tc) as (res & Hres & Hiff); [lia | lia |].
      rewrite Hres, Hiff. split; [|tauto]. intros. split; [split|]; [done | lia | done].
  - split; [discriminate|]. intros [[? _] _]. done.
Qed.

(** C5. A rook move passes its geometry check exactly when source and
    destination share a row or a column and every cell strictly between them
    is empty; a bishop move exactly when they lie on a diagonal, differ, and
    every cell strictly between them is empty.  So a piece of either side on
    a cell strictly between source and destination makes both checks fail. *)
Theorem sliding_moves_blocked (b : Board) (fr fc tr tc : Z) :
  (isLegalRookMove b fr fc tr tc = true <->
   (fr = tr \/ fc = tc) /\ pathClear b fr fc tr tc) /\
  (isLegalBishopMove b fr fc tr tc = true <->
   (Z.abs (tr - fr) = Z.abs (tc - fc) /\ tr ≠ fr) /\ pathClear b fr fc tr tc) /\
  (forall k pc, 0 < k < pathLength fr fc tr tc ->
     pathCell b fr fc tr tc k = Occ pc ->
     isLegalRookMove b fr fc tr tc = false /\ isLegalBishopMove b fr fc tr tc = false).
Proof.
  split; [apply isLegalRookMove_spec | split; [apply isLegalBishopMove_spec|]].
  intros k pc Hk Hcell.
  assert (~ pathClear b fr fc tr tc) as Hblocked.
  { intros Hclear. specialize (Hclear k Hk). congruence. }
  split; apply not_true_is_false.
  - rewrite isLegalRookMove_spec. tauto.
  - rewrite isLegalBishopMove_spec. tauto.
Qed.

(** * Pawns *)

Lemma isOpponentOf_true (piece : Piece) (s : Slot Piece) :
  isOpponentOf piece s = true <-> exists t, s = Occ t /\ player t ≠ player piece.
Proof.
  destruct s as [| |t]; simpl; split; try discriminate.
  - by intros (? & ? & _).
  - by intros (? & ? & _).
  - intros H%negb_true_iff%bool_decide_eq_false. eauto.
  - intros (? & [= <-] & ?). by apply negb_true_iff, bool_decide_eq_false.
Qed.

Lemma pawnDestination_bool (b : Board) (forwardRow fc tr tc : Z) (piece : Piece) :
  pawnDestination b forwardRow fc tr tc piece <->
  (tc =? fc) && (tr =? forwardRow) && isNull (arr_getZ b (rowColToIndex tr tc)) = true \/
  (tr =? forwardRow) && (Z.abs (tc - fc) =? 1)
    && isOpponentOf piece (arr_getZ b (rowColToIndex tr tc)) = true.
Proof.
  unfold pawnDestination.
  rewrite !andb_true_iff, !Z.eqb_eq, isNull_true, isOpponentOf_true. tauto.
Qed.

Lemma server_pawn_spec (b : Board) (fr fc tr tc d : Z) (piece : Piece) :
  dir piece = Some d ->
  ServerJs.isLegalPawnMove b fr fc tr tc piece = true <->
  pawnDestination b (fr - d) fc tr tc piece.
Proof.
  intros Hd. unfold ServerJs.isLegalPawnMove. rewrite Hd, pawnDestination_bool.
  destruct ((tc =? fc) && (tr =? fr - d) && _); [tauto|].
  destruct ((tr =? fr - d) && _ && _); [tauto|].
  split; [discriminate | intros [?|?]; done].
Qed.

Lemma game_pawn_spec (b : Board) (fr fc tr tc d : Z) (piece : Piece) :
  dir piece = Some d ->
  GameJs.isLegalPawnMove b fr fc tr tc piece = true <->
  pawnDestination b (fr + d) fc tr tc piece \/
  ((fr = 0 \/ fr = 3) /\ tr = fr - d /\ arr_getZ b (rowColToIndex tr tc) = Null).
Proof.
  intros Hd. unfold GameJs.isLegalPawnMove. rewrite Hd, pawnDestination_bool.
  change (BOARD_SIZE - 1) with 3.
  rewrite <- (isNull_true (arr_getZ b (rowColToIndex tr tc))).
  destruct (Z.eqb_spec fr 0), (Z.eqb_spec fr 3), (Z.eqb_spec tr (fr - d)),
    (isNull (arr_getZ b (rowColToIndex tr tc))); simpl;
    destruct ((tc =? fc) && (tr =? fr + d)); simpl;
    destruct ((tr =? fr + d) && _ && _); simpl;
    intuition (try discriminate; try lia).
Qed.

(** C3 (as amended). For a pawn with facing [d]: the server's check accepts
    exactly the cell one row forward (row [fr - d]) in the pawn's column when
    it is empty and the cells one row forward and one column over when they
    hold an opponent's piece.  The check of game.js (forward row [fr + d])
    accepts exactly the same two kinds of destination for a pawn that is not
    on row 0 or 3 and accepts them on every row; for a pawn on row 0 or 3 it
    also accepts the empty cell directly behind it, and it accepts nothing
    besides these and empty cells of the row behind a pawn on row 0 or 3.
    With [d = 1] or [d = -1] no accepted destination is on the pawn's own
    row. *)
Theorem pawn_destinations (b : Board) (fr fc tr tc d : Z) (piece : Piece)
    (Hd : dir piece = Some d) :
  (ServerJs.isLegalPawnMove b fr fc tr tc piece = true <->
   pawnDestination b (fr - d) fc tr tc piece) /\
  (fr ≠ 0 -> fr ≠ 3 ->
   (GameJs.isLegalPawnMove b fr fc tr tc piece = true <->
    pawnDestination b (fr + d) fc tr tc piece)) /\
  (pawnDestination b (fr + d) fc tr tc piece ->
   GameJs.isLegalPawnMove b fr fc tr tc piece = true) /\
  ((fr = 0 \/ fr = 3) -> tr = fr - d -> tc = fc ->
   arr_getZ b (rowColToIndex tr tc) = Null ->
   GameJs.isLegalPawnMove b fr fc tr tc piece = true) /\
  (GameJs.isLegalPawnMove b fr fc tr tc piece = true ->
   pawnDestination b (fr + d) fc tr tc piece \/
   ((fr = 0 \/ fr = 3) /\ tr = fr - d /\ arr_getZ b (rowColToIndex tr tc) = Null)) /\
  (d = 1 \/ d = -1 ->
   ServerJs.isLegalPawnMove b fr fc tr tc piece = true \/
   GameJs.isLegalPawnMove b fr fc tr tc piece = true ->
   tr ≠ fr).
Proof.
  pose proof (server_pawn_spec b fr fc tr tc d piece Hd) as Hs.
  pose proof (game_pawn_spec b fr fc tr tc d piece Hd) as Hg.
  split; [exact Hs|]. split; [|split; [|split; [|split]]].
  - intros H0 H3. rewrite Hg. split; [|tauto]. intros [?|[[?|?] _]]; [done | lia | lia].
  - intros H. apply Hg. by left.
  - intros Hedge Hrow _ Hcell. apply Hg. by right.
  - intros H. by apply Hg.
  - intros Hunit Hlegal. rewrite Hs, Hg in Hlegal. unfold pawnDestination in Hlegal.
    destruct Hlegal as [[?|?]|[[?|?]|?]]; lia.
Qed.

Lemma pawn_destinations_witness :
  ServerJs.isLegalPawnMove pawnMidBoard 1 1 2 1 (mkPiece PLAYER_X Pawn (Some (-1))) = true <->
  pawnDestination pawnMidBoard (1 - -1) 1 2 1 (mkPiece PLAYER_X Pawn (Some (-1))).
Proof.
  exact (proj1 (pawn_destinations pawnMidBoard 1 1 2 1 (-1)
                  (mkPiece PLAYER_X Pawn (Some (-1))) eq_refl)).
Defined.

(** C3 as stated fails in game.js: a pawn of X placed on row 0 faces row -1,
    yet its move to the empty cell behind it on row 1 is accepted, in its own
    column and in any other. *)
Lemma pawn_backward_step_counterexample :
  GameJs.board (GameJs.placePiece GameJs.initGame PLAYER_X Pawn 0) = pawnOnTopRank /\
  arr_get pawnOnTopRank 0 = Occ (mkPiece PLAYER_X Pawn (Some (-1))) /\
  GameJs.isLegalPawnMove pawnOnTopRank 0 0 1 0 (mkPiece PLAYER_X Pawn (Some (-1))) = true /\
  GameJs.isLegalPawnMove pawnOnTopRank 0 0 1 3 (mkPiece PLAYER_X Pawn (Some (-1))) = true /\
  ~ pawnDestination pawnOnTopRank (0 + -1) 0 1 0 (mkPiece PLAYER_X Pawn (Some (-1))) /\
  ~ pawnDestination pawnOnTopRank (0 + -1) 0 1 3 (mkPiece PLAYER_X Pawn (Some (-1))).
Proof.
  repeat split; try reflexivity.
  - unfold pawnDestination. intros [(_ & ? & _)|(? & _)]; lia.
  - unfold pawnDestination. intros [(_ & ? & _)|(? & _)]; lia.
Qed.

(** * Invariants of play *)

Lemma indexOf_Some (t : PieceType) (pool : list PieceType) (idx : nat) :
  indexOf t pool = Some idx -> pool !! idx = Some t.
Proof.
  revert idx. induction pool as [|x pool IH]; intros idx; simpl; [discriminate|].
  case_bool_decide as Hx.
  - intros [= <-]. simpl. by subst.
  - destruct (indexOf t pool) as [i|]; simpl; [|discriminate].
    intros [= <-]. simpl. by apply IH.
Qed.

Lemma length_splice1 (t : PieceType) (pool : list PieceType) (idx : nat) :
  indexOf t pool = Some idx -> S (length (splice1 idx pool)) = length pool.
Proof.
  intros H%indexOf_Some. unfold splice1.
  pose proof (lookup_lt_Some _ _ _ H).
  rewrite length_delete by eauto. lia.
Qed.

Lemma getPool_setPool (p : Pools) (side side' : Player) (pool : list PieceType) :
  getPool (setPool p side pool) side' = if bool_decide (side' = side) then pool else getPool p side'.
Proof. by destruct side, side'. Qed.

(** What a slot holds after [movePieceOnBoard]: the moved piece, possibly
    with its direction negated, on the destination; every other piece where
    it was; nothing on the source. *)
Lemma movePieceOnBoard_cells (b : Board) (fromIndex toIndex : nat) (fromCell pc : Piece) (j : nat) :
  arr_get (movePieceOnBoard b fromIndex toIndex fromCell) j = Occ pc ->
  (j = toIndex /\ j ≠ fromIndex /\ player pc = player fromCell /\ type pc = type fromCell /\
   (dir pc = dir fromCell \/ exists d, dir fromCell = Some d /\ dir pc = Some (- d))) \/
  (j ≠ toIndex /\ j ≠ fromIndex /\ arr_get b j = Occ pc).
Proof.
  unfold movePieceOnBoard.
  set (b2 := arr_set fromIndex Null (arr_set toIndex (Occ fromCell) b)).
  assert (forall j pc, arr_get b2 j = Occ pc ->
          (j = toIndex /\ j ≠ fromIndex /\ pc = fromCell) \/
          (j ≠ toIndex /\ j ≠ fromIndex /\ arr_get b j = Occ pc)) as Hb2.
  { intros j' pc'. unfold b2. rewrite !arr_get_set.
    repeat case_bool_decide; try discriminate.
    - intros [= <-]. by left.
    - intros Hj. by right. }
  assert (forall d, arr_get (setDirAt b2 toIndex d) j = Occ pc ->
          (j = toIndex /\ j ≠ fromIndex /\ player pc = player fromCell /\
           type pc = type fromCell /\ dir pc = Some d) \/
          (j ≠ toIndex /\ j ≠ fromIndex /\ arr_get b j = Occ pc)) as Hset.
  { intros d. unfold setDirAt.
    destruct (arr_get b2 toIndex) as [| |q] eqn:Hq.
    1,2: intros Hj; destruct (Hb2 _ _ Hj) as [(-> & _ & _)|?]; [congruence | by right].
    rewrite arr_get_set. case_bool_decide as Hj.
    - subst j. intros [= <-]. simpl.
      destruct (Hb2 _ _ Hq) as [(_ & ? & ->)|(? & _)]; [|done]. left. eauto.
    - intros Hpc. destruct (Hb2 _ _ Hpc) as [(? & _)|?]; [done | by right]. }
  destruct (type fromCell) eqn:Ht, (dir fromCell) as [d|] eqn:Hdir;
    try (intros Hpc; destruct (Hb2 _ _ Hpc) as [(? & ? & ->)|?]; [left | by right];
         repeat split; try done; by left).
  destruct ((_ =? 0) || _).
  - intros Hpc. destruct (Hset _ Hpc) as [(? & ? & ? & ? & ?)|?]; [left | by right].
    repeat split; try done. right. eauto.
  - intros Hpc; destruct (Hb2 _ _ Hpc) as [(? & ? & ->)|?]; [left | by right].
    repeat split; try done. by left.
Qed.

Lemma count_setDirAt (side : Player) (b : Board) (i : nat) (d : Z) :
  countPiecesOnBoard (setDirAt b i d) side = countPiecesOnBoard b side.
Proof.
  unfold setDirAt. destruct (arr_get b i) as [| |pc] eqn:Hpc; try done.
  pose proof (count_arr_set side b i
                (Occ {| player := player pc; type := type pc; dir := Some d |})) as H.
  rewrite Hpc in H. simpl in H. lia.
Qed.

(** A move takes one piece off the destination, if there was one, and leaves
    every other count as it was. *)
Lemma count_movePieceOnBoard (side : Player) (b : Board) (fromIndex toIndex : nat)
    (fromCell : Piece) :
  arr_get b fromIndex = Occ fromCell -> fromIndex ≠ toIndex ->
  (countPiecesOnBoard (movePieceOnBoard b fromIndex toIndex fromCell) side
   + (if ownedBy side (arr_get b toIndex) then 1 else 0)
   = countPiecesOnBoard b side)%nat.
Proof.
  intros Hfrom Hne. unfold movePieceOnBoard.
  assert (countPiecesOnBoard
            (arr_set fromIndex Null (arr_set toIndex (Occ fromCell) b)) side
          + (if ownedBy side (arr_get b toIndex) then 1 else 0)
          = countPiecesOnBoard b side)%nat as Hb2.
  { pose proof (count_arr_set side b toIndex (Occ fromCell)) as H1.
    pose proof (count_arr_set side (arr_set toIndex (Occ fromCell) b) fromIndex Null) as H2.
    rewrite arr_get_set_ne, Hfrom in H2 by done.
    simpl in *. lia. }
  destruct (type fromCell), (dir fromCell); try done.
  destruct (_ || _); [|done]. by rewrite count_setDirAt.
Qed.

(** The piece on the source and a destination that is not the mover's own
    are on different cells. *)
Lemma move_source_ne_destination (b : Board) (me : Player) (fromIndex toIndex : nat)
    (fromCell : Piece) :
  arr_get b fromIndex = Occ fromCell -> player fromCell = me ->
  ownedBy me (arr_get b toIndex) = false -> fromIndex ≠ toIndex.
Proof.
  intros Hfrom Hme Hto ->. rewrite Hfrom in Hto. simpl in Hto.
  by apply bool_decide_eq_false in Hto.
Qed.

(** Any property of board and pools that holds initially and is kept by the
    two ways a position changes holds in every reachable position. *)
Section invariant.
Variable Inv : Board -> Pools -> Prop.

Hypothesis Inv_init : Inv emptyBoard initialPools.

Hypothesis Inv_place :
  forall b p side t i idx piece,
    Inv b p -> arr_get b i = Null -> indexOf t (getPool p side) = Some idx ->
    player piece = side -> type piece = t ->
    (t = Pawn -> dir piece = Some 1 \/ dir piece = Some (-1)) ->
    Inv (arr_set i (Occ piece) b) (setPool p side (splice1 idx (getPool p side))).

Hypothesis Inv_move :
  forall b p me fromIndex toIndex fromCell,
    Inv b p -> arr_get b fromIndex = Occ fromCell -> player fromCell = me ->
    ownedBy me (arr_get b toIndex) = false ->
    Inv (movePieceOnBoard b fromIndex toIndex fromCell) (capture p me (arr_get b toIndex)).

Lemma server_newPiece_facts (side : Player) (t : PieceType) (i : nat) :
  player (ServerJs.newPiece side t i) = side /\ type (ServerJs.newPiece side t i) = t /\
  (t = Pawn -> dir (ServerJs.newPiece side t i) = Some 1 \/
               dir (ServerJs.newPiece side t i) = Some (-1)).
Proof.
  unfold ServerJs.newPiece. destruct t; simpl; repeat split; try discriminate.
  intros _. destruct (bool_decide (side = PLAYER_X)), (_ || _); simpl; tauto.
Qed.

Lemma game_newPiece_facts (side : Player) (t : PieceType) :
  player (GameJs.newPiece side t) = side /\ type (GameJs.newPiece side t) = t /\
  (t = Pawn -> dir (GameJs.newPiece side t) = Some 1 \/
               dir (GameJs.newPiece side t) = Some (-1)).
Proof.
  unfold GameJs.newPiece. destruct t; simpl; repeat split; try discriminate.
  intros _. destruct (bool_decide (side = PLAYER_X)); simpl; tauto.
Qed.

Lemma notNull_false (s : Slot Piece) : notNull s = false -> s = Null.
Proof. by destruct s. Qed.

Lemma server_checkEnd_position (g : ServerJs.GameState) :
  ServerJs.board (ServerJs.checkEnd g) = ServerJs.board g /\
  ServerJs.pools (ServerJs.checkEnd g) = ServerJs.pools g.
Proof.
  unfold ServerJs.checkEnd.
  destruct (checkWinner _); [done|]. by destruct (isBoardFull _).
Qed.

Lemma server_step_inv (g g' : ServerJs.GameState) (side : Player) (data : ServerJs.MoveData) :
  Inv (ServerJs.board g) (ServerJs.pools g) ->
  ServerJs.makeMoveOnGame g side data = inr g' ->
  Inv (ServerJs.board g') (ServerJs.pools g').
Proof.
  intros HI. unfold ServerJs.makeMoveOnGame.
  destruct (ServerJs.gameOver g); [discriminate|].
  case_bool_decide as Hturn; simpl; [|discriminate].
  destruct (String.eqb _ "place").
  { destruct (notNull _) eqn:Hcell; [discriminate|]. apply notNull_false in Hcell.
    destruct (indexOf _ _) as [idx|] eqn:Hidx; [|discriminate].
    intros [= <-].
    destruct (server_checkEnd_position
      (ServerJs.mkGameState
         (arr_set (ServerJs.d_index data)
            (Occ (ServerJs.newPiece side (ServerJs.d_type data) (ServerJs.d_index data)))
            (ServerJs.board g))
         (setPool (ServerJs.pools g) side (splice1 idx (getPool (ServerJs.pools g) side)))
         (ServerJs.currentPlayer g) false (ServerJs.winner g))) as [-> ->].
    simpl.
    destruct (server_newPiece_facts side (ServerJs.d_type data) (ServerJs.d_index data))
      as (? & ? & ?).
    by eapply Inv_place. }
  destruct (String.eqb _ "move").
  { destruct (bothPlayersHaveThree _); simpl; [|discriminate].
    destruct (arr_get _ (ServerJs.d_fromIndex data)) as [| |fromCell] eqn:Hfrom;
      try discriminate.
    case_bool_decide as Hown; simpl; [|discriminate].
    destruct (ownedBy _ _) eqn:Hto; [discriminate|].
    destruct (ServerJs.isLegalMove _ _ _ _); simpl; [|discriminate].
    intros [= <-].
    destruct (server_checkEnd_position
      (ServerJs.mkGameState
         (movePieceOnBoard (ServerJs.board g) (ServerJs.d_fromIndex data)
            (ServerJs.d_toIndex data) fromCell)
         (capture (ServerJs.pools g) side
            (arr_get (ServerJs.board g) (ServerJs.d_toIndex data)))
         (ServerJs.currentPlayer g) false (ServerJs.winner g))) as [-> ->].
    simpl. by apply Inv_move. }
  intros [= <-]. by destruct (server_checkEnd_position g) as [-> ->].
Qed.

Lemma server_reachable_inv (g : ServerJs.GameState) :
  ServerJs.reachable g -> Inv (ServerJs.board g) (ServerJs.pools g).
Proof.
  induction 1 as [|g side data g' _ IH Hstep|g remaining _ IH _]; [exact Inv_init| |exact IH].
  by eapply server_step_inv.
Qed.

Lemma game_afterAction_position (st : GameJs.State) :
  GameJs.board (GameJs.afterAction st) = GameJs.board st /\
  GameJs.pools (GameJs.afterAction st) = GameJs.pools st.
Proof.
  unfold GameJs.afterAction.
  destruct (checkWinner _); [done|]. by destruct (isBoardFull _).
Qed.

Lemma game_placePiece_inv (st : GameJs.State) (side : Player) (t : PieceType) (i : nat) :
  Inv (GameJs.board st) (GameJs.pools st) ->
  Inv (GameJs.board (GameJs.placePiece st side t i))
      (GameJs.pools (GameJs.placePiece st side t i)).
Proof.
  intros HI. unfold GameJs.placePiece.
  destruct (GameJs.gameOver st); [done|].
  case_bool_decide; simpl; [|done].
  destruct (notNull _) eqn:Hcell; [done|]. apply notNull_false in Hcell.
  destruct (indexOf _ _) as [idx|] eqn:Hidx; [|done].
  match goal with |- Inv (GameJs.board (GameJs.afterAction ?s)) _ =>
    destruct (game_afterAction_position s) as [-> ->] end.
  simpl. destruct (game_newPiece_facts side t) as (? & ? & ?).
  by eapply Inv_place.
Qed.

Lemma game_tryMovePiece_inv (st : GameJs.State) (fromIndex toIndex : nat) :
  Inv (GameJs.board st) (GameJs.pools st) ->
  Inv (GameJs.board (fst (GameJs.tryMovePiece st fromIndex toIndex)))
      (GameJs.pools (fst (GameJs.tryMovePiece st fromIndex toIndex))).
Proof.
  intros HI. unfold GameJs.tryMovePiece.
  destruct (GameJs.gameOver st); [done|].
  destruct (GameJs.canCurrentPlayerMovePieces st); simpl; [|done].
  destruct (arr_get _ fromIndex) as [| |fromCell] eqn:Hfrom; try done.
  case_bool_decide as Hown; simpl; [|done].
  case_bool_decide; [done|].
  destruct (ownedBy _ _) eqn:Hto; [done|].
  destruct (GameJs.isLegalMove _ _ _ _); simpl; [|done].
  match goal with |- Inv (GameJs.board (GameJs.afterAction ?s)) _ =>
    destruct (game_afterAction_position s) as [-> ->] end.
  simpl. by apply Inv_move.
Qed.

Lemma game_aiTakeTurn_inv (st : GameJs.State) :
  Inv (GameJs.board st) (GameJs.pools st) ->
  Inv (GameJs.board (GameJs.aiTakeTurn st)) (GameJs.pools (GameJs.aiTakeTurn st)).
Proof.
  intros HI. unfold GameJs.aiTakeTurn.
  destruct (GameJs.gameOver st); [done|].
  case_bool_decide; simpl; [|done].
  destruct (GameJs.getBestAiAction _ _) as [[index t|from to]|]; simpl.
  - by apply game_placePiece_inv.
  - by apply game_tryMovePiece_inv.
  - done.
Qed.

Lemma game_reachable_inv (st : GameJs.State) :
  GameJs.reachable st -> Inv (GameJs.board st) (GameJs.pools st).
Proof.
  induction 1 as [|st side t i _ IH|st from to _ IH|st _ IH].
  - exact Inv_init.
  - by apply game_placePiece_inv.
  - by apply game_tryMovePiece_inv.
  - by apply game_aiTakeTurn_inv.
Qed.

Lemma reachablePosition_inv (b : Board) (p : Pools) :
  reachablePosition b p -> Inv b p.
Proof.
  intros [g Hg <- <-|st Hst <- <-].
  - by apply server_reachable_inv.
  - by apply game_reachable_inv.
Qed.
End invariant.

Lemma materialConserved_init : materialConserved emptyBoard initialPools.
Proof. intros side. unfold emptyBoard. rewrite count_nulls. by destruct side. Qed.

Lemma materialConserved_place (b : Board) (p : Pools) (side : Player) (t : PieceType)
    (i idx : nat) (piece : Piece) :
  materialConserved b p -> arr_get b i = Null ->
  indexOf t (getPool p side) = Some idx -> player piece = side ->
  materialConserved (arr_set i (Occ piece) b)
                    (setPool p side (splice1 idx (getPool p side))).
Proof.
  intros Hc Hcell Hidx Hside side'. specialize (Hc side').
  pose proof (count_arr_set side' b i (Occ piece)) as Hcount.
  rewrite Hcell in Hcount. simpl in Hcount.
  rewrite getPool_setPool.
  pose proof (length_splice1 _ _ _ Hidx) as Hlen.
  repeat case_bool_decide; subst; try congruence; lia.
Qed.

Lemma materialConserved_move (b : Board) (p : Pools) (me : Player)
    (fromIndex toIndex : nat) (fromCell : Piece) :
  materialConserved b p -> arr_get b fromIndex = Occ fromCell ->
  player fromCell = me -> ownedBy me (arr_get b toIndex) = false ->
  materialConserved (movePieceOnBoard b fromIndex toIndex fromCell)
                    (capture p me (arr_get b toIndex)).
Proof.
  intros Hc Hfrom Hme Hto side. specialize (Hc side).
  pose proof (move_source_ne_destination _ _ _ _ _ Hfrom Hme Hto) as Hne.
  pose proof (count_movePieceOnBoard side b fromIndex toIndex fromCell Hfrom Hne) as Hcount.
  unfold capture.
  destruct (arr_get b toIndex) as [| |t] eqn:Hcell; simpl in *; try lia.
  apply bool_decide_eq_false in Hto.
  rewrite bool_decide_eq_false_2 by done.
  rewrite getPool_setPool.
  repeat case_bool_decide; subst; try congruence; rewrite ?length_app; simpl; lia.
Qed.

Lemma pawnsFaceUnit_init : pawnsFaceUnit emptyBoard.
Proof.
  intros i pc Hpc. unfold arr_get, emptyBoard in Hpc.
  destruct (replicate BOARD_CELLS Null !! i) as [s|] eqn:Hs; [|done].
  apply lookup_replicate in Hs as [-> _]. done.
Qed.

Lemma pawnsFaceUnit_place (b : Board) (i : nat) (piece : Piece) :
  pawnsFaceUnit b ->
  (type piece = Pawn -> dir piece = Some 1 \/ dir piece = Some (-1)) ->
  pawnsFaceUnit (arr_set i (Occ piece) b).
Proof.
  intros Hb Hpiece j pc. rewrite arr_get_set. case_bool_decide.
  - intros [= <-]. done.
  - apply Hb.
Qed.

Lemma pawnsFaceUnit_move (b : Board) (fromIndex toIndex : nat) (fromCell : Piece) :
  pawnsFaceUnit b -> arr_get b fromIndex = Occ fromCell ->
  pawnsFaceUnit (movePieceOnBoard b fromIndex toIndex fromCell).
Proof.
  intros Hb Hfrom j pc Hpc Hpawn.
  destruct (movePieceOnBoard_cells _ _ _ _ _ _ Hpc)
    as [(_ & _ & _ & Ht & Hdir)|(_ & _ & Hold)]; [|by eapply Hb].
  assert (dir fromCell = Some 1 \/ dir fromCell = Some (-1)) as Hunit
    by (eapply Hb; [done | congruence]).
  destruct Hdir as [->|(d & Hd & ->)]; [done|].
  rewrite Hd in Hunit. destruct Hunit as [[= ->]|[= ->]]; simpl; tauto.
Qed.

(** C10. In every position reachable from the initial game, on the server and
    in the local game, every pawn on the board carries a direction and that
    direction is [1] or [-1]; so the legality checks never see a pawn of the
    board without a direction. *)
Theorem pawn_facing_well_formed (b : Board) (p : Pools) (i : nat) (pc : Piece) :
  reachablePosition b p -> arr_get b i = Occ pc -> type pc = Pawn ->
  (dir pc = Some 1 \/ dir pc = Some (-1)) /\ dir pc ≠ None.
Proof.
  intros Hreach Hpc Hpawn.
  assert (pawnsFaceUnit b) as Hb.
  { refine (reachablePosition_inv (fun b _ => pawnsFaceUnit b) _ _ _ b p Hreach).
    - apply pawnsFaceUnit_init.
    - intros. subst. by apply pawnsFaceUnit_place.
    - intros. by apply pawnsFaceUnit_move. }
  specialize (Hb i pc Hpc Hpawn). split; [done|]. destruct Hb as [->| ->]; done.
Qed.

Lemma playOnServer_reachable (msgs : list (Player * ServerJs.MoveData))
    (g g' : ServerJs.GameState) :
  ServerJs.reachable g -> playOnServer g msgs = Some g' -> ServerJs.reachable g'.
Proof.
  revert g. induction msgs as [|[side data] msgs IH]; intros g Hg; simpl.
  - by intros [= <-].
  - destruct (ServerJs.makeMoveOnGame g side data) as [|g1] eqn:Hstep; [discriminate|].
    apply IH. by eapply ServerJs.reach_step.
Qed.

Lemma afterOpening_reachable : ServerJs.reachable afterOpening.
Proof.
  apply (playOnServer_reachable opening ServerJs.createInitialGameState);
    [apply ServerJs.reach_init | reflexivity].
Qed.

Lemma afterCapture_reachable : ServerJs.reachable afterCapture.
Proof.
  apply (ServerJs.reach_step afterOpening PLAYER_X (moveMsg 0 1));
    [apply afterOpening_reachable | reflexivity].
Qed.

Lemma pawn_facing_well_formed_witness :
  (dir (mkPiece PLAYER_O Pawn (Some 1)) = Some 1 \/
   dir (mkPiece PLAYER_O Pawn (Some 1)) = Some (-1)) /\
  dir (mkPiece PLAYER_O Pawn (Some 1)) ≠ None.
Proof.
  apply (pawn_facing_well_formed (ServerJs.board afterCapture)
           (ServerJs.pools afterCapture) 6 (mkPiece PLAYER_O Pawn (Some 1))).
  - apply (reachable_on_server _ _ afterCapture);
      [apply afterCapture_reachable | reflexivity | reflexivity].
  - reflexivity.
  - reflexivity.
Defined.

(** * Phase *)

Lemma bothPlayersHaveThree_false (b : Board) :
  bothPlayersHaveThree b = false <->
  (countPiecesOnBoard b PLAYER_X < 3 \/ countPiecesOnBoard b PLAYER_O < 3)%nat.
Proof.
  unfold bothPlayersHaveThree. rewrite andb_false_iff, !bool_decide_eq_false. lia.
Qed.

(** C4 as stated fails: after three placements each both sides have three
    pieces on the board; X's rook then captures O's knight, and O's next move,
    a bishop step that the geometry allows, is refused with
    [Cannot move yet]. *)
Lemma flexible_phase_reverts_counterexample :
  (ServerJs.reachable afterOpening /\
   bothPlayersHaveThree (ServerJs.board afterOpening) = true /\
   ServerJs.makeMoveOnGame afterOpening PLAYER_X (moveMsg 0 1) = inr afterCapture /\
   ServerJs.isLegalMove (ServerJs.board afterCapture) 10 5 (mkPiece PLAYER_O Bishop None) = true /\
   ServerJs.makeMoveOnGame afterCapture PLAYER_O (moveMsg 10 5) = inl "Cannot move yet") /\
  ~ flexibleIsOneWay.
Proof.
  split.
  - split; [apply afterOpening_reachable|]. repeat split; reflexivity.
  - intros H.
    apply (H afterOpening PLAYER_X (moveMsg 0 1) afterCapture PLAYER_O (moveMsg 10 5));
      [apply afterOpening_reachable | reflexivity | reflexivity | reflexivity].
Qed.

(** C4 (as amended). The phase is read off the board at every action: on the
    server a move submitted by the side to move in an unfinished game is
    refused as phase-illegal exactly when some side has fewer than three
    pieces on the board at that moment, and in the local game [tryMovePiece]
    changes nothing and returns [false] then. *)
Theorem phase_follows_board_counts (g : ServerJs.GameState) (side : Player)
    (data : ServerJs.MoveData) :
  ServerJs.gameOver g = false -> ServerJs.currentPlayer g = side ->
  ServerJs.d_action data = "move" ->
  (ServerJs.makeMoveOnGame g side data = inl "Cannot move yet" <->
   (countPiecesOnBoard (ServerJs.board g) PLAYER_X < 3 \/
    countPiecesOnBoard (ServerJs.board g) PLAYER_O < 3)%nat) /\
  (forall st fromIndex toIndex,
     (countPiecesOnBoard (GameJs.board st) PLAYER_X < 3 \/
      countPiecesOnBoard (GameJs.board st) PLAYER_O < 3)%nat ->
     GameJs.tryMovePiece st fromIndex toIndex = (st, false)).
Proof.
  intros Hover Hturn Haction. split.
  - rewrite <- bothPlayersHaveThree_false.
    unfold ServerJs.makeMoveOnGame. rewrite Hover, Haction.
    rewrite bool_decide_eq_true_2 by done. simpl.
    destruct (bothPlayersHaveThree _); simpl; [|done].
    split; [|discriminate].
    destruct (arr_get _ _); try discriminate.
    destruct (negb _); [discriminate|].
    destruct (ownedBy _ _); [discriminate|].
    destruct (negb _); discriminate.
  - intros st fromIndex toIndex Hcount%bothPlayersHaveThree_false.
    unfold GameJs.tryMovePiece, GameJs.canCurrentPlayerMovePieces. rewrite Hcount.
    by destruct (GameJs.gameOver st).
Qed.

Lemma phase_follows_board_counts_witness :
  ServerJs.makeMoveOnGame afterCapture PLAYER_O (moveMsg 10 5) = inl "Cannot move yet" <->
  (countPiecesOnBoard (ServerJs.board afterCapture) PLAYER_X < 3 \/
   countPiecesOnBoard (ServerJs.board afterCapture) PLAYER_O < 3)%nat.
Proof.
  exact (proj1 (phase_follows_board_counts afterCapture PLAYER_O (moveMsg 10 5)
                  eq_refl eq_refl eq_refl)).
Defined.

(** * Rejected actions *)

(** Every path of the [makeMove] handler that reports an error leaves the
    server as it was and reports nothing else. *)
Lemma onMakeMove_error_unchanged (st st' : ServerJs.Server) (socketId : string)
    (data : ServerJs.MoveData) (out : list ServerJs.Emit) (target message : string) :
  ServerJs.onMakeMove st socketId data = (st', out) ->
  ServerJs.SocketEmit target (ServerJs.EvError message) ∈ out ->
  st' = st /\ out = [ServerJs.SocketEmit socketId (ServerJs.EvError message)].
Proof.
  unfold ServerJs.onMakeMove.
  destruct (ServerJs.registry st !! socketId) as [info|];
    [destruct (ServerJs.rooms st !! ServerJs.roomId info) as [room|];
     [destruct (ServerJs.makeMoveOnGame _ _ _) as [msg|g]|]|];
    intros [= <- <-] Hin; apply list_elem_of_singleton in Hin;
    try discriminate; by injection Hin as <- <-.
Qed.

(** The local game: a refused placement or move returns the state it got. *)
Lemma game_rejections_unchanged (st : GameJs.State) :
  (forall fromIndex toIndex,
     snd (GameJs.tryMovePiece st fromIndex toIndex) = false ->
     fst (GameJs.tryMovePiece st fromIndex toIndex) = st) /\
  (forall side t index,
     GameJs.gameOver st = true \/ side ≠ GameJs.currentPlayer st \/
     arr_get (GameJs.board st) index ≠ Null \/
     indexOf t (getPool (GameJs.pools st) side) = None ->
     GameJs.placePiece st side t index = st).
Proof.
  split.
  - intros fromIndex toIndex. unfold GameJs.tryMovePiece.
    repeat (match goal with
            | |- context [if ?c then _ else _] => destruct c
            | |- context [match ?c with Hole => _ | _ => _ end] => destruct c
            end; simpl; try done).
  - intros side t index H. unfold GameJs.placePiece.
    destruct (GameJs.gameOver st); [done|].
    case_bool_decide; simpl; [|done].
    destruct (arr_get _ index) eqn:Hcell; simpl; try done.
    destruct (indexOf _ _); [|done].
    destruct H as [?|[?|[?|?]]]; done.
Qed.

(** C6, where the code departs from it: a message whose [action] is neither
    ["place"] nor ["move"], sent by the side to move, is not refused.  No
    error is reported, the turn passes to the opponent and the changed state
    is broadcast. *)
Theorem unrecognized_action_passes_turn :
  ServerJs.makeMoveOnGame ServerJs.createInitialGameState PLAYER_X passMsg
  = inr (ServerJs.mkGameState emptyBoard initialPools PLAYER_O false None) /\
  snd (ServerJs.onMakeMove fullRoomServer "s1" passMsg)
  = [ServerJs.IoTo "room_1"
       (ServerJs.EvGameStateUpdate
          (ServerJs.mkGameState emptyBoard initialPools PLAYER_O false None))] /\
  ServerJs.rooms (fst (ServerJs.onMakeMove fullRoomServer "s1" passMsg)) !! "room_1"
  = Some (ServerJs.mkRoom ["s1"; "s2"]
            (ServerJs.mkGameState emptyBoard initialPools PLAYER_O false None)) /\
  fst (ServerJs.onMakeMove fullRoomServer "s1" passMsg) ≠ fullRoomServer.
Proof.
  assert (ServerJs.rooms (fst (ServerJs.onMakeMove fullRoomServer "s1" passMsg)) !! "room_1"
          = Some (ServerJs.mkRoom ["s1"; "s2"]
                    (ServerJs.mkGameState emptyBoard initialPools PLAYER_O false None)))
    as Hroom by (vm_compute; reflexivity).
  repeat split; try (vm_compute; reflexivity); try exact Hroom.
  intros Heq. rewrite Heq in Hroom. vm_compute in Hroom. discriminate.
Qed.

(** * Disconnects *)

Lemma filter_two_occupants (socketId other : string) (l : list string) :
  l = [socketId; other] \/ l = [other; socketId] -> other ≠ socketId ->
  length l = 2%nat /\ filter (fun id => id ≠ socketId) l = [other].
Proof.
  intros [-> | ->] Hne; (split; [done|]);
    rewrite !filter_cons, filter_nil; repeat case_decide; congruence.
Qed.

(** What the [disconnect] handler does in the room the connection is
    registered for: if the room holds two distinct occupants, the other of
    which is registered, and the game is not over, then the game is marked
    over with the side registered for the other occupant as winner, the room
    keeps that occupant alone, and that occupant is sent the disconnect notice
    and the final state; if the connection was the room's only member, the
    room is deleted. *)
Lemma onDisconnect_registered_room (st : ServerJs.Server) (socketId : string)
    (info : ServerJs.PlayerInfo) (room : ServerJs.Room) :
  ServerJs.registry st !! socketId = Some info ->
  ServerJs.rooms st !! ServerJs.roomId info = Some room ->
  (forall other otherInfo,
     ServerJs.players room = [socketId; other] \/ ServerJs.players room = [other; socketId] ->
     other ≠ socketId ->
     ServerJs.registry st !! other = Some otherInfo ->
     ServerJs.gameOver (ServerJs.gameState room) = false ->
     let g := ServerJs.gameState room in
     let g' := ServerJs.mkGameState (ServerJs.board g) (ServerJs.pools g)
                 (ServerJs.currentPlayer g) true (Some (ServerJs.playerId otherInfo)) in
     ServerJs.rooms (fst (ServerJs.onDisconnect st socketId)) !! ServerJs.roomId info
       = Some (ServerJs.mkRoom [other] g') /\
     ServerJs.gameOver g' = true /\
     ServerJs.winner g' = Some (ServerJs.playerId otherInfo) /\
     ServerJs.registry (fst (ServerJs.onDisconnect st socketId)) !! other = Some otherInfo /\
     ServerJs.registry (fst (ServerJs.onDisconnect st socketId)) !! socketId = None /\
     snd (ServerJs.onDisconnect st socketId)
       = [ ServerJs.IoTo other
             (ServerJs.EvPlayerDisconnected (ServerJs.playerId info) "opponent_disconnected");
           ServerJs.IoTo other (ServerJs.EvGameStateUpdate g');
           ServerJs.IoEmit
             (ServerJs.EvOnlineCount (size (delete socketId (ServerJs.registry st)))) ]) /\
  (ServerJs.players room = [socketId] ->
   ServerJs.rooms (fst (ServerJs.onDisconnect st socketId))
     = delete (ServerJs.roomId info) (ServerJs.rooms st) /\
   ServerJs.rooms (fst (ServerJs.onDisconnect st socketId)) !! ServerJs.roomId info = None).
Proof.
  intros Hinfo Hroom. split.
  - intros other otherInfo Hplayers Hne Hother Hover g g'.
    destruct (filter_two_occupants _ _ _ Hplayers Hne) as [Hlen Hfilter].
    unfold ServerJs.onDisconnect.
    rewrite Hinfo, Hroom, Hfilter, Hlen, Hother, Hover.
    rewrite bool_decide_eq_true_2 by done. simpl.
    rewrite lookup_insert_eq, lookup_delete_ne by done.
    rewrite lookup_delete_eq. done.
  - intros Hplayers. unfold ServerJs.onDisconnect.
    rewrite Hinfo, Hroom, Hplayers.
    rewrite filter_cons, filter_nil. case_decide; [done|]. simpl.
    by rewrite lookup_delete_eq.
Qed.


(** * Search *)

Lemma maxLoop_total (child : GameJs.Action -> Z -> Z -> option Z)
    (actions : list GameJs.Action) :
  (forall a alpha beta, exists v, child a alpha beta = Some v) ->
  forall best alpha beta, exists v, GameJs.maxLoop child actions best alpha beta = Some v.
Proof.
  intros Hchild. induction actions as [|a rest IH]; intros best alpha beta; simpl; [eauto|].
  destruct (Hchild a alpha beta) as [score ->].
  destruct (beta <=? Z.max alpha score); eauto.
Qed.

Lemma minLoop_total (child : GameJs.Action -> Z -> Z -> option Z)
    (actions : list GameJs.Action) :
  (forall a alpha beta, exists v, child a alpha beta = Some v) ->
  forall best alpha beta, exists v, GameJs.minLoop child actions best alpha beta = Some v.
Proof.
  intros Hchild. induction actions as [|a rest IH]; intros best alpha beta; simpl; [eauto|].
  destruct (Hchild a alpha beta) as [score ->].
  destruct (Z.min beta score <=? alpha); eauto.
Qed.

(** One unfolding of the search, whatever the fuel. *)
Lemma minimaxFuel_unfold (fuel : nat) (b : Board) (p : Pools) (depth : Z)
    (isMaximizing : bool) (alpha beta : Z) :
  GameJs.minimaxFuel fuel b p depth isMaximizing alpha beta =
  match checkWinner b with
  | Some PLAYER_O => Some (GameJs.MINIMAX_WIN - depth)
  | Some PLAYER_X => Some (GameJs.MINIMAX_LOSS + depth)
  | None =>
      if isBoardFull b then Some GameJs.MINIMAX_DRAW
      else if depth >=? GameJs.MAX_DEPTH then Some GameJs.MINIMAX_DRAW
      else
        match GameJs.getAllActions b p (if isMaximizing then PLAYER_O else PLAYER_X) with
        | [] => Some GameJs.MINIMAX_DRAW
        | a :: rest =>
            match fuel with
            | 0%nat => None
            | S fuel' =>
                if isMaximizing then
                  GameJs.maxLoop
                    (fun action alpha beta =>
                       let '(b2, p2) := GameJs.applyAction b p PLAYER_O action in
                       GameJs.minimaxFuel fuel' b2 p2 (depth + 1) false alpha beta)
                    (a :: rest) GameJs.MINIMAX_LOSS alpha beta
                else
                  GameJs.minLoop
                    (fun action alpha beta =>
                       let '(b2, p2) := GameJs.applyAction b p PLAYER_X action in
                       GameJs.minimaxFuel fuel' b2 p2 (depth + 1) true alpha beta)
                    (a :: rest) GameJs.MINIMAX_WIN alpha beta
            end
        end
  end.
Proof.
  destruct fuel; simpl; destruct (checkWinner b) as [[]|]; try done;
    destruct (isBoardFull b); try done; destruct (depth >=? GameJs.MAX_DEPTH); try done;
    by destruct (GameJs.getAllActions b p _).
Qed.

(** The fuel [minimax] passes is enough: the search always returns a score. *)
Lemma minimaxFuel_total (fuel : nat) :
  forall (b : Board) (p : Pools) (depth : Z) (isMaximizing : bool) (alpha beta : Z),
    (GameJs.minimaxDepthFuel depth <= fuel)%nat ->
    exists v, GameJs.minimaxFuel fuel b p depth isMaximizing alpha beta = Some v.
Proof.
  unfold GameJs.minimaxDepthFuel.
  induction fuel as [|fuel IH]; intros b p depth isMaximizing alpha beta Hfuel;
    rewrite minimaxFuel_unfold;
    destruct (checkWinner b) as [[]|]; eauto;
    destruct (isBoardFull b); eauto;
    destruct (Z.geb_spec depth GameJs.MAX_DEPTH) as [Hge|Hlt]; eauto;
    destruct (GameJs.getAllActions b p _) as [|a rest]; eauto.
  - unfold GameJs.MAX_DEPTH in *. lia.
  - destruct isMaximizing.
    + apply maxLoop_total. intros a' alpha' beta'.
      destruct (GameJs.applyAction b p PLAYER_O a') as [b2 p2].
      apply IH. unfold GameJs.MAX_DEPTH in *. lia.
    + apply minLoop_total. intros a' alpha' beta'.
      destruct (GameJs.applyAction b p PLAYER_X a') as [b2 p2].
      apply IH. unfold GameJs.MAX_DEPTH in *. lia.
Qed.

Lemma minimax_minimaxFuel (b : Board) (p : Pools) (depth : Z) (isMaximizing : bool)
    (alpha beta : Z) :
  GameJs.minimaxFuel (GameJs.minimaxDepthFuel depth) b p depth isMaximizing alpha beta
  = Some (GameJs.minimax b p depth isMaximizing alpha beta).
Proof.
  unfold GameJs.minimax.
  destruct (minimaxFuel_total (GameJs.minimaxDepthFuel depth) b p depth isMaximizing
              alpha beta) as [v ->]; done.
Qed.

(** A side that alone owns a line is the detector's winner. *)
Lemma checkWinner_sole_owner (b : Board) (side : Player) :
  hasLine b side -> ~ hasLine b (otherPlayer side) -> checkWinner b = Some side.
Proof.
  intros Hown Hother. destruct (checkWinner b) as [w|] eqn:Hw.
  - apply checkWinner_Some in Hw. destruct side, w; simpl in *; done.
  - exfalso. by apply (proj1 (checkWinner_None b) Hw side).
Qed.

(** C7. Whatever the pools, the side to move and the window: the search
    scores a board won by the maximizing side O as [100 - depth], a board won
    by the minimizing side X as [-100 + depth], a full board without a winner
    as 0, and any other board at [depth >= 2] as 0; the winner is the outcome
    detector's, which is the owner of the line when only one side owns one. *)
Theorem minimax_terminal_scores (b : Board) (p : Pools) (depth : Z)
    (isMaximizing : bool) (alpha beta : Z) :
  GameJs.MINIMAX_WIN = 100 /\ GameJs.MINIMAX_LOSS = -100 /\ GameJs.MAX_DEPTH = 2 /\
  (detect b = Winner PLAYER_O ->
   GameJs.minimax b p depth isMaximizing alpha beta = 100 - depth) /\
  (detect b = Winner PLAYER_X ->
   GameJs.minimax b p depth isMaximizing alpha beta = -100 + depth) /\
  (detect b = Draw ->
   GameJs.minimax b p depth isMaximizing alpha beta = 0) /\
  (detect b = NoOutcome -> depth >= 2 ->
   GameJs.minimax b p depth isMaximizing alpha beta = 0) /\
  (hasLine b PLAYER_O -> ~ hasLine b PLAYER_X -> detect b = Winner PLAYER_O) /\
  (hasLine b PLAYER_X -> ~ hasLine b PLAYER_O -> detect b = Winner PLAYER_X).
Proof.
  split; [done|]. split; [done|]. split; [done|].
  assert (Some (GameJs.minimax b p depth isMaximizing alpha beta)
          = GameJs.minimaxFuel (GameJs.minimaxDepthFuel depth) b p depth isMaximizing
              alpha beta) as Hm by (by rewrite minimax_minimaxFuel).
  rewrite minimaxFuel_unfold in Hm. unfold detect.
  repeat split.
  - destruct (checkWinner b) as [[]|]; try discriminate.
    + by injection Hm as ->.
    + destruct (isBoardFull b); discriminate.
  - destruct (checkWinner b) as [[]|]; try discriminate.
    + by injection Hm as ->.
    + destruct (isBoardFull b); discriminate.
  - destruct (checkWinner b) as [[]|]; try discriminate.
    destruct (isBoardFull b); [|discriminate]. by injection Hm as ->.
  - destruct (checkWinner b) as [[]|]; try discriminate.
    destruct (isBoardFull b); [discriminate|]. intros _ Hdepth.
    destruct (Z.geb_spec depth GameJs.MAX_DEPTH) as [Hge|Hlt].
    + by injection Hm as ->.
    + unfold GameJs.MAX_DEPTH in Hlt. lia.
  - intros Ho Hx. by rewrite (checkWinner_sole_owner b PLAYER_O).
  - intros Hx Ho. by rewrite (checkWinner_sole_owner b PLAYER_X).
Qed.

Lemma cloneBoard_id (b : Board) : GameJs.cloneBoard b = b.
Proof.
  unfold GameJs.cloneBoard. induction b as [|s b IH]; simpl; [done|].
  rewrite IH. by destruct s as [| |[]].
Qed.

Lemma clonePools_id (p : Pools) : GameJs.clonePools p = p.
Proof. by destruct p. Qed.

Lemma maxLoop_ge_best (child : GameJs.Action -> Z -> Z -> option Z)
    (actions : list GameJs.Action) (best alpha beta v : Z) :
  GameJs.maxLoop child actions best alpha beta = Some v -> best <= v.
Proof.
  revert best alpha. induction actions as [|a rest IH]; intros best alpha; simpl.
  - intros [= <-]. lia.
  - destruct (child a alpha beta) as [score|]; [|discriminate].
    destruct (beta <=? Z.max alpha score).
    + intros [= <-]. lia.
    + intros H%IH. lia.
Qed.

Lemma maxLoop_ge_first (child : GameJs.Action -> Z -> Z -> option Z)
    (a : GameJs.Action) (rest : list GameJs.Action) (best alpha beta v : Z) :
  GameJs.maxLoop child (a :: rest) best alpha beta = Some v ->
  exists score, child a alpha beta = Some score /\ score <= v.
Proof.
  simpl. destruct (child a alpha beta) as [score|]; [|discriminate].
  intros H. exists score. split; [done|].
  destruct (beta <=? Z.max alpha score).
  - injection H as <-. lia.
  - apply maxLoop_ge_best in H. lia.
Qed.

Lemma minLoop_lower (child : GameJs.Action -> Z -> Z -> option Z) (low : Z)
    (actions : list GameJs.Action) :
  (forall a alpha beta score, child a alpha beta = Some score -> low <= score) ->
  forall best alpha beta v,
    low <= best -> GameJs.minLoop child actions best alpha beta = Some v -> low <= v.
Proof.
  intros Hchild. induction actions as [|a rest IH]; intros best alpha beta v Hbest; simpl.
  - by intros [= <-].
  - destruct (child a alpha beta) as [score|] eqn:Hscore; [|discriminate].
    apply Hchild in Hscore.
    destruct (Z.min beta score <=? alpha).
    + intros [= <-]. lia.
    + apply IH. lia.
Qed.

(** From depth 0 on, no score is below [MINIMAX_LOSS + depth]. *)
Lemma minimaxFuel_lower (fuel : nat) :
  forall (b : Board) (p : Pools) (depth : Z) (isMaximizing : bool) (alpha beta v : Z),
    0 <= depth <= 100 ->
    GameJs.minimaxFuel fuel b p depth isMaximizing alpha beta = Some v ->
    -100 + depth <= v.
Proof.
  induction fuel as [|fuel IH]; intros b p depth isMaximizing alpha beta v Hdepth;
    rewrite minimaxFuel_unfold;
    unfold GameJs.MINIMAX_WIN, GameJs.MINIMAX_LOSS, GameJs.MINIMAX_DRAW, GameJs.MAX_DEPTH;
    (destruct (checkWinner b) as [[]|]; [intros [= <-]; lia | intros [= <-]; lia |]);
    (destruct (isBoardFull b); [intros [= <-]; lia|]);
    (destruct (Z.geb_spec depth 2) as [Hge|Hlt]; [intros [= <-]; lia|]);
    (destruct (GameJs.getAllActions b p _) as [|a rest]; [intros [= <-]; lia|]);
    [discriminate|].
  destruct isMaximizing.
  - intros (score & Hscore & Hle)%maxLoop_ge_first.
    destruct (GameJs.applyAction b p PLAYER_O a) as [b2 p2].
    apply IH in Hscore; lia.
  - apply minLoop_lower; [|lia].
    intros a' alpha' beta' score.
    destruct (GameJs.applyAction b p PLAYER_X a') as [b2 p2].
    intros Hscore. apply IH in Hscore; lia.
Qed.

(** After an action of O that does not leave X as the winner, the score of
    the position is above [MINIMAX_LOSS]. *)
Lemma root_score_above_loss (b : Board) (p : Pools) :
  checkWinner b ≠ Some PLAYER_X ->
  GameJs.minimax b p 0 false GameJs.MINIMAX_LOSS GameJs.MINIMAX_WIN > GameJs.MINIMAX_LOSS.
Proof.
  intros Hw.
  pose proof (minimax_minimaxFuel b p 0 false GameJs.MINIMAX_LOSS GameJs.MINIMAX_WIN) as Hm.
  revert Hm. generalize (GameJs.minimax b p 0 false GameJs.MINIMAX_LOSS GameJs.MINIMAX_WIN).
  intros v. change (GameJs.minimaxDepthFuel 0) with 2%nat.
  rewrite minimaxFuel_unfold.
  unfold GameJs.MINIMAX_WIN, GameJs.MINIMAX_LOSS, GameJs.MINIMAX_DRAW, GameJs.MAX_DEPTH.
  destruct (checkWinner b) as [[]|]; [done | intros [= <-]; lia |].
  destruct (isBoardFull b); [intros [= <-]; lia|].
  simpl (0 >=? 2).
  destruct (GameJs.getAllActions b p _) as [|a rest]; [intros [= <-]; lia|].
  intros Hloop. cut (-99 <= v); [lia|]. revert Hloop.
  apply minLoop_lower; [|lia].
  intros a' alpha' beta' score.
  destruct (GameJs.applyAction b p PLAYER_X a') as [b2 p2].
  intros Hscore. apply minimaxFuel_lower in Hscore; lia.
Qed.

Lemma bestActionLoop_keeps (board : Board) (pools : Pools) (actions : list GameJs.Action) :
  forall bestScore x,
    exists y, GameJs.bestActionLoop board pools actions bestScore (Some x) = Some y.
Proof.
  induction actions as [|a rest IH]; intros bestScore x; simpl; [eauto|].
  destruct (GameJs.applyAction board pools PLAYER_O a) as [b2 p2].
  destruct (_ >? bestScore); apply IH.
Qed.

Lemma bestActionLoop_member (board : Board) (pools : Pools) (actions : list GameJs.Action) :
  forall bestScore bestAction y,
    GameJs.bestActionLoop board pools actions bestScore bestAction = Some y ->
    bestAction = Some y \/ In y actions.
Proof.
  induction actions as [|a rest IH]; intros bestScore bestAction y; simpl; [by left|].
  destruct (GameJs.applyAction board pools PLAYER_O a) as [b2 p2].
  destruct (_ >? bestScore); intros [H|H]%IH; try tauto.
  injection H as <-. tauto.
Qed.

(** An action of O puts no piece of X on any cell. *)
Lemma hasLine_mono (b b' : Board) (side : Player) :
  (forall j, ownedBy side (arr_get b' j) = true -> ownedBy side (arr_get b j) = true) ->
  hasLine b' side -> hasLine b side.
Proof.
  intros Hcells (l & Hin & Hown). exists l. split; [done|].
  destruct l as [[[a b0] c] d]. unfold ownsLine in *.
  destruct Hown as (? & ? & ? & ?). auto.
Qed.

Lemma applyPlacement_cells (b : Board) (p : Pools) (t : PieceType) (i j : nat) :
  ownedBy PLAYER_X (arr_get (fst (GameJs.applyPlacement b p PLAYER_O t i)) j) = true ->
  ownedBy PLAYER_X (arr_get b j) = true.
Proof.
  unfold GameJs.applyPlacement. destruct (indexOf _ _); simpl; [|done].
  rewrite arr_get_set. case_bool_decide; [|done].
  destruct (game_newPiece_facts PLAYER_O t) as (Hp & _). simpl.
  rewrite Hp. by intros ?%bool_decide_eq_true.
Qed.

Lemma applyMove_cells (b : Board) (p : Pools) (fromIndex toIndex j : nat) (cell : Piece) :
  arr_get b fromIndex = Occ cell -> player cell = PLAYER_O ->
  ownedBy PLAYER_X (arr_get (fst (GameJs.applyMove b p fromIndex toIndex)) j) = true ->
  ownedBy PLAYER_X (arr_get b j) = true.
Proof.
  intros Hfrom Hside. unfold GameJs.applyMove. rewrite Hfrom. simpl.
  intros (pc & Hpc & Hx)%ownedBy_Occ.
  destruct (movePieceOnBoard_cells _ _ _ _ _ _ Hpc) as [(_ & _ & Hpl & _)|(_ & _ & Hold)].
  - congruence.
  - apply ownedBy_Occ. eauto.
Qed.

(** What [getAllActions] lists: placements, and moves of the side's pieces. *)
Lemma getAllActions_members (b : Board) (p : Pools) (side : Player) (a : GameJs.Action) :
  In a (GameJs.getAllActions b p side) ->
  (exists i t, a = GameJs.APlace i t) \/
  (exists i j cell, a = GameJs.AMove i j /\ i ≠ j /\
                    arr_get b i = Occ cell /\ player cell = side).
Proof.
  unfold GameJs.getAllActions. rewrite in_app_iff. intros [Hplace|Hmove].
  - left. unfold GameJs.getAllLegalPlacementsFor in Hplace.
    destruct (getPool p side) as [|t0 pool]; [done|].
    apply in_flat_map in Hplace as (i & _ & Hi).
    destruct (notNull _); [done|].
    apply in_map_iff in Hi as (t & <- & _). eauto.
  - right. destruct (GameJs.canPlayerMovePiecesFor b p side); [|done].
    unfold GameJs.getAllLegalMovesFor in Hmove.
    apply in_flat_map in Hmove as (i & _ & Hi).
    destruct (arr_get b i) as [| |cell] eqn:Hcell; try done.
    destruct (bool_decide (player cell = side)) eqn:Hside; cbn [negb] in Hi; [|done].
    apply bool_decide_eq_true in Hside.
    apply in_flat_map in Hi as (j & _ & Hj).
    case_bool_decide as Hij; [done|].
    destruct (ownedBy _ _); [done|].
    destruct (GameJs.isLegalMoveOnBoard _ _ _ _); [|done].
    destruct Hj as [<-|[]]. exists i, j, cell. eauto.
Qed.

(** On a board without a winner no action of O makes X the winner. *)
Lemma applyAction_no_x_win (board : Board) (pools : Pools) (a : GameJs.Action) :
  checkWinner board = None ->
  In a (GameJs.getAllActions board pools PLAYER_O) ->
  checkWinner (fst (GameJs.applyAction board pools PLAYER_O a)) ≠ Some PLAYER_X.
Proof.
  intros Hnone Hin Hx. apply checkWinner_Some in Hx.
  apply (proj1 (checkWinner_None board) Hnone PLAYER_X).
  revert Hx. apply hasLine_mono. intros j.
  unfold GameJs.applyAction. rewrite cloneBoard_id, clonePools_id.
  destruct (getAllActions_members _ _ _ _ Hin)
    as [(i & t & ->)|(i & j' & cell & -> & _ & Hcell & Hside)].
  - apply applyPlacement_cells.
  - by eapply applyMove_cells.
Qed.








(** * Rooms and matchmaking *)

(** How the [disconnect] handler changes the two maps. *)
Lemma onDisconnect_registry (st : ServerJs.Server) (socketId : string) :
  ServerJs.registry (fst (ServerJs.onDisconnect st socketId))
  = delete socketId (ServerJs.registry st).
Proof.
  unfold ServerJs.onDisconnect.
  destruct (ServerJs.registry st !! socketId) as [info|] eqn:Hinfo.
  - destruct (ServerJs.rooms st !! ServerJs.roomId info) as [room|]; [|done].
    destruct (filter _ (ServerJs.players room)) as [|remaining rest]; [done|].
    destruct (bool_decide _); [|done].
    destruct (ServerJs.registry st !! remaining); [|done]. by destruct (negb _).
  - simpl. by rewrite delete_id.
Qed.

Lemma onDisconnect_rooms (st : ServerJs.Server) (socketId rid : string) :
  ServerJs.rooms (fst (ServerJs.onDisconnect st socketId)) !! rid
  = ServerJs.rooms st !! rid \/
  exists info room,
    ServerJs.registry st !! socketId = Some info /\ rid = ServerJs.roomId info /\
    ServerJs.rooms st !! rid = Some room /\
    let rest := filter (fun id => id ≠ socketId) (ServerJs.players room) in
    (rest = [] /\ ServerJs.rooms (fst (ServerJs.onDisconnect st socketId)) !! rid = None) \/
    (rest ≠ [] /\ exists g,
       ServerJs.rooms (fst (ServerJs.onDisconnect st socketId)) !! rid
       = Some (ServerJs.mkRoom rest g)).
Proof.
  unfold ServerJs.onDisconnect.
  destruct (ServerJs.registry st !! socketId) as [info|] eqn:Hinfo; [|by left].
  destruct (ServerJs.rooms st !! ServerJs.roomId info) as [room|] eqn:Hroom; [|by left].
  destruct (decide (rid = ServerJs.roomId info)) as [->|Hne].
  - right. exists info, room. repeat split; try done.
    destruct (filter _ (ServerJs.players room)) as [|remaining rest'] eqn:Hfilter; simpl.
    + left. split; [done|]. by rewrite lookup_delete_eq.
    + right. split; [done|].
      destruct (bool_decide _); [destruct (ServerJs.registry st !! remaining);
        [destruct (negb _)|]|]; simpl; rewrite lookup_insert_eq; eauto.
  - left.
    destruct (filter _ (ServerJs.players room)) as [|remaining rest'] eqn:Hfilter; simpl.
    + by rewrite lookup_delete_ne.
    + destruct (bool_decide _); [destruct (ServerJs.registry st !! remaining);
        [destruct (negb _)|]|]; simpl; by rewrite lookup_insert_ne.
Qed.

(** How the [makeMove] handler changes the two maps: the registry and every
    list of occupants stay, and only the sender's room can get a new game
    state. *)
Lemma onMakeMove_registry (st : ServerJs.Server) (socketId : string)
    (data : ServerJs.MoveData) :
  ServerJs.registry (fst (ServerJs.onMakeMove st socketId data)) = ServerJs.registry st.
Proof.
  unfold ServerJs.onMakeMove.
  destruct (ServerJs.registry st !! socketId) as [info|]; [|done].
  destruct (ServerJs.rooms st !! ServerJs.roomId info) as [room|]; [|done].
  by destruct (ServerJs.makeMoveOnGame _ _ _).
Qed.

Lemma onMakeMove_rooms (st : ServerJs.Server) (socketId rid : string)
    (data : ServerJs.MoveData) :
  ServerJs.rooms (fst (ServerJs.onMakeMove st socketId data)) !! rid
  = ServerJs.rooms st !! rid \/
  exists info room g,
    ServerJs.registry st !! socketId = Some info /\ rid = ServerJs.roomId info /\
    ServerJs.rooms st !! rid = Some room /\
    ServerJs.makeMoveOnGame (ServerJs.gameState room) (ServerJs.playerId info) data = inr g /\
    ServerJs.rooms (fst (ServerJs.onMakeMove st socketId data)) !! rid
    = Some (ServerJs.mkRoom (ServerJs.players room) g).
Proof.
  unfold ServerJs.onMakeMove.
  destruct (ServerJs.registry st !! socketId) as [info|] eqn:Hinfo; [|by left].
  destruct (ServerJs.rooms st !! ServerJs.roomId info) as [room|] eqn:Hroom; [|by left].
  destruct (ServerJs.makeMoveOnGame _ _ _) as [msg|g] eqn:Hmove; [by left|]. simpl.
  destruct (decide (rid = ServerJs.roomId info)) as [->|Hne].
  - right. exists info, room, g. by rewrite lookup_insert_eq.
  - left. by rewrite lookup_insert_ne.
Qed.

Lemma findAvailableRoom_Some (rooms : gmap string ServerJs.Room) (order : list string)
    (rid : string) :
  ServerRooms.findAvailableRoom rooms order = Some rid ->
  exists before after room,
    order = before ++ rid :: after /\
    rooms !! rid = Some room /\ length (ServerJs.players room) = 1%nat /\
    forall r room', r ∈ before -> rooms !! r = Some room' ->
                    length (ServerJs.players room') ≠ 1%nat.
Proof.
  induction order as [|r order IH]; simpl; [discriminate|].
  destruct (rooms !! r) as [room|] eqn:Hr.
  - case_bool_decide as Hlen.
    + intros [= <-]. exists [], order, room. repeat split; try done.
      intros r' room' Hin. by apply elem_of_nil in Hin.
    + intros (before & after & room0 & -> & Hroom & Hone & Hbefore)%IH.
      exists (r :: before), after, room0. repeat split; try done.
      intros r' room' [->|Hin]%elem_of_cons Hr'; [congruence | by eapply Hbefore].
  - intros (before & after & room0 & -> & Hroom & Hone & Hbefore)%IH.
    exists (r :: before), after, room0. repeat split; try done.
    intros r' room' [->|Hin]%elem_of_cons Hr'; [congruence | by eapply Hbefore].
Qed.

Lemma findAvailableRoom_None (rooms : gmap string ServerJs.Room) (order : list string) :
  ServerRooms.findAvailableRoom rooms order = None <->
  forall r room, r ∈ order -> rooms !! r = Some room ->
                 length (ServerJs.players room) ≠ 1%nat.
Proof.
  induction order as [|r order IH]; simpl.
  - split; [|done]. intros _ r room Hin. by apply elem_of_nil in Hin.
  - destruct (rooms !! r) as [room|] eqn:Hr.
    + case_bool_decide as Hlen.
      * split; [discriminate|]. intros H. exfalso. eapply H; [left | done | done].
      * rewrite IH. split.
        -- intros H r' room' [->|Hin]%elem_of_cons Hr'; [congruence | by eapply H].
        -- intros H r' room' Hin. apply H. by right.
    + rewrite IH. split.
      * intros H r' room' [->|Hin]%elem_of_cons Hr'; [congruence | by eapply H].
      * intros H r' room' Hin. apply H. by right.
Qed.

Lemma orderAfterSet_NoDup (rid : string) (order : list string) :
  NoDup order -> NoDup (ServerRooms.orderAfterSet rid order).
Proof.
  intros Hnd. unfold ServerRooms.orderAfterSet. case_bool_decide; [done|].
  apply NoDup_app. repeat split; [done | | apply NoDup_singleton].
  intros x Hx ->%list_elem_of_singleton. done.
Qed.

Lemma orderAfterSet_elem (rid r : string) (order : list string) :
  r ∈ ServerRooms.orderAfterSet rid order <-> r = rid \/ r ∈ order.
Proof.
  unfold ServerRooms.orderAfterSet. case_bool_decide.
  - split; [tauto|]. by intros [->|?].
  - rewrite elem_of_app, list_elem_of_singleton. tauto.
Qed.

Lemma createRoomFor_ok (l : ServerRooms.Lobby) (socketId stamp : string) :
  lobbyOk l -> lobbyOk (fst (ServerRooms.createRoomFor l socketId stamp)).
Proof.
  intros [Hsize [Hnd Horder]]. split; [|split]; simpl.
  - intros rid room. simpl. rewrite lookup_insert. case_decide.
    + intros [= <-]. simpl. split; [lia | apply NoDup_singleton].
    + apply Hsize.
  - by apply orderAfterSet_NoDup.
  - intros rid. rewrite orderAfterSet_elem, lookup_insert. case_decide.
    + subst. split; [eauto | by left].
    + rewrite Horder. split; [intros [?|?]; congruence | by right].
Qed.

Lemma joinRoom_ok (l : ServerRooms.Lobby) (socketId rid : string) (room : ServerJs.Room)
    (g : ServerJs.GameState) (registry : gmap string ServerJs.PlayerInfo) :
  lobbyOk l ->
  ServerJs.rooms (ServerRooms.lobbyServer l) !! rid = Some room ->
  (length (ServerJs.players room) < 2)%nat -> socketId ∉ ServerJs.players room ->
  lobbyOk (ServerRooms.mkLobby
             (ServerJs.mkServer
                (<[rid := ServerJs.mkRoom (ServerJs.players room ++ [socketId]) g]>
                   (ServerJs.rooms (ServerRooms.lobbyServer l)))
                registry)
             (ServerRooms.roomOrder l)).
Proof.
  intros [Hsize [Hnd Horder]] Hroom Hlen Hnotin. split; [|split]; simpl.
  - intros rid' room'. simpl. rewrite lookup_insert. case_decide.
    + intros [= <-]. simpl. destruct (Hsize _ _ Hroom) as [Hl Hn].
      rewrite length_app. simpl. split; [lia|].
      apply NoDup_app. repeat split; [done | | apply NoDup_singleton].
      intros x Hx ->%list_elem_of_singleton. done.
    + apply Hsize.
  - done.
  - intros rid'. rewrite Horder, lookup_insert. case_decide; [|done].
    subst. split; eauto.
Qed.

Lemma onFindOrCreateRoom_ok (l : ServerRooms.Lobby) (socketId stamp : string) :
  lobbyOk l -> lobbyOk (fst (ServerRooms.onFindOrCreateRoom l socketId stamp)).
Proof.
  intros Hok. unfold ServerRooms.onFindOrCreateRoom.
  destruct (ServerRooms.findAvailableRoom _ _) as [rid|]; [|by apply createRoomFor_ok].
  destruct (String.eqb rid ""); [by apply createRoomFor_ok|].
  destruct (ServerJs.rooms _ !! rid) as [room|] eqn:Hroom; [|done].
  destruct (bool_decide (length _ < 2)%nat) eqn:Hlen; simpl; [|by apply createRoomFor_ok].
  destruct (bool_decide (socketId ∈ _)) eqn:Hin; simpl; [by apply createRoomFor_ok|].
  apply bool_decide_eq_true in Hlen. apply bool_decide_eq_false in Hin.
  by apply joinRoom_ok.
Qed.

Lemma onJoinRoom_ok (l : ServerRooms.Lobby) (socketId rid : string) :
  lobbyOk l -> lobbyOk (fst (ServerRooms.onJoinRoom l socketId rid)).
Proof.
  intros Hok. unfold ServerRooms.onJoinRoom.
  destruct (ServerJs.rooms _ !! rid) as [room|] eqn:Hroom; [|done].
  case_bool_decide as Hlen; [done|].
  case_bool_decide as Hin; [done|].
  simpl. apply joinRoom_ok; [done | done | lia | done].
Qed.

Lemma onMakeMove_ok (l : ServerRooms.Lobby) (socketId : string) (data : ServerJs.MoveData) :
  lobbyOk l -> lobbyOk (fst (ServerRooms.onMakeMove l socketId data)).
Proof.
  intros [Hsize [Hnd Horder]]. unfold ServerRooms.onMakeMove.
  pose proof (onMakeMove_rooms (ServerRooms.lobbyServer l) socketId) as Hrooms.
  destruct (ServerJs.onMakeMove _ _ _) as [st out] eqn:Hst.
  assert (st = fst (ServerJs.onMakeMove (ServerRooms.lobbyServer l) socketId data)) as ->
    by (by rewrite Hst).
  clear Hst. simpl.
  split; [|split]; simpl.
  - intros rid room Hroom. simpl in Hroom.
    destruct (Hrooms rid data) as [Heq|(info & room0 & g & _ & _ & Hroom0 & _ & Hnew)].
    + rewrite Heq in Hroom. by eapply Hsize.
    + rewrite Hnew in Hroom. injection Hroom as <-. simpl. by eapply Hsize.
  - done.
  - intros rid. rewrite Horder.
    destruct (Hrooms rid data) as [Heq|(info & room0 & g & _ & _ & Hroom0 & _ & Hnew)].
    + by rewrite Heq.
    + rewrite Hnew, Hroom0. split; eauto.
Qed.

Lemma onDisconnect_ok (l : ServerRooms.Lobby) (socketId : string) :
  lobbyOk l -> lobbyOk (fst (ServerRooms.onDisconnect l socketId)).
Proof.
  intros [Hsize [Hnd Horder]]. unfold ServerRooms.onDisconnect.
  pose proof (onDisconnect_rooms (ServerRooms.lobbyServer l) socketId) as Hrooms.
  destruct (ServerJs.onDisconnect _ _) as [st out] eqn:Hst.
  assert (st = fst (ServerJs.onDisconnect (ServerRooms.lobbyServer l) socketId)) as ->
    by (by rewrite Hst).
  clear Hst. simpl in Hrooms. simpl.
  split; [|split]; simpl.
  - intros rid room Hroom. simpl in Hroom.
    destruct (Hrooms rid)
      as [Heq|(info & room0 & _ & _ & Hroom0 & [[_ Hnone]|[Hrest (g & Hnew)]])].
    + rewrite Heq in Hroom. by eapply Hsize.
    + congruence.
    + rewrite Hnew in Hroom. injection Hroom as <-. simpl.
      destruct (Hsize _ _ Hroom0) as [Hlen Hnodup].
      pose proof (length_filter (fun id => id ≠ socketId) (ServerJs.players room0)).
      split; [|by apply NoDup_filter].
      destruct (filter _ (ServerJs.players room0)); [done | simpl in *; lia].
  - by apply NoDup_filter.
  - intros rid. rewrite list_elem_of_filter, Horder. split; [tauto|].
    intros Hsome. split; [done|].
    destruct (Hrooms rid) as [Heq|(info & room0 & _ & _ & Hroom0 & _)].
    + by rewrite <- Heq.
    + rewrite Hroom0. eauto.
Qed.

Lemma reachable_lobbyOk (l : ServerRooms.Lobby) : ServerRooms.reachable l -> lobbyOk l.
Proof.
  induction 1.
  - split; [|split]; simpl.
    + intros rid room. simpl. by rewrite lookup_empty.
    + apply NoDup_nil_2.
    + intros rid. simpl. rewrite lookup_empty. split.
      * by intros ?%elem_of_nil.
      * by intros [? ?].
  - by apply onFindOrCreateRoom_ok.
  - by apply createRoomFor_ok.
  - by apply onJoinRoom_ok.
  - by apply onMakeMove_ok.
  - by apply onDisconnect_ok.
Qed.

(** X1. Whatever messages arrive in whatever order, every room of the server
    holds one or two occupants and lists no connection twice. *)
Theorem rooms_hold_one_or_two (l : ServerRooms.Lobby) (rid : string) (room : ServerJs.Room) :
  ServerRooms.reachable l ->
  ServerJs.rooms (ServerRooms.lobbyServer l) !! rid = Some room ->
  (1 <= length (ServerJs.players room) <= 2)%nat /\ NoDup (ServerJs.players room).
Proof. intros [Hsize _]%reachable_lobbyOk. apply Hsize. Qed.

Lemma lobbyWaiting_reachable : ServerRooms.reachable lobbyWaiting.
Proof. apply ServerRooms.reach_find, ServerRooms.reach_empty. Qed.

Lemma lobbyPlaying_reachable : ServerRooms.reachable lobbyPlaying.
Proof. apply ServerRooms.reach_find, lobbyWaiting_reachable. Qed.

Lemma rooms_hold_one_or_two_witness :
  (1 <= length ["s1"; "s2"] <= 2)%nat /\ NoDup ["s1"; "s2"].
Proof.
  apply (rooms_hold_one_or_two lobbyPlaying "room_1"
           (ServerJs.mkRoom ["s1"; "s2"] ServerJs.createInitialGameState)).
  - apply lobbyPlaying_reachable.
  - vm_compute. reflexivity.
Defined.

(** X2. Matchmaking is first-fit over the rooms in the order they were
    created: [findAvailableRoom] answers with the oldest room that has a
    single occupant, every older room being full, and it finds none exactly
    when no room of the server has a single occupant. *)
Theorem matchmaking_first_fit (l : ServerRooms.Lobby) :
  ServerRooms.reachable l ->
  (forall rid,
     ServerRooms.findAvailableRoom (ServerJs.rooms (ServerRooms.lobbyServer l))
       (ServerRooms.roomOrder l) = Some rid ->
     exists older newer room,
       ServerRooms.roomOrder l = older ++ rid :: newer /\
       ServerJs.rooms (ServerRooms.lobbyServer l) !! rid = Some room /\
       length (ServerJs.players room) = 1%nat /\
       forall r, r ∈ older ->
         exists full, ServerJs.rooms (ServerRooms.lobbyServer l) !! r = Some full /\
                      length (ServerJs.players full) = 2%nat) /\
  (ServerRooms.findAvailableRoom (ServerJs.rooms (ServerRooms.lobbyServer l))
     (ServerRooms.roomOrder l) = None <->
   forall rid room,
     ServerJs.rooms (ServerRooms.lobbyServer l) !! rid = Some room ->
     length (ServerJs.players room) ≠ 1%nat).
Proof.
  intros [Hsize [Hnd Horder]]%reachable_lobbyOk. split.
  - intros rid (older & newer & room & Heq & Hroom & Hone & Holder)%findAvailableRoom_Some.
    exists older, newer, room. repeat split; try done.
    intros r Hr.
    assert (r ∈ ServerRooms.roomOrder l) as Hin by (rewrite Heq, elem_of_app; by left).
    destruct (proj1 (Horder r) Hin) as [full Hfull]. exists full. split; [done|].
    destruct (Hsize _ _ Hfull) as [Hlen _]. specialize (Holder _ _ Hr Hfull). lia.
  - rewrite findAvailableRoom_None. split.
    + intros H rid room Hroom. eapply H; [|done]. apply Horder. eauto.
    + intros H rid room _. apply H.
Qed.

Lemma matchmaking_first_fit_witness :
  ServerRooms.findAvailableRoom (ServerJs.rooms (ServerRooms.lobbyServer lobbyPlaying))
    (ServerRooms.roomOrder lobbyPlaying) = None <->
  forall rid room,
    ServerJs.rooms (ServerRooms.lobbyServer lobbyPlaying) !! rid = Some room ->
    length (ServerJs.players room) ≠ 1%nat.
Proof.
  exact (proj2 (matchmaking_first_fit lobbyPlaying lobbyPlaying_reachable)).
Defined.

(** X3. [findOrCreateRoom] always seats the sender in a room with a fresh
    game: alone, as X, in a room created under the new id, or as O behind the
    single occupant of the room that was found. *)
Theorem find_or_create_seats_sender (l : ServerRooms.Lobby) (socketId stamp : string) :
  exists info room,
    ServerJs.registry (ServerRooms.lobbyServer
                         (fst (ServerRooms.onFindOrCreateRoom l socketId stamp))) !! socketId
    = Some info /\
    ServerJs.rooms (ServerRooms.lobbyServer
                      (fst (ServerRooms.onFindOrCreateRoom l socketId stamp)))
      !! ServerJs.roomId info = Some room /\
    ServerJs.gameState room = ServerJs.createInitialGameState /\
    ((ServerJs.playerId info = PLAYER_X /\ ServerJs.players room = [socketId] /\
      ServerJs.roomId info = ServerRooms.newRoomId stamp) \/
     (ServerJs.playerId info = PLAYER_O /\
      exists waiting old,
        waiting ≠ socketId /\ ServerJs.players room = [waiting; socketId] /\
        ServerJs.rooms (ServerRooms.lobbyServer l) !! ServerJs.roomId info = Some old /\
        ServerJs.players old = [waiting] /\
        ServerRooms.findAvailableRoom (ServerJs.rooms (ServerRooms.lobbyServer l))
          (ServerRooms.roomOrder l) = Some (ServerJs.roomId info))).
Proof.
  assert (exists info room,
    ServerJs.registry (ServerRooms.lobbyServer
                         (fst (ServerRooms.createRoomFor l socketId stamp))) !! socketId
    = Some info /\
    ServerJs.rooms (ServerRooms.lobbyServer
                      (fst (ServerRooms.createRoomFor l socketId stamp)))
      !! ServerJs.roomId info = Some room /\
    ServerJs.gameState room = ServerJs.createInitialGameState /\
    ServerJs.playerId info = PLAYER_X /\ ServerJs.players room = [socketId] /\
    ServerJs.roomId info = ServerRooms.newRoomId stamp) as Hcreate.
  { eexists _, _. simpl. rewrite lookup_insert_eq. split; [done|]. simpl.
    rewrite lookup_insert_eq. done. }
  assert (forall P Q : ServerJs.PlayerInfo -> ServerJs.Room -> Prop,
            (exists info room, P info room) ->
            (forall info room, P info room -> Q info room) ->
            exists info room, Q info room) as Hweaken.
  { intros P Q (info & room & HP) HPQ. eauto. }
  unfold ServerRooms.onFindOrCreateRoom.
  destruct (ServerRooms.findAvailableRoom _ _) as [rid|] eqn:Hfind;
    [|destruct Hcreate as (info & room & ? & ? & ? & ?); exists info, room; tauto].
  destruct (String.eqb rid "");
    [destruct Hcreate as (info & room & ? & ? & ? & ?); exists info, room; tauto|].
  destruct (findAvailableRoom_Some _ _ _ Hfind) as (_ & _ & old & _ & Hold & Hone & _).
  rewrite Hold.
  destruct (ServerJs.players old) as [|waiting [|]] eqn:Hplayers; try discriminate.
  rewrite bool_decide_eq_true_2 by (simpl; lia). simpl.
  case_bool_decide as Hin; simpl;
    [destruct Hcreate as (info & room & ? & ? & ? & ?); exists info, room; tauto|].
  eexists _, _. rewrite lookup_insert_eq. split; [done|]. simpl.
  rewrite lookup_insert_eq. split; [done|]. split; [done|]. right. split; [done|].
  exists waiting, old. repeat split; try done.
  intros ->. apply Hin. by left.
Qed.

(** X4. A room that is refilled after its creator has left has no first
    player: the joiner is made O whatever the waiting occupant is, so when
    the waiting occupant is registered as O both occupants are O, the game is
    reset with X to move, and every [makeMove] of either is refused with
    [Not your turn]. *)
Theorem refilled_room_has_two_seconds (l : ServerRooms.Lobby)
    (socketId stamp rid waiting : string) (g : ServerJs.GameState) :
  ServerRooms.findAvailableRoom (ServerJs.rooms (ServerRooms.lobbyServer l))
    (ServerRooms.roomOrder l) = Some rid ->
  rid ≠ "" ->
  ServerJs.rooms (ServerRooms.lobbyServer l) !! rid = Some (ServerJs.mkRoom [waiting] g) ->
  ServerJs.registry (ServerRooms.lobbyServer l) !! waiting
  = Some (ServerJs.mkPlayerInfo rid PLAYER_O) ->
  socketId ≠ waiting ->
  let st := ServerRooms.lobbyServer (fst (ServerRooms.onFindOrCreateRoom l socketId stamp)) in
  ServerJs.registry st !! waiting = Some (ServerJs.mkPlayerInfo rid PLAYER_O) /\
  ServerJs.registry st !! socketId = Some (ServerJs.mkPlayerInfo rid PLAYER_O) /\
  ServerJs.rooms st !! rid
  = Some (ServerJs.mkRoom [waiting; socketId] ServerJs.createInitialGameState) /\
  forall sender data,
    sender = waiting \/ sender = socketId ->
    ServerJs.onMakeMove st sender data
    = (st, [ServerJs.SocketEmit sender (ServerJs.EvError "Not your turn")]).
Proof.
  intros Hfind Hrid Hroom Hwaiting Hne st.
  assert (st = ServerJs.mkServer
            (<[rid := ServerJs.mkRoom [waiting; socketId] ServerJs.createInitialGameState]>
               (ServerJs.rooms (ServerRooms.lobbyServer l)))
            (<[socketId := ServerJs.mkPlayerInfo rid PLAYER_O]>
               (ServerJs.registry (ServerRooms.lobbyServer l)))) as Hst.
  { unfold st, ServerRooms.onFindOrCreateRoom. rewrite Hfind.
    apply String.eqb_neq in Hrid. rewrite Hrid, Hroom. simpl.
    destruct (bool_decide (1 < 2)%nat) eqn:Hlt;
      [|apply bool_decide_eq_false in Hlt; lia].
    rewrite (bool_decide_eq_false_2 (socketId ∈ [waiting])); [done|].
    intros ->%list_elem_of_singleton. done. }
  assert (ServerJs.registry st !! waiting = Some (ServerJs.mkPlayerInfo rid PLAYER_O)) as Hw
    by (rewrite Hst; simpl; by rewrite lookup_insert_ne).
  assert (ServerJs.registry st !! socketId = Some (ServerJs.mkPlayerInfo rid PLAYER_O)) as Hs
    by (rewrite Hst; simpl; by rewrite lookup_insert_eq).
  assert (ServerJs.rooms st !! rid
          = Some (ServerJs.mkRoom [waiting; socketId] ServerJs.createInitialGameState))
    as Hr by (rewrite Hst; simpl; by rewrite lookup_insert_eq).
  repeat split; try done.
  intros sender data Hsender. unfold ServerJs.onMakeMove.
  destruct Hsender as [-> | ->]; [rewrite Hw | rewrite Hs]; simpl; by rewrite Hr.
Qed.

Lemma refilled_room_has_two_seconds_witness :
  ServerJs.onMakeMove
    (ServerRooms.lobbyServer (fst (ServerRooms.onFindOrCreateRoom lobbyAbandoned "s3" "3")))
    "s2" (placeMsg Rook 0)
  = (ServerRooms.lobbyServer (fst (ServerRooms.onFindOrCreateRoom lobbyAbandoned "s3" "3")),
     [ServerJs.SocketEmit "s2" (ServerJs.EvError "Not your turn")]).
Proof.
  refine (proj2 (proj2 (proj2
    (refilled_room_has_two_seconds lobbyAbandoned "s3" "3" "room_1" "s2"
       (ServerJs.mkGameState emptyBoard initialPools PLAYER_X true (Some PLAYER_O))
       _ _ _ _ _))) "s2" (placeMsg Rook 0) _).
  - vm_compute. reflexivity.
  - discriminate.
  - vm_compute. reflexivity.
  - vm_compute. reflexivity.
  - discriminate.
  - by left.
Defined.

(** The room of a registered connection after its [disconnect], and every
    other room. *)
Lemma onDisconnect_rooms_other (st : ServerJs.Server) (socketId rid : string) :
  (forall info room,
     ServerJs.registry st !! socketId = Some info ->
     ServerJs.rooms st !! ServerJs.roomId info = Some room -> rid ≠ ServerJs.roomId info) ->
  ServerJs.rooms (fst (ServerJs.onDisconnect st socketId)) !! rid = ServerJs.rooms st !! rid.
Proof.
  intros Hother.
  destruct (onDisconnect_rooms st socketId rid) as [Heq|(info & room & Hinfo & -> & Hroom & _)];
    [done|].
  by destruct (Hother info room Hinfo Hroom).
Qed.

Lemma onDisconnect_rooms_own (st : ServerJs.Server) (socketId : string)
    (info : ServerJs.PlayerInfo) (room : ServerJs.Room) :
  ServerJs.registry st !! socketId = Some info ->
  ServerJs.rooms st !! ServerJs.roomId info = Some room ->
  let rest := filter (fun id => id ≠ socketId) (ServerJs.players room) in
  (rest = [] /\
   ServerJs.rooms (fst (ServerJs.onDisconnect st socketId)) !! ServerJs.roomId info = None) \/
  (rest ≠ [] /\ exists g,
     ServerJs.rooms (fst (ServerJs.onDisconnect st socketId)) !! ServerJs.roomId info
     = Some (ServerJs.mkRoom rest g)).
Proof.
  intros Hinfo Hroom. unfold ServerJs.onDisconnect. rewrite Hinfo, Hroom.
  destruct (filter _ (ServerJs.players room)) as [|remaining rest'] eqn:Hfilter; simpl.
  - left. split; [done|]. by rewrite lookup_delete_eq.
  - right. split; [done|].
    destruct (bool_decide _); [destruct (ServerJs.registry st !! remaining);
      [destruct (negb _)|]|]; simpl; rewrite lookup_insert_eq; eauto.
Qed.

Lemma createRoomFor_seats (l : ServerRooms.Lobby) (socketId stamp : string) :
  seatsMatchRegistry l ->
  ServerJs.registry (ServerRooms.lobbyServer l) !! socketId = None ->
  ServerJs.rooms (ServerRooms.lobbyServer l) !! ServerRooms.newRoomId stamp = None ->
  seatsMatchRegistry (fst (ServerRooms.createRoomFor l socketId stamp)).
Proof.
  intros [Hseat Hreg] Hnew Hfresh. split; simpl.
  - intros rid room s. rewrite lookup_insert. case_decide as Hrid.
    + intros [= <-]. simpl. intros ->%list_elem_of_singleton.
      rewrite lookup_insert_eq. subst. eauto.
    + intros Hroom Hs. destruct (Hseat _ _ _ Hroom Hs) as [side Hside].
      exists side. rewrite lookup_insert_ne; [done|]. congruence.
  - intros s info. rewrite lookup_insert. case_decide as Hs.
    + intros [= <-]. simpl. rewrite lookup_insert_eq. eexists. split; [done|].
      subst. by left.
    + intros Hinfo. destruct (Hreg _ _ Hinfo) as (room & Hroom & Hin).
      exists room. split; [|done]. rewrite lookup_insert_ne; [done|]. congruence.
Qed.

Lemma joinRoom_seats (l : ServerRooms.Lobby) (socketId rid : string) (room : ServerJs.Room)
    (g : ServerJs.GameState) (side : Player) :
  seatsMatchRegistry l ->
  ServerJs.registry (ServerRooms.lobbyServer l) !! socketId = None ->
  ServerJs.rooms (ServerRooms.lobbyServer l) !! rid = Some room ->
  seatsMatchRegistry
    (ServerRooms.mkLobby
       (ServerJs.mkServer
          (<[rid := ServerJs.mkRoom (ServerJs.players room ++ [socketId]) g]>
             (ServerJs.rooms (ServerRooms.lobbyServer l)))
          (<[socketId := ServerJs.mkPlayerInfo rid side]>
             (ServerJs.registry (ServerRooms.lobbyServer l))))
       (ServerRooms.roomOrder l)).
Proof.
  intros [Hseat Hreg] Hnew Hroom. split; simpl.
  - intros rid' room' s. rewrite lookup_insert. case_decide as Hrid.
    + intros [= <-]. simpl. subst rid'.
      intros [Hs | ->%list_elem_of_singleton]%elem_of_app.
      * destruct (Hseat _ _ _ Hroom Hs) as [side' Hside]. exists side'.
        rewrite lookup_insert_ne; [done|]. congruence.
      * rewrite lookup_insert_eq. eauto.
    + intros Hroom' Hs. destruct (Hseat _ _ _ Hroom' Hs) as [side' Hside]. exists side'.
      rewrite lookup_insert_ne; [done|]. congruence.
  - intros s info. rewrite lookup_insert. case_decide as Hs.
    + intros [= <-]. simpl. rewrite lookup_insert_eq. eexists. split; [done|].
      simpl. subst. apply elem_of_app. right. by left.
    + intros Hinfo. destruct (Hreg _ _ Hinfo) as (room' & Hroom' & Hin).
      rewrite lookup_insert. case_decide as Hrid.
      * eexists. split; [done|]. simpl. rewrite Hrid in Hroom.
        apply elem_of_app. left. congruence.
      * eauto.
Qed.

Lemma onFindOrCreateRoom_seats (l : ServerRooms.Lobby) (socketId stamp : string) :
  seatsMatchRegistry l ->
  ServerJs.registry (ServerRooms.lobbyServer l) !! socketId = None ->
  ServerJs.rooms (ServerRooms.lobbyServer l) !! ServerRooms.newRoomId stamp = None ->
  seatsMatchRegistry (fst (ServerRooms.onFindOrCreateRoom l socketId stamp)).
Proof.
  intros Hok Hnew Hfresh. unfold ServerRooms.onFindOrCreateRoom.
  destruct (ServerRooms.findAvailableRoom _ _) as [rid|]; [|by apply createRoomFor_seats].
  destruct (String.eqb rid ""); [by apply createRoomFor_seats|].
  destruct (ServerJs.rooms _ !! rid) as [room|] eqn:Hroom; [|done].
  destruct (_ && _); [|by apply createRoomFor_seats].
  by apply joinRoom_seats.
Qed.

Lemma onMakeMove_seats (l : ServerRooms.Lobby) (socketId : string) (data : ServerJs.MoveData) :
  seatsMatchRegistry l -> seatsMatchRegistry (fst (ServerRooms.onMakeMove l socketId data)).
Proof.
  intros [Hseat Hreg]. unfold ServerRooms.onMakeMove.
  pose proof (onMakeMove_rooms (ServerRooms.lobbyServer l) socketId) as Hrooms.
  pose proof (onMakeMove_registry (ServerRooms.lobbyServer l) socketId data) as Hregistry.
  destruct (ServerJs.onMakeMove _ _ _) as [st out] eqn:Hst.
  assert (st = fst (ServerJs.onMakeMove (ServerRooms.lobbyServer l) socketId data)) as ->
    by (by rewrite Hst).
  clear Hst. simpl in Hregistry. split; simpl; rewrite Hregistry.
  - intros rid room s Hroom Hs.
    destruct (Hrooms rid data) as [Heq|(info & room0 & g & _ & _ & Hroom0 & _ & Hnew)].
    + rewrite Heq in Hroom. by eapply Hseat.
    + rewrite Hnew in Hroom. injection Hroom as <-. by eapply Hseat.
  - intros s info Hinfo. destruct (Hreg _ _ Hinfo) as (room & Hroom & Hin).
    destruct (Hrooms (ServerJs.roomId info) data)
      as [Heq|(info' & room0 & g & _ & _ & Hroom0 & _ & Hnew)].
    + rewrite Heq. eauto.
    + rewrite Hnew. eexists. split; [done|]. simpl. congruence.
Qed.

Lemma onDisconnect_seats (l : ServerRooms.Lobby) (socketId : string) :
  seatsMatchRegistry l -> seatsMatchRegistry (fst (ServerRooms.onDisconnect l socketId)).
Proof.
  intros [Hseat Hreg]. unfold ServerRooms.onDisconnect.
  pose proof (onDisconnect_registry (ServerRooms.lobbyServer l) socketId) as Hregistry.
  pose proof (onDisconnect_rooms_other (ServerRooms.lobbyServer l) socketId) as Hother.
  pose proof (onDisconnect_rooms_own (ServerRooms.lobbyServer l) socketId) as Hown.
  destruct (ServerJs.onDisconnect _ _) as [st out] eqn:Hst.
  assert (st = fst (ServerJs.onDisconnect (ServerRooms.lobbyServer l) socketId)) as ->
    by (by rewrite Hst).
  clear Hst. simpl in Hregistry, Hother, Hown.
  (* the room the connection is registered for, if both exist *)
  assert (forall rid,
            (exists info room,
               ServerJs.registry (ServerRooms.lobbyServer l) !! socketId = Some info /\
               ServerJs.rooms (ServerRooms.lobbyServer l) !! rid = Some room /\
               rid = ServerJs.roomId info) \/
            (forall info room,
               ServerJs.registry (ServerRooms.lobbyServer l) !! socketId = Some info ->
               ServerJs.rooms (ServerRooms.lobbyServer l) !! ServerJs.roomId info = Some room ->
               rid ≠ ServerJs.roomId info)) as Hcases.
  { intros rid.
    destruct (ServerJs.registry (ServerRooms.lobbyServer l) !! socketId) as [info|];
      [|by right].
    destruct (decide (rid = ServerJs.roomId info)) as [->|Hne].
    - destruct (ServerJs.rooms (ServerRooms.lobbyServer l) !! ServerJs.roomId info)
        as [room|] eqn:Hroom.
      + left. eauto.
      + right. intros info' room' [= <-]. congruence.
    - right. by intros info' room' [= <-]. }
  split; simpl; rewrite Hregistry.
  - intros rid room' s Hroom' Hs.
    destruct (Hcases rid) as [(info & room & Hinfo & Hroom & ->)|Hno].
    + destruct (Hown info room Hinfo Hroom) as [[_ Hnone]|[_ (g & Hnew)]]; [congruence|].
      rewrite Hnew in Hroom'. injection Hroom' as <-. simpl in Hs.
      apply list_elem_of_filter in Hs as [Hne Hs].
      destruct (Hseat _ _ _ Hroom Hs) as [side Hside]. exists side.
      by rewrite lookup_delete_ne.
    + rewrite (Hother rid Hno) in Hroom'.
      destruct (Hseat _ _ _ Hroom' Hs) as [side Hside]. exists side.
      rewrite lookup_delete_ne; [done|]. intros <-.
      by apply (Hno _ _ Hside Hroom').
  - intros s info'. rewrite lookup_delete. case_decide as Hs; [done|].
    intros Hinfo'. destruct (Hreg _ _ Hinfo') as (room & Hroom & Hin).
    destruct (Hcases (ServerJs.roomId info')) as [(info & room0 & Hinfo & Hroom0 & Heq)|Hno].
    + rewrite Heq in Hroom. rewrite Heq.
      destruct (Hown info room Hinfo Hroom) as [[Hnil _]|[_ (g & Hnew)]].
      * exfalso. assert (s ∈ filter (fun id => id ≠ socketId) (ServerJs.players room))
          as Hf by (apply list_elem_of_filter; split; [congruence | done]).
        rewrite Hnil in Hf. by apply elem_of_nil in Hf.
      * rewrite Hnew. eexists. split; [done|]. simpl.
        apply list_elem_of_filter. split; [congruence | done].
    + rewrite (Hother _ Hno). eauto.
Qed.

Lemma autoJoinReachable_reachable (l : ServerRooms.Lobby) :
  ServerRooms.autoJoinReachable l -> ServerRooms.reachable l.
Proof.
  induction 1.
  - apply ServerRooms.reach_empty.
  - by apply ServerRooms.reach_find.
  - by apply ServerRooms.reach_move.
  - by apply ServerRooms.reach_disconnect.
Qed.

Lemma autoJoinReachable_seats (l : ServerRooms.Lobby) :
  ServerRooms.autoJoinReachable l -> seatsMatchRegistry l.
Proof.
  induction 1.
  - split; simpl.
    + intros rid room s. simpl. by rewrite lookup_empty.
    + intros s info. simpl. by rewrite lookup_empty.
  - by apply onFindOrCreateRoom_seats.
  - by apply onMakeMove_seats.
  - by apply onDisconnect_seats.
Qed.

Lemma lobbyPlaying_autoJoin : ServerRooms.autoJoinReachable lobbyPlaying.
Proof.
  apply ServerRooms.auto_find; [apply ServerRooms.auto_find;
    [apply ServerRooms.auto_empty | |] | |]; vm_compute; reflexivity.
Qed.

(** X5. When every connection follows the client's automatic flow, seats and
    registry agree at all times: an occupant of a room is registered for that
    very room, a registered connection sits in the room it is registered for,
    and so no connection sits in two rooms. *)
Theorem auto_join_seats_match_registry (l : ServerRooms.Lobby) :
  ServerRooms.autoJoinReachable l ->
  seatsMatchRegistry l /\
  (forall rid rid' room room' s,
     ServerJs.rooms (ServerRooms.lobbyServer l) !! rid = Some room ->
     ServerJs.rooms (ServerRooms.lobbyServer l) !! rid' = Some room' ->
     s ∈ ServerJs.players room -> s ∈ ServerJs.players room' -> rid = rid').
Proof.
  intros Hseats%autoJoinReachable_seats. split; [done|].
  intros rid rid' room room' s Hroom Hroom' Hs Hs'.
  destruct Hseats as [Hseat _].
  destruct (Hseat _ _ _ Hroom Hs) as [side Hside].
  destruct (Hseat _ _ _ Hroom' Hs') as [side' Hside']. congruence.
Qed.

Lemma auto_join_seats_match_registry_witness : seatsMatchRegistry lobbyPlaying.
Proof.
  exact (proj1 (auto_join_seats_match_registry lobbyPlaying lobbyPlaying_autoJoin)).
Defined.

Lemma two_occupants (s : string) (l : list string) :
  length l = 2%nat -> NoDup l -> s ∈ l ->
  exists other, other ≠ s /\ (l = [s; other] \/ l = [other; s]).
Proof.
  destruct l as [|a [|b [|]]]; try discriminate. intros _ Hnd Hs.
  apply NoDup_cons in Hnd as [Hab _].
  assert (a ≠ b) as Hne by (intros ->; apply Hab; by left).
  apply elem_of_cons in Hs as [->|Hs].
  - exists b. split; [done | by left].
  - apply list_elem_of_singleton in Hs as ->. exists a. split; [done | by right].
Qed.

(** X6. In the automatic flow a disconnect from a room with two occupants and
    an unfinished game always ends the game in favour of the other occupant:
    the other occupant is a different connection, registered for the same
    room, and after the disconnect the room holds it alone, the game is over
    with its registered side as winner, and it is sent the notice and the
    final state. *)
Theorem auto_join_disconnect_awards_opponent (l : ServerRooms.Lobby) (socketId : string)
    (info : ServerJs.PlayerInfo) (room : ServerJs.Room) :
  ServerRooms.autoJoinReachable l ->
  ServerJs.registry (ServerRooms.lobbyServer l) !! socketId = Some info ->
  ServerJs.rooms (ServerRooms.lobbyServer l) !! ServerJs.roomId info = Some room ->
  length (ServerJs.players room) = 2%nat ->
  ServerJs.gameOver (ServerJs.gameState room) = false ->
  exists other side,
    other ≠ socketId /\ other ∈ ServerJs.players room /\
    ServerJs.registry (ServerRooms.lobbyServer l) !! other
    = Some (ServerJs.mkPlayerInfo (ServerJs.roomId info) side) /\
    let g := ServerJs.gameState room in
    let g' := ServerJs.mkGameState (ServerJs.board g) (ServerJs.pools g)
                (ServerJs.currentPlayer g) true (Some side) in
    ServerJs.rooms (ServerRooms.lobbyServer (fst (ServerRooms.onDisconnect l socketId)))
      !! ServerJs.roomId info = Some (ServerJs.mkRoom [other] g') /\
    snd (ServerRooms.onDisconnect l socketId)
    = [ ServerJs.IoTo other
          (ServerJs.EvPlayerDisconnected (ServerJs.playerId info) "opponent_disconnected");
        ServerJs.IoTo other (ServerJs.EvGameStateUpdate g');
        ServerJs.IoEmit
          (ServerJs.EvOnlineCount
             (size (delete socketId (ServerJs.registry (ServerRooms.lobbyServer l))))) ].
Proof.
  intros Hauto Hinfo Hroom Hlen Hover.
  pose proof (autoJoinReachable_seats _ Hauto) as [Hseat Hreg].
  pose proof (reachable_lobbyOk _ (autoJoinReachable_reachable _ Hauto)) as [Hsize _].
  destruct (Hreg _ _ Hinfo) as (room0 & Hroom0 & Hin).
  rewrite Hroom in Hroom0. injection Hroom0 as <-.
  destruct (Hsize _ _ Hroom) as [_ Hnd].
  destruct (two_occupants _ _ Hlen Hnd Hin) as (other & Hne & Hplayers).
  assert (other ∈ ServerJs.players room) as Hother
    by (destruct Hplayers as [-> | ->]; set_solver).
  destruct (Hseat _ _ _ Hroom Hother) as [side Hside].
  exists other, side. split; [done|]. split; [done|]. split; [done|].
  destruct (filter_two_occupants _ _ _ Hplayers Hne) as [_ Hfilter].
  unfold ServerRooms.onDisconnect, ServerJs.onDisconnect.
  rewrite Hinfo, Hroom, Hfilter, Hlen, Hside, Hover.
  rewrite bool_decide_eq_true_2 by done. simpl.
  by rewrite lookup_insert_eq.
Qed.

Lemma auto_join_disconnect_awards_opponent_witness :
  exists other side,
    other ≠ "s1" /\ other ∈ ["s1"; "s2"] /\
    ServerJs.registry (ServerRooms.lobbyServer lobbyPlaying) !! other
    = Some (ServerJs.mkPlayerInfo "room_1" side) /\
    ServerJs.rooms (ServerRooms.lobbyServer (fst (ServerRooms.onDisconnect lobbyPlaying "s1")))
      !! "room_1"
    = Some (ServerJs.mkRoom [other]
              (ServerJs.mkGameState emptyBoard initialPools PLAYER_X true (Some side))) /\
    snd (ServerRooms.onDisconnect lobbyPlaying "s1")
    = [ ServerJs.IoTo other (ServerJs.EvPlayerDisconnected PLAYER_X "opponent_disconnected");
        ServerJs.IoTo other
          (ServerJs.EvGameStateUpdate
             (ServerJs.mkGameState emptyBoard initialPools PLAYER_X true (Some side)));
        ServerJs.IoEmit
          (ServerJs.EvOnlineCount
             (size (delete "s1" (ServerJs.registry (ServerRooms.lobbyServer lobbyPlaying))))) ].
Proof.
  refine (auto_join_disconnect_awards_opponent lobbyPlaying "s1"
            (ServerJs.mkPlayerInfo "room_1" PLAYER_X)
            (ServerJs.mkRoom ["s1"; "s2"] ServerJs.createInitialGameState)
            lobbyPlaying_autoJoin _ _ _ _); vm_compute; reflexivity.
Defined.

(** X7. Rooms are isolated: a [makeMove] or a [disconnect] of a connection
    leaves every room other than the one it is registered for exactly as it
    was; a [makeMove] changes neither the registry nor the occupants of any
    room, and a [disconnect] takes the connection, and nothing else, out of
    the registry. *)
Theorem rooms_are_isolated (st : ServerJs.Server) (socketId rid : string)
    (data : ServerJs.MoveData) :
  (forall info, ServerJs.registry st !! socketId = Some info -> rid ≠ ServerJs.roomId info) ->
  ServerJs.rooms (fst (ServerJs.onMakeMove st socketId data)) !! rid = ServerJs.rooms st !! rid /\
  ServerJs.rooms (fst (ServerJs.onDisconnect st socketId)) !! rid = ServerJs.rooms st !! rid /\
  ServerJs.registry (fst (ServerJs.onMakeMove st socketId data)) = ServerJs.registry st /\
  ServerJs.registry (fst (ServerJs.onDisconnect st socketId))
  = delete socketId (ServerJs.registry st) /\
  (forall r, ServerJs.players <$> ServerJs.rooms (fst (ServerJs.onMakeMove st socketId data)) !! r
             = ServerJs.players <$> ServerJs.rooms st !! r).
Proof.
  intros Hother. repeat split.
  - destruct (onMakeMove_rooms st socketId rid data)
      as [Heq|(info & room & g & Hinfo & -> & _)]; [done|].
    by destruct (Hother info Hinfo).
  - apply onDisconnect_rooms_other. intros info room Hinfo _. by apply Hother.
  - apply onMakeMove_registry.
  - apply onDisconnect_registry.
  - intros r. destruct (onMakeMove_rooms st socketId r data)
      as [Heq|(info & room & g & _ & _ & Hroom & _ & Hnew)]; [by rewrite Heq|].
    by rewrite Hnew, Hroom.
Qed.

Lemma rooms_are_isolated_witness :
  ServerJs.rooms twoRoomServer !! "room_2"
  = Some (ServerJs.mkRoom ["s3"] ServerJs.createInitialGameState) /\
  ServerJs.rooms (fst (ServerJs.onMakeMove twoRoomServer "s1" (placeMsg Rook 5))) !! "room_2"
  = ServerJs.rooms twoRoomServer !! "room_2" /\
  ServerJs.rooms (fst (ServerJs.onDisconnect twoRoomServer "s1")) !! "room_2"
  = ServerJs.rooms twoRoomServer !! "room_2".
Proof.
  split; [reflexivity|].
  assert (forall info, ServerJs.registry twoRoomServer !! "s1" = Some info ->
                       "room_2" ≠ ServerJs.roomId info) as Hother.
  { intros info Hinfo. vm_compute in Hinfo. injection Hinfo as <-. discriminate. }
  split.
  - exact (proj1 (rooms_are_isolated twoRoomServer "s1" "room_2" (placeMsg Rook 5) Hother)).
  - exact (proj1 (proj2 (rooms_are_isolated twoRoomServer "s1" "room_2" (placeMsg Rook 5)
                           Hother))).
Defined.

(** * Coordinates and geometry *)

(** X8. On the board, cell indices and (row, column) pairs convert back and
    forth without loss: each of the sixteen indices gives a row and a column
    between 0 and 3 from which [rowColToIndex] recovers it, and each row and
    column between 0 and 3 give one of the sixteen indices, from which
    [indexToRowCol] recovers both. *)
Theorem index_row_col_round_trip :
  (forall index, 0 <= index < Z.of_nat BOARD_CELLS ->
     0 <= fst (indexToRowCol index) < BOARD_SIZE /\
     0 <= snd (indexToRowCol index) < BOARD_SIZE /\
     rowColToIndex (fst (indexToRowCol index)) (snd (indexToRowCol index)) = index) /\
  (forall row col, 0 <= row < BOARD_SIZE -> 0 <= col < BOARD_SIZE ->
     0 <= rowColToIndex row col < Z.of_nat BOARD_CELLS /\
     indexToRowCol (rowColToIndex row col) = (row, col)).
Proof.
  unfold indexToRowCol, rowColToIndex, BOARD_SIZE, BOARD_CELLS. split.
  - intros index Hindex. simpl. rewrite Z.rem_mod_nonneg by lia.
    pose proof (Z.div_mod index 4 ltac:(lia)).
    pose proof (Z.mod_pos_bound index 4 ltac:(lia)).
    repeat split; lia.
  - intros row col Hrow Hcol. split; [lia|]. f_equal.
    + symmetry. apply (Z.div_unique _ _ _ col); lia.
    + rewrite Z.rem_mod_nonneg by lia.
      symmetry. apply (Z.mod_unique _ _ row); lia.
Qed.

Lemma pathLength_sym (fr fc tr tc : Z) : pathLength tr tc fr fc = pathLength fr fc tr tc.
Proof. unfold pathLength. lia. Qed.

Lemma step_back (f t len k : Z) :
  t = f \/ Z.abs (t - f) = len ->
  t + k * Z.sgn (f - t) = f + (len - k) * Z.sgn (t - f).
Proof.
  intros [->|Hlen].
  - rewrite Z.sub_diag. simpl. lia.
  - destruct (Z.sgn_spec (t - f)) as [[? ->]|[[? ->]|[? ->]]],
      (Z.sgn_spec (f - t)) as [[? ->]|[[? ->]|[? ->]]]; lia.
Qed.

Lemma pathClear_sym (b : Board) (fr fc tr tc : Z) :
  (tr = fr \/ Z.abs (tr - fr) = pathLength fr fc tr tc) ->
  (tc = fc \/ Z.abs (tc - fc) = pathLength fr fc tr tc) ->
  pathClear b fr fc tr tc -> pathClear b tr tc fr fc.
Proof.
  intros Hr Hc Hclear k Hk. rewrite pathLength_sym in Hk.
  specialize (Hclear (pathLength fr fc tr tc - k) ltac:(lia)).
  unfold pathCell in *.
  by rewrite (step_back fr tr _ k Hr), (step_back fc tc _ k Hc).
Qed.

Lemma bool_eq_iff (a b : bool) : (a = true <-> b = true) -> a = b.
Proof. destruct a, b; intuition congruence. Qed.

(** X9. Rook, bishop and knight moves can be taken back: on any board the
    geometry check of each accepts a move from one square to another exactly
    when it accepts the move the other way. *)
Theorem sliding_and_knight_moves_reverse (b : Board) (fr fc tr tc : Z) :
  isLegalRookMove b fr fc tr tc = isLegalRookMove b tr tc fr fc /\
  isLegalBishopMove b fr fc tr tc = isLegalBishopMove b tr tc fr fc /\
  isLegalKnightMove (tr - fr) (tc - fc) = isLegalKnightMove (fr - tr) (fc - tc).
Proof.
  assert (forall fr fc tr tc,
            isLegalRookMove b fr fc tr tc = true -> isLegalRookMove b tr tc fr fc = true)
    as Hrook.
  { intros r1 c1 r2 c2. rewrite !isLegalRookMove_spec. intros [Haligned Hclear].
    split; [destruct Haligned; [by left | by right]|].
    apply pathClear_sym; [| |done]; unfold pathLength; lia. }
  assert (forall fr fc tr tc,
            isLegalBishopMove b fr fc tr tc = true -> isLegalBishopMove b tr tc fr fc = true)
    as Hbishop.
  { intros r1 c1 r2 c2. rewrite !isLegalBishopMove_spec. intros [[Habs Hne] Hclear].
    split; [split; lia|].
    apply pathClear_sym; [| |done]; unfold pathLength; lia. }
  split; [|split].
  - apply bool_eq_iff. split; apply Hrook.
  - apply bool_eq_iff. split; apply Hbishop.
  - unfold isLegalKnightMove.
    by replace (Z.abs (fr - tr)) with (Z.abs (tr - fr)) by lia;
       replace (Z.abs (fc - tc)) with (Z.abs (tc - fc)) by lia.
Qed.

(** * Bounds of the search *)

Lemma maxLoop_upper (child : GameJs.Action -> Z -> Z -> option Z) (high : Z)
    (actions : list GameJs.Action) :
  (forall a alpha beta score, child a alpha beta = Some score -> score <= high) ->
  forall best alpha beta v,
    best <= high -> GameJs.maxLoop child actions best alpha beta = Some v -> v <= high.
Proof.
  intros Hchild. induction actions as [|a rest IH]; intros best alpha beta v Hbest; simpl.
  - by intros [= <-].
  - destruct (child a alpha beta) as [score|] eqn:Hscore; [|discriminate].
    apply Hchild in Hscore.
    destruct (beta <=? Z.max alpha score).
    + intros [= <-]. lia.
    + apply IH. lia.
Qed.

Lemma minLoop_le_best (child : GameJs.Action -> Z -> Z -> option Z)
    (actions : list GameJs.Action) (best alpha beta v : Z) :
  GameJs.minLoop child actions best alpha beta = Some v -> v <= best.
Proof.
  revert best beta. induction actions as [|a rest IH]; intros best beta; simpl.
  - intros [= <-]. lia.
  - destruct (child a alpha beta) as [score|]; [|discriminate].
    destruct (Z.min beta score <=? alpha).
    + intros [= <-]. lia.
    + intros H%IH. lia.
Qed.

Lemma minLoop_le_first (child : GameJs.Action -> Z -> Z -> option Z)
    (a : GameJs.Action) (rest : list GameJs.Action) (best alpha beta v : Z) :
  GameJs.minLoop child (a :: rest) best alpha beta = Some v ->
  exists score, child a alpha beta = Some score /\ v <= score.
Proof.
  simpl. destruct (child a alpha beta) as [score|]; [|discriminate].
  intros H. exists score. split; [done|].
  destruct (Z.min beta score <=? alpha).
  - injection H as <-. lia.
  - apply minLoop_le_best in H. lia.
Qed.

Lemma minimaxFuel_upper (fuel : nat) :
  forall (b : Board) (p : Pools) (depth : Z) (isMaximizing : bool) (alpha beta v : Z),
    0 <= depth <= 100 ->
    GameJs.minimaxFuel fuel b p depth isMaximizing alpha beta = Some v ->
    v <= 100 - depth.
Proof.
  induction fuel as [|fuel IH]; intros b p depth isMaximizing alpha beta v Hdepth;
    rewrite minimaxFuel_unfold;
    unfold GameJs.MINIMAX_WIN, GameJs.MINIMAX_LOSS, GameJs.MINIMAX_DRAW, GameJs.MAX_DEPTH;
    (destruct (checkWinner b) as [[]|]; [intros [= <-]; lia | intros [= <-]; lia |]);
    (destruct (isBoardFull b); [intros [= <-]; lia|]);
    (destruct (Z.geb_spec depth 2) as [Hge|Hlt]; [intros [= <-]; lia|]);
    (destruct (GameJs.getAllActions b p _) as [|a rest]; [intros [= <-]; lia|]);
    [discriminate|].
  destruct isMaximizing.
  - apply maxLoop_upper; [|lia].
    intros a' alpha' beta' score.
    destruct (GameJs.applyAction b p PLAYER_O a') as [b2 p2].
    intros Hscore. apply IH in Hscore; lia.
  - intros (score & Hscore & Hle)%minLoop_le_first.
    destruct (GameJs.applyAction b p PLAYER_X a) as [b2 p2].
    apply IH in Hscore; lia.
Qed.

(** X10. From any position, with any window, the score of the search at a
    depth between 0 and 100 lies between [MINIMAX_LOSS + depth] and
    [MINIMAX_WIN - depth]; from depth 0 it lies between -100 and 100. *)
Theorem minimax_score_bounds (b : Board) (p : Pools) (depth : Z) (isMaximizing : bool)
    (alpha beta : Z) :
  0 <= depth <= 100 ->
  GameJs.MINIMAX_LOSS + depth <= GameJs.minimax b p depth isMaximizing alpha beta
  <= GameJs.MINIMAX_WIN - depth.
Proof.
  intros Hdepth.
  pose proof (minimax_minimaxFuel b p depth isMaximizing alpha beta) as Hm.
  pose proof (minimaxFuel_lower _ _ _ _ _ _ _ _ Hdepth Hm).
  pose proof (minimaxFuel_upper _ _ _ _ _ _ _ _ Hdepth Hm).
  unfold GameJs.MINIMAX_LOSS, GameJs.MINIMAX_WIN. lia.
Qed.

Lemma minimax_score_bounds_witness :
  GameJs.MINIMAX_LOSS + 0
  <= GameJs.minimax emptyBoard initialPools 0 false GameJs.MINIMAX_LOSS GameJs.MINIMAX_WIN
  <= GameJs.MINIMAX_WIN - 0.
Proof.
  apply (minimax_score_bounds emptyBoard initialPools 0 false
           GameJs.MINIMAX_LOSS GameJs.MINIMAX_WIN).
  lia.
Defined.

(** * Turns and results *)

(** An accepted message came from the side to move in an unfinished game, and
    the new state is [checkEnd] of that game with a new board and new pools. *)
Lemma makeMoveOnGame_accepted (g g' : ServerJs.GameState) (side : Player)
    (data : ServerJs.MoveData) :
  ServerJs.makeMoveOnGame g side data = inr g' ->
  ServerJs.gameOver g = false /\ ServerJs.currentPlayer g = side /\
  exists b p,
    g' = ServerJs.checkEnd (ServerJs.mkGameState b p side false (ServerJs.winner g)).
Proof.
  unfold ServerJs.makeMoveOnGame.
  destruct (ServerJs.gameOver g) eqn:Hover; [discriminate|].
  case_bool_decide as Hturn; simpl; [|discriminate].
  intros H. split; [done|]. split; [done|]. revert H. rewrite Hturn.
  destruct (String.eqb _ "place").
  { destruct (notNull _); [discriminate|].
    destruct (indexOf _ _); [|discriminate]. intros [= <-]. eauto. }
  destruct (String.eqb _ "move").
  { destruct (bothPlayersHaveThree _); simpl; [|discriminate].
    destruct (arr_get _ _); try discriminate.
    destruct (negb _); [discriminate|].
    destruct (ownedBy _ _); [discriminate|].
    destruct (negb _); [discriminate|]. intros [= <-]. eauto. }
  intros [= <-]. exists (ServerJs.board g), (ServerJs.pools g).
  destruct g; simpl in *. by subst.
Qed.

Lemma checkEnd_result (s : ServerJs.GameState) :
  ServerJs.gameOver s = false -> ServerJs.winner s = None ->
  (ServerJs.gameOver (ServerJs.checkEnd s) = true <->
   detect (ServerJs.board (ServerJs.checkEnd s)) ≠ NoOutcome) /\
  (forall w, ServerJs.winner (ServerJs.checkEnd s) = Some w <->
             detect (ServerJs.board (ServerJs.checkEnd s)) = Winner w) /\
  (if ServerJs.gameOver (ServerJs.checkEnd s)
   then ServerJs.currentPlayer (ServerJs.checkEnd s) = ServerJs.currentPlayer s
   else ServerJs.currentPlayer (ServerJs.checkEnd s) = otherPlayer (ServerJs.currentPlayer s)).
Proof.
  intros Hover Hwinner. unfold ServerJs.checkEnd, detect.
  destruct (checkWinner (ServerJs.board s)) as [w|] eqn:Hw; simpl.
  - rewrite Hw. repeat split; try done. all: intros; congruence.
  - destruct (isBoardFull (ServerJs.board s)) eqn:Hfull; simpl; rewrite Hw, Hfull.
    + repeat split; try done. all: intros; congruence.
    + rewrite Hover, Hwinner. repeat split; try done. all: intros; congruence.
Qed.

Lemma resultStored_live (g : ServerJs.GameState) :
  resultStored g -> ServerJs.gameOver g = false ->
  ServerJs.winner g = None /\ detect (ServerJs.board g) = NoOutcome.
Proof.
  unfold resultStored. intros Hstored Hover.
  destruct (detect (ServerJs.board g)).
  - destruct Hstored as [[_ Hw]|[Hg _]]; [done|congruence].
  - destruct Hstored as [Hg _]. congruence.
  - destruct Hstored as [Hg _]. congruence.
Qed.

Lemma checkEnd_resultStored (s : ServerJs.GameState) :
  ServerJs.gameOver s = false -> ServerJs.winner s = None ->
  resultStored (ServerJs.checkEnd s).
Proof.
  intros Hover Hwinner. unfold resultStored, ServerJs.checkEnd, detect.
  destruct (checkWinner (ServerJs.board s)) as [w|] eqn:Hw; simpl.
  - by rewrite Hw.
  - destruct (isBoardFull (ServerJs.board s)) eqn:Hfull; simpl; rewrite Hw, Hfull.
    + done.
    + by left.
Qed.

Lemma server_result_inv (g : ServerJs.GameState) :
  ServerJs.reachable g -> resultStored g.
Proof.
  induction 1 as [|g side data g' _ IH Hstep|g remaining _ IH Hlive].
  - by left.
  - destruct (makeMoveOnGame_accepted _ _ _ _ Hstep) as (Hover & _ & b & p & ->).
    destruct (resultStored_live g IH Hover) as [-> _].
    by apply checkEnd_resultStored.
  - destruct (resultStored_live g IH Hlive) as [_ Hnone].
    unfold resultStored. simpl. rewrite Hnone. right. eauto.
Qed.

Lemma server_step_result (g g' : ServerJs.GameState) (side : Player)
    (data : ServerJs.MoveData) :
  ServerJs.reachable g -> ServerJs.makeMoveOnGame g side data = inr g' ->
  (ServerJs.gameOver g' = true <-> detect (ServerJs.board g') ≠ NoOutcome) /\
  (forall w, ServerJs.winner g' = Some w <-> detect (ServerJs.board g') = Winner w).
Proof.
  intros Hreach Hstep.
  destruct (makeMoveOnGame_accepted _ _ _ _ Hstep) as (Hover & _ & b & p & ->).
  destruct (resultStored_live g (server_result_inv g Hreach) Hover) as [-> _].
  destruct (checkEnd_result (ServerJs.mkGameState b p side false None) eq_refl eq_refl)
    as (? & ? & _).
  done.
Qed.

Lemma game_afterAction_result (s : GameJs.State) :
  GameJs.gameOver s = false ->
  (GameJs.gameOver (GameJs.afterAction s) = true <->
   detect (GameJs.board (GameJs.afterAction s)) ≠ NoOutcome) /\
  (if GameJs.gameOver (GameJs.afterAction s)
   then GameJs.currentPlayer (GameJs.afterAction s) = GameJs.currentPlayer s
   else GameJs.currentPlayer (GameJs.afterAction s) = otherPlayer (GameJs.currentPlayer s)).
Proof.
  intros Hover. unfold GameJs.afterAction, detect.
  destruct (checkWinner (GameJs.board s)) as [w|] eqn:Hw; simpl.
  - rewrite Hw. repeat split; try done.
  - destruct (isBoardFull (GameJs.board s)) eqn:Hfull; simpl; rewrite Hw, Hfull.
    + repeat split; try done.
    + rewrite Hover. repeat split; try done.
Qed.

(** What the two entry points of the local game do when they accept. *)
Lemma game_placePiece_cases (st : GameJs.State) (side : Player) (t : PieceType) (i : nat) :
  GameJs.placePiece st side t i = st \/
  (GameJs.gameOver st = false /\ side = GameJs.currentPlayer st /\
   arr_get (GameJs.board st) i = Null /\
   exists idx, indexOf t (getPool (GameJs.pools st) side) = Some idx /\
     GameJs.placePiece st side t i
     = GameJs.afterAction
         (GameJs.mkState (arr_set i (Occ (GameJs.newPiece side t)) (GameJs.board st))
            (setPool (GameJs.pools st) side (splice1 idx (getPool (GameJs.pools st) side)))
            (GameJs.currentPlayer st) false)).
Proof.
  unfold GameJs.placePiece.
  destruct (GameJs.gameOver st) eqn:Hover; [by left|].
  case_bool_decide as Hturn; simpl; [|by left].
  destruct (notNull _) eqn:Hcell; [by left|]. apply notNull_false in Hcell.
  destruct (indexOf _ _) as [idx|] eqn:Hidx; [|by left].
  right. eauto 10.
Qed.

Lemma game_tryMovePiece_cases (st : GameJs.State) (fromIndex toIndex : nat) :
  GameJs.tryMovePiece st fromIndex toIndex = (st, false) \/
  (GameJs.gameOver st = false /\ bothPlayersHaveThree (GameJs.board st) = true /\
   fromIndex ≠ toIndex /\
   exists fromCell,
     arr_get (GameJs.board st) fromIndex = Occ fromCell /\
     player fromCell = GameJs.currentPlayer st /\
     ownedBy (GameJs.currentPlayer st) (arr_get (GameJs.board st) toIndex) = false /\
     GameJs.isLegalMove (GameJs.board st) fromIndex toIndex fromCell = true /\
     GameJs.tryMovePiece st fromIndex toIndex
     = (GameJs.afterAction
          (GameJs.mkState (movePieceOnBoard (GameJs.board st) fromIndex toIndex fromCell)
             (capture (GameJs.pools st) (GameJs.currentPlayer st)
                (arr_get (GameJs.board st) toIndex))
             (GameJs.currentPlayer st) false),
        true)).
Proof.
  unfold GameJs.tryMovePiece, GameJs.canCurrentPlayerMovePieces.
  destruct (GameJs.gameOver st) eqn:Hover; [by left|].
  destruct (bothPlayersHaveThree _) eqn:Hthree; simpl; [|by left].
  destruct (arr_get _ fromIndex) as [| |fromCell] eqn:Hfrom; try (by left).
  case_bool_decide as Hown; simpl; [|by left].
  case_bool_decide as Hne; [by left|].
  destruct (ownedBy _ _) eqn:Hto; [by left|].
  destruct (GameJs.isLegalMove _ _ _ _) eqn:Hlegal; simpl; [|by left].
  right. repeat split; try done. exists fromCell. repeat split; done.
Qed.

Lemma game_result_inv (st : GameJs.State) :
  GameJs.reachable st ->
  (GameJs.gameOver st = true <-> detect (GameJs.board st) ≠ NoOutcome).
Proof.
  induction 1 as [|st side t i _ IH|st from to _ IH|st _ IH].
  - split; [discriminate|]. by vm_compute.
  - destruct (game_placePiece_cases st side t i) as [->|(_ & _ & _ & idx & _ & ->)]; [done|].
    by apply game_afterAction_result.
  - destruct (game_tryMovePiece_cases st from to)
      as [->|(_ & _ & _ & fromCell & _ & _ & _ & _ & ->)]; [done|]. simpl.
    by apply game_afterAction_result.
  - unfold GameJs.aiTakeTurn.
    destruct (GameJs.gameOver st) eqn:Hover; [by (simpl; rewrite ?Hover)|].
    destruct (negb _); [by (simpl; rewrite ?Hover)|].
    destruct (GameJs.getBestAiAction _ _) as [[i t|from to]|].
    + destruct (game_placePiece_cases st PLAYER_O t i)
        as [->|(_ & _ & _ & idx & _ & ->)]; [by (simpl; rewrite ?Hover)|].
      by apply game_afterAction_result.
    + destruct (game_tryMovePiece_cases st from to)
        as [->|(_ & _ & _ & fromCell & _ & _ & _ & _ & ->)]; [by (simpl; rewrite ?Hover)|]. simpl.
      by apply game_afterAction_result.
    + simpl. by (simpl; rewrite ?Hover).
Qed.

(** X12. Turns alternate strictly.  A message the server accepts came from
    the side to move in an unfinished game; a move or a placement the local
    game accepts was made in an unfinished game, the placement by the side to
    move; and after any of them either the game is over, with the side to
    move unchanged, or it is the other side's turn. *)
Theorem turns_alternate :
  (forall g side data g',
     ServerJs.makeMoveOnGame g side data = inr g' ->
     ServerJs.gameOver g = false /\ ServerJs.currentPlayer g = side /\
     (if ServerJs.gameOver g' then ServerJs.currentPlayer g' = side
      else ServerJs.currentPlayer g' = otherPlayer side)) /\
  (forall st fromIndex toIndex,
     snd (GameJs.tryMovePiece st fromIndex toIndex) = true ->
     GameJs.gameOver st = false /\
     (if GameJs.gameOver (fst (GameJs.tryMovePiece st fromIndex toIndex))
      then GameJs.currentPlayer (fst (GameJs.tryMovePiece st fromIndex toIndex))
           = GameJs.currentPlayer st
      else GameJs.currentPlayer (fst (GameJs.tryMovePiece st fromIndex toIndex))
           = otherPlayer (GameJs.currentPlayer st))) /\
  (forall st side t index,
     GameJs.placePiece st side t index ≠ st ->
     GameJs.gameOver st = false /\ side = GameJs.currentPlayer st /\
     (if GameJs.gameOver (GameJs.placePiece st side t index)
      then GameJs.currentPlayer (GameJs.placePiece st side t index) = side
      else GameJs.currentPlayer (GameJs.placePiece st side t index) = otherPlayer side)).
Proof.
  split; [|split].
  - intros g side data g' Hstep.
    destruct (makeMoveOnGame_accepted _ _ _ _ Hstep) as (Hover & Hturn & b & p & ->).
    split; [done|]. split; [done|].
    unfold ServerJs.checkEnd. simpl.
    destruct (checkWinner b); [done|]. by destruct (isBoardFull b).
  - intros st from to Hok.
    destruct (game_tryMovePiece_cases st from to)
      as [Hno|(Hover & _ & _ & fromCell & _ & _ & _ & _ & Hyes)].
    + rewrite Hno in Hok. discriminate.
    + split; [done|]. rewrite Hyes. simpl.
      by destruct (game_afterAction_result
                     (GameJs.mkState (movePieceOnBoard (GameJs.board st) from to fromCell)
                        (capture (GameJs.pools st) (GameJs.currentPlayer st)
                           (arr_get (GameJs.board st) to))
                        (GameJs.currentPlayer st) false) eq_refl) as [_ ?].
  - intros st side t i Hchanged.
    destruct (game_placePiece_cases st side t i) as [Hno|(Hover & Hturn & _ & idx & _ & Hyes)];
      [done|].
    split; [done|]. split; [done|]. rewrite Hyes, Hturn.
    by destruct (game_afterAction_result
                   (GameJs.mkState
                      (arr_set i (Occ (GameJs.newPiece (GameJs.currentPlayer st) t))
                         (GameJs.board st))
                      (setPool (GameJs.pools st) (GameJs.currentPlayer st)
                         (splice1 idx (getPool (GameJs.pools st) (GameJs.currentPlayer st))))
                      (GameJs.currentPlayer st) false) eq_refl) as [_ ?].
Qed.

(** * The AI's enumeration and the rules *)

Lemma indexOf_In (t : PieceType) (pool : list PieceType) :
  (exists idx, indexOf t pool = Some idx) <-> In t pool.
Proof.
  induction pool as [|x pool IH]; simpl.
  - split; [by intros [? ?] | done].
  - case_bool_decide as Hx.
    + split; [by left | eauto].
    + rewrite <- IH. destruct (indexOf t pool) as [i|]; simpl.
      * split; eauto.
      * split; [by intros [? ?] | intros [?|[? ?]]; done].
Qed.

Lemma in_placements (b : Board) (p : Pools) (side : Player) (a : GameJs.Action) :
  In a (GameJs.getAllLegalPlacementsFor b p side) <->
  exists i t, a = GameJs.APlace i t /\ (i < 16)%nat /\ arr_get b i = Null /\
              In t (getPool p side).
Proof.
  unfold GameJs.getAllLegalPlacementsFor.
  destruct (getPool p side) as [|t0 pool] eqn:Hpool.
  - split; [done|]. by intros (i & t & _ & _ & _ & ?).
  - rewrite in_flat_map. split.
    + intros (i & Hi%in_seq & Ha).
      destruct (notNull (arr_get b i)) eqn:Hcell; [done|]. apply notNull_false in Hcell.
      apply in_map_iff in Ha as (t & <- & Ht). exists i, t.
      unfold BOARD_CELLS in Hi. repeat split; try done. lia.
    + intros (i & t & -> & Hi & Hcell & Ht). exists i. split.
      * apply in_seq. unfold BOARD_CELLS. lia.
      * rewrite Hcell. cbn [notNull]. apply in_map_iff. eauto.
Qed.

Lemma in_moves (b : Board) (p : Pools) (side : Player) (a : GameJs.Action) :
  In a (GameJs.getAllLegalMovesFor b p side) <->
  exists i j cell,
    a = GameJs.AMove i j /\ (i < 16)%nat /\ (j < 16)%nat /\ i ≠ j /\
    arr_get b i = Occ cell /\ player cell = side /\
    ownedBy side (arr_get b j) = false /\
    GameJs.isLegalMoveOnBoard b i j cell = true.
Proof.
  unfold GameJs.getAllLegalMovesFor. rewrite in_flat_map. split.
  - intros (i & Hi%in_seq & Ha).
    destruct (arr_get b i) as [| |cell] eqn:Hcell; try done.
    destruct (bool_decide (player cell = side)) eqn:Hside; cbn [negb] in Ha; [|done].
    apply bool_decide_eq_true in Hside.
    apply in_flat_map in Ha as (j & Hj%in_seq & Ha).
    case_bool_decide as Hij; [done|].
    destruct (ownedBy _ _) eqn:Hown; [done|].
    destruct (GameJs.isLegalMoveOnBoard _ _ _ _) eqn:Hlegal; [|done].
    destruct Ha as [<-|[]]. exists i, j, cell.
    unfold BOARD_CELLS in *. repeat split; try done; lia.
  - intros (i & j & cell & -> & Hi & Hj & Hij & Hcell & Hside & Hown & Hlegal).
    exists i. split; [apply in_seq; unfold BOARD_CELLS; lia|].
    rewrite Hcell, (bool_decide_eq_true_2 _ Hside). cbn [negb].
    apply in_flat_map. exists j. split; [apply in_seq; unfold BOARD_CELLS; lia|].
    rewrite (bool_decide_eq_false_2 _ Hij), Hown, Hlegal. by left.
Qed.

Lemma in_getAllActions (b : Board) (p : Pools) (side : Player) (a : GameJs.Action) :
  In a (GameJs.getAllActions b p side) <->
  (exists i t, a = GameJs.APlace i t /\ (i < 16)%nat /\ arr_get b i = Null /\
               In t (getPool p side)) \/
  (bothPlayersHaveThree b = true /\
   exists i j cell,
     a = GameJs.AMove i j /\ (i < 16)%nat /\ (j < 16)%nat /\ i ≠ j /\
     arr_get b i = Occ cell /\ player cell = side /\
     ownedBy side (arr_get b j) = false /\
     GameJs.isLegalMoveOnBoard b i j cell = true).
Proof.
  unfold GameJs.getAllActions, GameJs.canPlayerMovePiecesFor, GameJs.bothPlayersHaveThreeFor.
  rewrite in_app_iff, in_placements.
  destruct (bothPlayersHaveThree b).
  - rewrite in_moves. tauto.
  - simpl. split; [tauto|]. intros [?|[? _]]; [by left | done].
Qed.

Lemma game_afterAction_board (s : GameJs.State) :
  GameJs.board (GameJs.afterAction s) = GameJs.board s.
Proof. apply game_afterAction_position. Qed.

Lemma game_placePiece_accepts (st : GameJs.State) (side : Player) (t : PieceType)
    (i idx : nat) :
  GameJs.gameOver st = false -> side = GameJs.currentPlayer st ->
  arr_get (GameJs.board st) i = Null ->
  indexOf t (getPool (GameJs.pools st) side) = Some idx ->
  GameJs.placePiece st side t i
  = GameJs.afterAction
      (GameJs.mkState (arr_set i (Occ (GameJs.newPiece side t)) (GameJs.board st))
         (setPool (GameJs.pools st) side (splice1 idx (getPool (GameJs.pools st) side)))
         (GameJs.currentPlayer st) false) /\
  GameJs.board (GameJs.placePiece st side t i) ≠ GameJs.board st.
Proof.
  intros Hover Hturn Hcell Hidx.
  assert (GameJs.placePiece st side t i
          = GameJs.afterAction
              (GameJs.mkState (arr_set i (Occ (GameJs.newPiece side t)) (GameJs.board st))
                 (setPool (GameJs.pools st) side
                    (splice1 idx (getPool (GameJs.pools st) side)))
                 (GameJs.currentPlayer st) false)) as Heq.
  { unfold GameJs.placePiece.
    rewrite Hover, (bool_decide_eq_true_2 _ Hturn), Hcell, Hidx. done. }
  split; [done|]. rewrite Heq, game_afterAction_board. simpl.
  intros Hb. apply (f_equal (fun b => arr_get b i)) in Hb.
  rewrite arr_get_set, bool_decide_eq_true_2, Hcell in Hb by done. discriminate.
Qed.

Lemma game_tryMovePiece_accepts (st : GameJs.State) (fromIndex toIndex : nat)
    (fromCell : Piece) :
  GameJs.gameOver st = false -> bothPlayersHaveThree (GameJs.board st) = true ->
  fromIndex ≠ toIndex ->
  arr_get (GameJs.board st) fromIndex = Occ fromCell ->
  player fromCell = GameJs.currentPlayer st ->
  ownedBy (GameJs.currentPlayer st) (arr_get (GameJs.board st) toIndex) = false ->
  GameJs.isLegalMove (GameJs.board st) fromIndex toIndex fromCell = true ->
  GameJs.tryMovePiece st fromIndex toIndex
  = (GameJs.afterAction
       (GameJs.mkState (movePieceOnBoard (GameJs.board st) fromIndex toIndex fromCell)
          (capture (GameJs.pools st) (GameJs.currentPlayer st)
             (arr_get (GameJs.board st) toIndex))
          (GameJs.currentPlayer st) false),
     true) /\
  GameJs.board (fst (GameJs.tryMovePiece st fromIndex toIndex)) ≠ GameJs.board st.
Proof.
  intros Hover Hthree Hne Hfrom Hown Hto Hlegal.
  assert (GameJs.tryMovePiece st fromIndex toIndex
          = (GameJs.afterAction
               (GameJs.mkState (movePieceOnBoard (GameJs.board st) fromIndex toIndex fromCell)
                  (capture (GameJs.pools st) (GameJs.currentPlayer st)
                     (arr_get (GameJs.board st) toIndex))
                  (GameJs.currentPlayer st) false),
             true)) as Heq.
  { unfold GameJs.tryMovePiece, GameJs.canCurrentPlayerMovePieces.
    rewrite Hover, Hthree, Hfrom, (bool_decide_eq_true_2 _ Hown),
      (bool_decide_eq_false_2 _ Hne), Hto, Hlegal. done. }
  split; [done|]. rewrite Heq. simpl. rewrite game_afterAction_board. simpl.
  intros Hb. apply (f_equal (fun b => arr_get b fromIndex)) in Hb.
  rewrite Hfrom in Hb.
  destruct (movePieceOnBoard_cells _ _ _ _ _ _ Hb) as [(_ & ? & _)|(_ & ? & _)]; done.
Qed.

(** X13. On the sixteen cells the AI's enumeration and the rules of the local
    game agree: in an unfinished game [getAllActions] lists a placement for
    the side to move exactly when [placePiece] accepts it, and a move exactly
    when [tryMovePiece] accepts it. *)
Theorem enumeration_matches_rules (st : GameJs.State) :
  GameJs.gameOver st = false ->
  (forall i t, (i < 16)%nat ->
     (In (GameJs.APlace i t)
         (GameJs.getAllActions (GameJs.board st) (GameJs.pools st) (GameJs.currentPlayer st))
      <-> GameJs.placePiece st (GameJs.currentPlayer st) t i ≠ st)) /\
  (forall i j, (i < 16)%nat -> (j < 16)%nat ->
     (In (GameJs.AMove i j)
         (GameJs.getAllActions (GameJs.board st) (GameJs.pools st) (GameJs.currentPlayer st))
      <-> snd (GameJs.tryMovePiece st i j) = true)).
Proof.
  intros Hover. split.
  - intros i t Hi. rewrite in_getAllActions. split.
    + intros [(i' & t' & [= <- <-] & _ & Hcell & [idx Hidx]%indexOf_In)
             |(_ & i' & j' & cell & [=] & _)].
      destruct (game_placePiece_accepts st _ t i idx Hover eq_refl Hcell Hidx) as [_ Hb].
      intros Heq. by rewrite Heq in Hb.
    + intros Hchanged.
      destruct (game_placePiece_cases st (GameJs.currentPlayer st) t i)
        as [Hno|(_ & _ & Hcell & idx & Hidx & _)]; [done|].
      left. exists i, t. repeat split; try done. apply indexOf_In. eauto.
  - intros i j Hi Hj. rewrite in_getAllActions. split.
    + intros [(i' & t' & [=] & _)
             |(Hthree & i' & j' & cell & [= <- <-] & _ & _ & Hij & Hcell & Hside & Hown & Hlegal)].
      destruct (game_tryMovePiece_accepts st i j cell Hover Hthree Hij Hcell Hside Hown Hlegal)
        as [-> _].
      done.
    + intros Hok.
      destruct (game_tryMovePiece_cases st i j)
        as [Hno|(_ & Hthree & Hij & cell & Hcell & Hside & Hown & Hlegal & _)].
      * rewrite Hno in Hok. discriminate.
      * right. split; [done|]. exists i, j, cell. repeat split; done.
Qed.

Lemma enumeration_matches_rules_witness :
  In (GameJs.APlace 5 Rook)
     (GameJs.getAllActions (GameJs.board GameJs.initGame) (GameJs.pools GameJs.initGame)
        (GameJs.currentPlayer GameJs.initGame))
  <-> GameJs.placePiece GameJs.initGame (GameJs.currentPlayer GameJs.initGame) Rook 5
      ≠ GameJs.initGame.
Proof.
  refine (proj1 (enumeration_matches_rules GameJs.initGame eq_refl) 5%nat Rook _).
  lia.
Defined.

(** X14. The search moves the pieces the way the game does: whenever
    [tryMovePiece] accepts a move, and whenever [placePiece] is called for
    the side to move on an empty cell of an unfinished game, the board and
    pools of the resulting state are those [applyMove] and [applyPlacement]
    compute on copies of the position. *)
Theorem search_steps_like_the_game (st : GameJs.State) :
  (forall i j,
     snd (GameJs.tryMovePiece st i j) = true ->
     (GameJs.board (fst (GameJs.tryMovePiece st i j)),
      GameJs.pools (fst (GameJs.tryMovePiece st i j)))
     = GameJs.applyAction (GameJs.board st) (GameJs.pools st) (GameJs.currentPlayer st)
         (GameJs.AMove i j)) /\
  (forall i t,
     GameJs.gameOver st = false -> arr_get (GameJs.board st) i = Null ->
     (GameJs.board (GameJs.placePiece st (GameJs.currentPlayer st) t i),
      GameJs.pools (GameJs.placePiece st (GameJs.currentPlayer st) t i))
     = GameJs.applyAction (GameJs.board st) (GameJs.pools st) (GameJs.currentPlayer st)
         (GameJs.APlace i t)).
Proof.
  unfold GameJs.applyAction. rewrite cloneBoard_id, clonePools_id. split.
  - intros i j Hok.
    destruct (game_tryMovePiece_cases st i j)
      as [Hno|(_ & _ & _ & cell & Hcell & Hside & _ & _ & ->)].
    + rewrite Hno in Hok. discriminate.
    + simpl. unfold GameJs.applyMove. rewrite Hcell, Hside.
      match goal with |- context [GameJs.afterAction ?s] =>
        destruct (game_afterAction_position s) as [-> ->] end.
      done.
  - intros i t Hover Hcell. unfold GameJs.applyPlacement.
    destruct (indexOf t (getPool (GameJs.pools st) (GameJs.currentPlayer st)))
      as [idx|] eqn:Hidx.
    + destruct (game_placePiece_accepts st _ t i idx Hover eq_refl Hcell Hidx) as [-> _].
      match goal with |- context [GameJs.afterAction ?s] =>
        destruct (game_afterAction_position s) as [-> ->] end.
      done.
    + unfold GameJs.placePiece.
      by rewrite Hover, bool_decide_eq_true_2, Hcell, Hidx.
Qed.

Lemma getBestAiAction_member (board : Board) (pools : Pools) (a : GameJs.Action) :
  GameJs.getBestAiAction board pools = Some a ->
  In a (GameJs.getAllActions board pools PLAYER_O).
Proof.
  unfold GameJs.getBestAiAction. rewrite cloneBoard_id, clonePools_id.
  destruct (GameJs.getAllActions board pools PLAYER_O) as [|a0 rest]; [discriminate|].
  intros [H|H]%bestActionLoop_member; [discriminate | done].
Qed.

Lemma getBestAiAction_finds (board : Board) (pools : Pools) :
  checkWinner board = None -> GameJs.getAllActions board pools PLAYER_O ≠ [] ->
  exists a, GameJs.getBestAiAction board pools = Some a.
Proof.
  intros Hnone Hsome. unfold GameJs.getBestAiAction.
  rewrite cloneBoard_id, clonePools_id.
  destruct (GameJs.getAllActions board pools PLAYER_O) as [|a rest] eqn:Hactions; [done|].
  simpl.
  pose proof (applyAction_no_x_win board pools a Hnone) as Hwin.
  rewrite Hactions in Hwin. specialize (Hwin (or_introl eq_refl)).
  destruct (GameJs.applyAction board pools PLAYER_O a) as [b2 p2]. simpl in Hwin.
  pose proof (root_score_above_loss b2 p2 Hwin) as Hscore.
  apply Z.gtb_gt in Hscore. rewrite Hscore.
  apply bestActionLoop_keeps.
Qed.

(** X15. The AI never stalls and never plays an action the rules refuse.
    When it is O's turn in an unfinished game, after [aiTakeTurn] the game is
    over or it is X's turn; and if no side has a line and [getAllActions]
    lists an action for O, the board has changed. *)
Theorem ai_turn_passes_the_move (st : GameJs.State) :
  GameJs.gameOver st = false -> GameJs.currentPlayer st = PLAYER_O ->
  (GameJs.gameOver (GameJs.aiTakeTurn st) = true \/
   GameJs.currentPlayer (GameJs.aiTakeTurn st) = PLAYER_X) /\
  (checkWinner (GameJs.board st) = None ->
   GameJs.getAllActions (GameJs.board st) (GameJs.pools st) PLAYER_O ≠ [] ->
   GameJs.board (GameJs.aiTakeTurn st) ≠ GameJs.board st).
Proof.
  intros Hover Hturn.
  assert (forall s, GameJs.gameOver s = false -> GameJs.currentPlayer s = PLAYER_O ->
            GameJs.gameOver (GameJs.afterAction s) = true \/
            GameJs.currentPlayer (GameJs.afterAction s) = PLAYER_X) as Hafter.
  { intros s Hs Ho. destruct (game_afterAction_result s Hs) as [_ Hnext].
    destruct (GameJs.gameOver (GameJs.afterAction s)); [by left|].
    right. by rewrite Hnext, Ho. }
  unfold GameJs.aiTakeTurn. rewrite Hover, Hturn. simpl.
  destruct (GameJs.getBestAiAction _ _) as [a|] eqn:Hbest.
  - apply getBestAiAction_member, in_getAllActions in Hbest.
    destruct Hbest as [(i & t & -> & _ & Hcell & [idx Hidx]%indexOf_In)
                      |(Hthree & i & j & cell & -> & _ & _ & Hij & Hcell & Hside
                        & Hown & Hlegal)].
    + destruct (game_placePiece_accepts st PLAYER_O t i idx Hover (eq_sym Hturn) Hcell Hidx)
        as [Heq Hboard].
      split; [|done]. rewrite Heq. by apply Hafter.
    + rewrite <- Hturn in Hside, Hown.
      destruct (game_tryMovePiece_accepts st i j cell Hover Hthree Hij Hcell Hside Hown Hlegal)
        as [Heq Hboard].
      split; [|done]. rewrite Heq. simpl. by apply Hafter.
  - split; [by right|]. intros Hnone Hsome.
    destruct (getBestAiAction_finds _ _ Hnone Hsome) as [a Ha]. congruence.
Qed.

Lemma ai_turn_passes_the_move_witness :
  GameJs.gameOver
    (GameJs.aiTakeTurn (GameJs.placePiece GameJs.initGame PLAYER_X Rook 0)) = true \/
  GameJs.currentPlayer
    (GameJs.aiTakeTurn (GameJs.placePiece GameJs.initGame PLAYER_X Rook 0)) = PLAYER_X.
Proof.
  refine (proj1 (ai_turn_passes_the_move
                   (GameJs.placePiece GameJs.initGame PLAYER_X Rook 0) _ _));
    reflexivity.
Defined.

(** * One piece of each kind *)

Lemma countIf_app {A : Type} (f : A -> bool) (l1 l2 : list A) :
  countIf f (l1 ++ l2) = (countIf f l1 + countIf f l2)%nat.
Proof. induction l1 as [|x l1 IH]; simpl; [done|]. rewrite IH. lia. Qed.

Lemma countIf_replicate_false {A : Type} (f : A -> bool) (x : A) (n : nat) :
  f x = false -> countIf f (replicate n x) = 0%nat.
Proof. intros Hx. induction n as [|n IH]; simpl; [done|]. by rewrite Hx, IH. Qed.

Lemma countIf_arr_set (f : Slot Piece -> bool) (b : Board) (i : nat) (v : Slot Piece) :
  f Hole = false ->
  (countIf f (arr_set i v b) + (if f (arr_get b i) then 1 else 0)
   = countIf f b + (if f v then 1 else 0))%nat.
Proof.
  intros Hhole. unfold arr_set. case_bool_decide as Hlt.
  - revert i Hlt. induction b as [|s b IH]; intros i Hlt; simpl in Hlt; [lia|].
    destruct i as [|i]; simpl.
    + unfold arr_get. simpl. lia.
    + specialize (IH i ltac:(lia)). unfold arr_get in *. simpl. lia.
  - rewrite !countIf_app, countIf_replicate_false by done.
    unfold arr_get. rewrite lookup_ge_None_2 by lia. rewrite Hhole. simpl. lia.
Qed.

Lemma countIf_delete {A : Type} (f : A -> bool) (l : list A) (i : nat) (x : A) :
  l !! i = Some x ->
  (countIf f (delete i l) + (if f x then 1 else 0) = countIf f l)%nat.
Proof.
  revert i. induction l as [|y l IH]; intros i; [done|].
  destruct i as [|i]; simpl.
  - intros [= ->]. lia.
  - intros Hi. specialize (IH i Hi). lia.
Qed.

Lemma countKind_setDirAt (side : Player) (kind : PieceType) (b : Board) (i : nat) (d : Z) :
  countKindOnBoard (setDirAt b i d) side kind = countKindOnBoard b side kind.
Proof.
  unfold setDirAt, countKindOnBoard.
  destruct (arr_get b i) as [| |pc] eqn:Hpc; try done.
  pose proof (countIf_arr_set (isPieceOf side kind) b i
                (Occ {| player := player pc; type := type pc; dir := Some d |}) eq_refl) as H.
  rewrite Hpc in H. simpl in H. lia.
Qed.

Lemma countKind_movePieceOnBoard (side : Player) (kind : PieceType) (b : Board)
    (fromIndex toIndex : nat) (fromCell : Piece) :
  arr_get b fromIndex = Occ fromCell -> fromIndex ≠ toIndex ->
  (countKindOnBoard (movePieceOnBoard b fromIndex toIndex fromCell) side kind
   + (if isPieceOf side kind (arr_get b toIndex) then 1 else 0)
   = countKindOnBoard b side kind)%nat.
Proof.
  intros Hfrom Hne. unfold movePieceOnBoard.
  assert (countKindOnBoard
            (arr_set fromIndex Null (arr_set toIndex (Occ fromCell) b)) side kind
          + (if isPieceOf side kind (arr_get b toIndex) then 1 else 0)
          = countKindOnBoard b side kind)%nat as Hb2.
  { unfold countKindOnBoard.
    pose proof (countIf_arr_set (isPieceOf side kind) b toIndex (Occ fromCell) eq_refl) as H1.
    pose proof (countIf_arr_set (isPieceOf side kind) (arr_set toIndex (Occ fromCell) b)
                  fromIndex Null eq_refl) as H2.
    rewrite arr_get_set_ne, Hfrom in H2 by done.
    simpl in *. lia. }
  destruct (type fromCell), (dir fromCell); try done.
  destruct (_ || _); [|done]. by rewrite countKind_setDirAt.
Qed.

Lemma oneOfEachKind_init : oneOfEachKind emptyBoard initialPools.
Proof. intros [] []; reflexivity. Qed.

Lemma oneOfEachKind_place (b : Board) (p : Pools) (side : Player) (t : PieceType)
    (i idx : nat) (piece : Piece) :
  oneOfEachKind b p -> arr_get b i = Null ->
  indexOf t (getPool p side) = Some idx -> player piece = side -> type piece = t ->
  oneOfEachKind (arr_set i (Occ piece) b)
                (setPool p side (splice1 idx (getPool p side))).
Proof.
  intros Hone Hcell Hidx Hside Htype side' kind. specialize (Hone side' kind).
  unfold countKindOnBoard, countKindInPool in *.
  pose proof (countIf_arr_set (isPieceOf side' kind) b i (Occ piece) eq_refl) as Hboard.
  rewrite Hcell in Hboard. simpl in Hboard.
  pose proof (countIf_delete (fun t' => bool_decide (t' = kind)) _ _ _ (indexOf_Some _ _ _ Hidx))
    as Hpool.
  rewrite getPool_setPool. unfold splice1.
  repeat (case_bool_decide; simpl in *; subst; try congruence); lia.
Qed.

Lemma oneOfEachKind_move (b : Board) (p : Pools) (me : Player)
    (fromIndex toIndex : nat) (fromCell : Piece) :
  oneOfEachKind b p -> arr_get b fromIndex = Occ fromCell ->
  player fromCell = me -> ownedBy me (arr_get b toIndex) = false ->
  oneOfEachKind (movePieceOnBoard b fromIndex toIndex fromCell)
                (capture p me (arr_get b toIndex)).
Proof.
  intros Hone Hfrom Hme Hto side kind. specialize (Hone side kind).
  pose proof (move_source_ne_destination _ _ _ _ _ Hfrom Hme Hto) as Hne.
  pose proof (countKind_movePieceOnBoard side kind b fromIndex toIndex fromCell Hfrom Hne)
    as Hcount.
  unfold capture.
  destruct (arr_get b toIndex) as [| |t] eqn:Hcell; simpl in *; try lia.
  apply bool_decide_eq_false in Hto.
  rewrite bool_decide_eq_false_2 by done.
  rewrite getPool_setPool. unfold countKindInPool in *.
  rewrite ?countIf_app. simpl.
  repeat (case_bool_decide; simpl in *; subst; try congruence);
    rewrite ?countIf_app in *; simpl in *;
    repeat (case_bool_decide; simpl in *; subst; try congruence); lia.
Qed.

Lemma reachable_oneOfEachKind (b : Board) (p : Pools) :
  reachablePosition b p -> oneOfEachKind b p.
Proof.
  apply (reachablePosition_inv oneOfEachKind).
  - apply oneOfEachKind_init.
  - intros. by eapply oneOfEachKind_place.
  - intros. by apply oneOfEachKind_move.
Qed.

(** * Wins and draws in play *)

Lemma reachable_materialConserved (b : Board) (p : Pools) :
  reachablePosition b p -> materialConserved b p.
Proof.
  apply (reachablePosition_inv materialConserved).
  - apply materialConserved_init.
  - intros. by eapply materialConserved_place.
  - intros. by apply materialConserved_move.
Qed.

Lemma count_owned_cell (side : Player) (b : Board) (i : nat) :
  ownedBy side (arr_get b i) = true ->
  countPiecesOnBoard b side = S (countPiecesOnBoard (arr_set i Null b) side).
Proof.
  intros Hown. pose proof (count_arr_set side b i Null) as H.
  rewrite Hown in H. simpl in H. lia.
Qed.

Lemma count_four_owned (side : Player) (b : Board) (i1 i2 i3 i4 : nat) :
  i1 ≠ i2 -> i1 ≠ i3 -> i1 ≠ i4 -> i2 ≠ i3 -> i2 ≠ i4 -> i3 ≠ i4 ->
  ownedBy side (arr_get b i1) = true -> ownedBy side (arr_get b i2) = true ->
  ownedBy side (arr_get b i3) = true -> ownedBy side (arr_get b i4) = true ->
  (4 <= countPiecesOnBoard b side)%nat.
Proof.
  intros H12 H13 H14 H23 H24 H34 H1 H2 H3 H4.
  rewrite (count_owned_cell side b i1 H1).
  rewrite (count_owned_cell side _ i2) by (by rewrite arr_get_set_ne).
  rewrite (count_owned_cell side _ i3) by (by rewrite !arr_get_set_ne).
  rewrite (count_owned_cell side _ i4) by (by rewrite !arr_get_set_ne).
  lia.
Qed.

Lemma hasLine_four_on_board (b : Board) (side : Player) :
  hasLine b side -> (4 <= countPiecesOnBoard b side)%nat.
Proof.
  intros (l & Hin & Hown). unfold lines in Hin.
  repeat (apply elem_of_cons in Hin as [->|Hin]);
    [destruct Hown as (H1 & H2 & H3 & H4);
     refine (count_four_owned side b _ _ _ _ _ _ _ _ _ _ H1 H2 H3 H4); done.. |].
  by apply elem_of_nil in Hin.
Qed.

(** X17. A side that wins has all four of its pieces on the board: in every
    reachable position in which the outcome detector names a winner, the
    winner's pool is empty and it has four pieces on the board. *)
Theorem winner_has_all_pieces_on_board (b : Board) (p : Pools) (w : Player) :
  reachablePosition b p -> checkWinner b = Some w ->
  countPiecesOnBoard b w = 4%nat /\ getPool p w = [].
Proof.
  intros Hreach Hw.
  pose proof (reachable_materialConserved b p Hreach w) as Hcons.
  pose proof (hasLine_four_on_board b w (checkWinner_Some b w Hw)) as Hfour.
  split; [lia|]. destruct (getPool p w); [done | simpl in Hcons; lia].
Qed.

Lemma countIf_occupied (b : Board) :
  countIf isOccupied b
  = (countPiecesOnBoard b PLAYER_X + countPiecesOnBoard b PLAYER_O)%nat.
Proof.
  induction b as [|s b IH]; simpl; [done|].
  rewrite !count_cons, IH. destruct s as [| |[[] ? ?]]; simpl; lia.
Qed.

Lemma countIf_isNull_full (b : Board) :
  (0 < countIf isNull b)%nat -> isBoardFull b = false.
Proof.
  unfold isBoardFull. induction b as [|s b IH]; simpl; [lia|].
  destruct s; simpl; try done; intros H; apply IH; lia.
Qed.

Lemma cellCount_arr_set (b : Board) (i : nat) (v : Slot Piece) :
  v ≠ Hole -> (cellCount b <= cellCount (arr_set i v b))%nat.
Proof.
  intros Hv. unfold cellCount.
  pose proof (countIf_arr_set isNull b i v eq_refl).
  pose proof (countIf_arr_set isOccupied b i v eq_refl).
  destruct (arr_get b i), v; simpl in *; try done; lia.
Qed.

Lemma cellCount_setDirAt (b : Board) (i : nat) (d : Z) :
  (cellCount b <= cellCount (setDirAt b i d))%nat.
Proof.
  unfold setDirAt. destruct (arr_get b i); try done. by apply cellCount_arr_set.
Qed.

Lemma cellCount_movePieceOnBoard (b : Board) (fromIndex toIndex : nat) (fromCell : Piece) :
  (cellCount b <= cellCount (movePieceOnBoard b fromIndex toIndex fromCell))%nat.
Proof.
  unfold movePieceOnBoard.
  assert (cellCount b
          <= cellCount (arr_set fromIndex Null (arr_set toIndex (Occ fromCell) b)))%nat as Hb2.
  { etrans; [apply (cellCount_arr_set b toIndex (Occ fromCell)); done|].
    by apply cellCount_arr_set. }
  destruct (type fromCell), (dir fromCell); try done.
  destruct (_ || _); [|done]. etrans; [exact Hb2 | apply cellCount_setDirAt].
Qed.

(** X18. Play never ends in a draw: in every reachable position, on the
    server and in the local game, at least eight slots of the board are
    empty, so [isBoardFull] is false and the outcome detector never reports a
    draw. *)
Theorem no_draw_in_play (b : Board) (p : Pools) :
  reachablePosition b p ->
  (8 <= countIf isNull b)%nat /\ isBoardFull b = false /\ detect b ≠ Draw.
Proof.
  intros Hreach.
  assert (16 <= cellCount b)%nat as Hcells.
  { refine (reachablePosition_inv (fun b _ => (16 <= cellCount b)%nat) _ _ _ b p Hreach).
    - by vm_compute.
    - intros b0 p0 side t i idx piece Hb0 _ _ _ _ _.
      etrans; [exact Hb0 | by apply cellCount_arr_set].
    - intros b0 p0 me from to fromCell Hb0 _ _ _.
      etrans; [exact Hb0 | apply cellCount_movePieceOnBoard]. }
  pose proof (reachable_materialConserved b p Hreach PLAYER_X).
  pose proof (reachable_materialConserved b p Hreach PLAYER_O).
  unfold cellCount in Hcells. rewrite countIf_occupied in Hcells.
  assert (8 <= countIf isNull b)%nat as Hnull by lia.
  assert (isBoardFull b = false) as Hfull by (apply countIf_isNull_full; lia).
  split; [done|]. split; [done|].
  unfold detect. destruct (checkWinner b); [done|]. by rewrite Hfull.
Qed.

Lemma no_draw_in_play_witness :
  (8 <= countIf isNull (ServerJs.board afterCapture))%nat /\
  isBoardFull (ServerJs.board afterCapture) = false /\
  detect (ServerJs.board afterCapture) ≠ Draw.
Proof.
  apply (no_draw_in_play (ServerJs.board afterCapture) (ServerJs.pools afterCapture)).
  apply (reachable_on_server _ _ afterCapture);
    [apply afterCapture_reachable | reflexivity | reflexivity].
Defined.

Lemma afterWin_reachable : ServerJs.reachable afterWin.
Proof.
  apply (playOnServer_reachable winningPlacements ServerJs.createInitialGameState);
    [apply ServerJs.reach_init | reflexivity].
Qed.

Lemma winner_has_all_pieces_on_board_witness :
  countPiecesOnBoard (ServerJs.board afterWin) PLAYER_X = 4%nat /\
  getPool (ServerJs.pools afterWin) PLAYER_X = [].
Proof.
  apply (winner_has_all_pieces_on_board (ServerJs.board afterWin) (ServerJs.pools afterWin)).
  - apply (reachable_on_server _ _ afterWin);
      [apply afterWin_reachable | reflexivity | reflexivity].
  - reflexivity.
Defined.

(** * What an accepted action changes *)

Lemma makeMoveOnGame_cases (g g' : ServerJs.GameState) (side : Player)
    (data : ServerJs.MoveData) :
  ServerJs.makeMoveOnGame g side data = inr g' ->
  (ServerJs.d_action data = "place" /\
   arr_get (ServerJs.board g) (ServerJs.d_index data) = Null /\
   exists idx,
     indexOf (ServerJs.d_type data) (getPool (ServerJs.pools g) side) = Some idx /\
     g' = ServerJs.checkEnd
            (ServerJs.mkGameState
               (arr_set (ServerJs.d_index data)
                  (Occ (ServerJs.newPiece side (ServerJs.d_type data) (ServerJs.d_index data)))
                  (ServerJs.board g))
               (setPool (ServerJs.pools g) side
                  (splice1 idx (getPool (ServerJs.pools g) side)))
               (ServerJs.currentPlayer g) (ServerJs.gameOver g) (ServerJs.winner g))) \/
  (ServerJs.d_action data = "move" /\
   bothPlayersHaveThree (ServerJs.board g) = true /\
   exists fromCell,
     arr_get (ServerJs.board g) (ServerJs.d_fromIndex data) = Occ fromCell /\
     player fromCell = side /\
     ownedBy side (arr_get (ServerJs.board g) (ServerJs.d_toIndex data)) = false /\
     ServerJs.isLegalMove (ServerJs.board g) (ServerJs.d_fromIndex data)
       (ServerJs.d_toIndex data) fromCell = true /\
     g' = ServerJs.checkEnd
            (ServerJs.mkGameState
               (movePieceOnBoard (ServerJs.board g) (ServerJs.d_fromIndex data)
                  (ServerJs.d_toIndex data) fromCell)
               (capture (ServerJs.pools g) side
                  (arr_get (ServerJs.board g) (ServerJs.d_toIndex data)))
               (ServerJs.currentPlayer g) (ServerJs.gameOver g) (ServerJs.winner g))) \/
  (ServerJs.d_action data ≠ "place" /\ ServerJs.d_action data ≠ "move" /\
   g' = ServerJs.checkEnd g).
Proof.
  unfold ServerJs.makeMoveOnGame.
  destruct (ServerJs.gameOver g); [discriminate|].
  case_bool_decide as Hturn; simpl; [|discriminate].
  destruct (String.eqb_spec (ServerJs.d_action data) "place") as [Hplace|Hplace].
  { destruct (notNull _) eqn:Hcell; [discriminate|]. apply notNull_false in Hcell.
    destruct (indexOf _ _) as [idx|] eqn:Hidx; [|discriminate].
    intros [= <-]. left. eauto. }
  destruct (String.eqb_spec (ServerJs.d_action data) "move") as [Hmove|Hmove].
  { destruct (bothPlayersHaveThree _) eqn:Hthree; simpl; [|discriminate].
    destruct (arr_get _ (ServerJs.d_fromIndex data)) as [| |fromCell] eqn:Hfrom;
      try discriminate.
    case_bool_decide as Hown; simpl; [|discriminate].
    destruct (ownedBy _ _) eqn:Hto; [discriminate|].
    destruct (ServerJs.isLegalMove _ _ _ _) eqn:Hlegal; simpl; [|discriminate].
    intros [= <-]. right. left. repeat split; try done.
    exists fromCell. repeat split; done. }
  intros [= <-]. right. right. done.
Qed.

Lemma movePieceOnBoard_get (b : Board) (fromIndex toIndex j : nat) (fromCell : Piece) :
  fromIndex ≠ toIndex ->
  arr_get (movePieceOnBoard b fromIndex toIndex fromCell) j
  = if bool_decide (j = fromIndex) then Null
    else if bool_decide (j = toIndex) then Occ (movedPiece fromCell toIndex)
    else arr_get b j.
Proof.
  intros Hne. unfold movePieceOnBoard, movedPiece.
  assert (forall k, arr_get (arr_set fromIndex Null (arr_set toIndex (Occ fromCell) b)) k
                    = if bool_decide (k = fromIndex) then Null
                      else if bool_decide (k = toIndex) then Occ fromCell
                      else arr_get b k) as Hb2
    by (intros k; by rewrite !arr_get_set).
  destruct (type fromCell) eqn:Ht, (dir fromCell) as [d|] eqn:Hd; try apply Hb2.
  change (BOARD_SIZE - 1) with 3.
  destruct (_ || _); [|apply Hb2].
  unfold setDirAt. rewrite (Hb2 toIndex).
  rewrite (bool_decide_eq_false_2 (toIndex = fromIndex)) by done.
  rewrite (bool_decide_eq_true_2 (toIndex = toIndex)) by done.
  rewrite arr_get_set, Hb2, Ht.
  repeat case_bool_decide; subst; done.
Qed.

(** X19. What an accepted move changes on the server: the source cell
    becomes empty, the destination holds the moved piece (a pawn arriving on
    row 0 or 3 with its direction negated), every other cell is as before;
    the mover's pool is unchanged and the opponent's pool gets the kind of
    the piece that stood on the destination, if any, appended. *)
Theorem accepted_move_effect (g g' : ServerJs.GameState) (side : Player)
    (data : ServerJs.MoveData) :
  ServerJs.d_action data = "move" ->
  ServerJs.makeMoveOnGame g side data = inr g' ->
  exists fromCell,
    arr_get (ServerJs.board g) (ServerJs.d_fromIndex data) = Occ fromCell /\
    player fromCell = side /\
    ServerJs.d_fromIndex data ≠ ServerJs.d_toIndex data /\
    (forall j,
       arr_get (ServerJs.board g') j
       = if bool_decide (j = ServerJs.d_fromIndex data) then Null
         else if bool_decide (j = ServerJs.d_toIndex data)
              then Occ (movedPiece fromCell (ServerJs.d_toIndex data))
              else arr_get (ServerJs.board g) j) /\
    getPool (ServerJs.pools g') side = getPool (ServerJs.pools g) side /\
    getPool (ServerJs.pools g') (otherPlayer side)
    = getPool (ServerJs.pools g) (otherPlayer side)
      ++ match arr_get (ServerJs.board g) (ServerJs.d_toIndex data) with
         | Occ captured => [type captured]
         | _ => []
         end.
Proof.
  intros Haction Hstep.
  destruct (makeMoveOnGame_cases _ _ _ _ Hstep)
    as [(Hplace & _)|[(_ & _ & fromCell & Hfrom & Hside & Hto & _ & ->)|(_ & Hmove & _)]];
    [congruence | | congruence].
  pose proof (move_source_ne_destination _ _ _ _ _ Hfrom Hside Hto) as Hne.
  exists fromCell. split; [done|]. split; [done|]. split; [done|].
  match goal with |- context [ServerJs.checkEnd ?s] =>
    destruct (server_checkEnd_position s) as [-> ->] end.
  simpl. split; [intros j; by apply movePieceOnBoard_get|].
  unfold capture.
  destruct (arr_get (ServerJs.board g) (ServerJs.d_toIndex data)) as [| |captured];
    simpl in *; rewrite ?app_nil_r; try done.
  apply bool_decide_eq_false in Hto.
  rewrite bool_decide_eq_false_2 by done. rewrite !getPool_setPool.
  destruct side, (player captured); simpl; try done.
Qed.

Lemma accepted_move_effect_witness :
  exists fromCell,
    arr_get (ServerJs.board afterOpening) 0 = Occ fromCell /\
    player fromCell = PLAYER_X /\ 0%nat ≠ 1%nat /\
    (forall j,
       arr_get (ServerJs.board afterCapture) j
       = if bool_decide (j = 0%nat) then Null
         else if bool_decide (j = 1%nat) then Occ (movedPiece fromCell 1)
              else arr_get (ServerJs.board afterOpening) j) /\
    getPool (ServerJs.pools afterCapture) PLAYER_X
    = getPool (ServerJs.pools afterOpening) PLAYER_X /\
    getPool (ServerJs.pools afterCapture) PLAYER_O
    = getPool (ServerJs.pools afterOpening) PLAYER_O ++ [Knight].
Proof.
  exact (accepted_move_effect afterOpening afterCapture PLAYER_X (moveMsg 0 1)
           eq_refl eq_refl).
Defined.

(** * The shape of the board *)

Lemma noHoles_insert (b : Board) (i : nat) (v : Slot Piece) :
  noHoles b = true -> v ≠ Hole -> noHoles (<[i := v]> b) = true.
Proof.
  unfold noHoles. revert i. induction b as [|s b IH]; intros i Hb Hv; [done|].
  simpl in Hb. apply andb_true_iff in Hb as [Hs Hb].
  destruct i as [|i]; simpl.
  - rewrite Hb. by destruct v.
  - rewrite Hs. simpl. by apply IH.
Qed.

Lemma wfBoard_arr_set (b : Board) (i : nat) (v : Slot Piece) :
  wfBoard b -> (i < BOARD_CELLS)%nat -> v ≠ Hole -> wfBoard (arr_set i v b).
Proof.
  intros [Hlen Hholes] Hi Hv. unfold arr_set.
  rewrite bool_decide_eq_true_2 by lia.
  split; [by rewrite length_insert | by apply noHoles_insert].
Qed.

Lemma arr_get_lt (b : Board) (i : nat) : arr_get b i ≠ Hole -> (i < length b)%nat.
Proof.
  unfold arr_get. destruct (b !! i) eqn:Hi; [|done].
  intros _. by eapply lookup_lt_Some.
Qed.

Lemma wfBoard_setDirAt (b : Board) (i : nat) (d : Z) :
  wfBoard b -> wfBoard (setDirAt b i d).
Proof.
  intros Hwf. unfold setDirAt. destruct (arr_get b i) eqn:Hi; try done.
  apply wfBoard_arr_set; [done | | done].
  destruct Hwf as [<- _]. apply arr_get_lt. by rewrite Hi.
Qed.

Lemma wfBoard_movePieceOnBoard (b : Board) (fromIndex toIndex : nat) (fromCell : Piece) :
  wfBoard b -> arr_get b fromIndex = Occ fromCell -> (toIndex < BOARD_CELLS)%nat ->
  wfBoard (movePieceOnBoard b fromIndex toIndex fromCell).
Proof.
  intros Hwf Hfrom Hto. unfold movePieceOnBoard.
  assert (wfBoard (arr_set fromIndex Null (arr_set toIndex (Occ fromCell) b))) as Hb2.
  { apply wfBoard_arr_set; [by apply wfBoard_arr_set | | done].
    destruct Hwf as [<- _]. apply arr_get_lt. by rewrite Hfrom. }
  destruct (type fromCell), (dir fromCell); try done.
  destruct (_ || _); [|done]. by apply wfBoard_setDirAt.
Qed.

Lemma wfBoard_place (b : Board) (i : nat) (piece : Piece) :
  wfBoard b -> arr_get b i = Null -> wfBoard (arr_set i (Occ piece) b).
Proof.
  intros Hwf Hcell. apply wfBoard_arr_set; [done | | done].
  destruct Hwf as [<- _]. apply arr_get_lt. by rewrite Hcell.
Qed.

Lemma playedOnCells_wfBoard (g : ServerJs.GameState) :
  playedOnCells g -> wfBoard (ServerJs.board g).
Proof.
  induction 1 as [|g side data g' _ IH Hto Hstep|g remaining _ IH _]; [by split| |exact IH].
  destruct (makeMoveOnGame_cases _ _ _ _ Hstep)
    as [(_ & Hcell & idx & _ & ->)|[(_ & _ & fromCell & Hfrom & _ & _ & _ & ->)|(_ & _ & ->)]];
    match goal with |- context [ServerJs.checkEnd ?s] =>
      destruct (server_checkEnd_position s) as [-> _] end; simpl.
  - by apply wfBoard_place.
  - by apply wfBoard_movePieceOnBoard.
  - done.
Qed.

Lemma local_placePiece_wfBoard (st : GameJs.State) (side : Player) (t : PieceType) (i : nat) :
  wfBoard (GameJs.board st) -> wfBoard (GameJs.board (GameJs.placePiece st side t i)).
Proof.
  intros Hwf.
  destruct (game_placePiece_cases st side t i) as [->|(_ & _ & Hcell & idx & _ & ->)]; [done|].
  rewrite game_afterAction_board. simpl. by apply wfBoard_place.
Qed.

Lemma local_tryMovePiece_wfBoard (st : GameJs.State) (fromIndex toIndex : nat) :
  wfBoard (GameJs.board st) -> (toIndex < BOARD_CELLS)%nat ->
  wfBoard (GameJs.board (fst (GameJs.tryMovePiece st fromIndex toIndex))).
Proof.
  intros Hwf Hto.
  destruct (game_tryMovePiece_cases st fromIndex toIndex)
    as [->|(_ & _ & _ & fromCell & Hfrom & _ & _ & _ & ->)]; [done|].
  simpl. rewrite game_afterAction_board. simpl. by apply wfBoard_movePieceOnBoard.
Qed.

Lemma playedOnCellsLocally_wfBoard (st : GameJs.State) :
  playedOnCellsLocally st -> wfBoard (GameJs.board st).
Proof.
  induction 1 as [|st side t i _ IH|st from to _ IH Hto|st _ IH]; [by split| | |].
  - by apply local_placePiece_wfBoard.
  - by apply local_tryMovePiece_wfBoard.
  - unfold GameJs.aiTakeTurn.
    destruct (GameJs.gameOver st); [done|]. destruct (negb _); [done|].
    destruct (GameJs.getBestAiAction _ _) as [[i t|from to]|] eqn:Hbest; [| |done].
    + by apply local_placePiece_wfBoard.
    + apply local_tryMovePiece_wfBoard; [done|].
      apply getBestAiAction_member, in_getAllActions in Hbest.
      destruct Hbest as [(? & ? & [=] & _)|(_ & i' & j' & cell & [= <- <-] & _ & Hj & _)].
      done.
Qed.

(** X20. As long as every move names a destination among the sixteen cells,
    the board keeps the shape of the data model: sixteen slots, each [null]
    or a piece.  This holds for the server's game and for the local game,
    whose AI only ever names such destinations. *)
Theorem board_keeps_sixteen_cells :
  (forall g, playedOnCells g -> wfBoard (ServerJs.board g)) /\
  (forall st, playedOnCellsLocally st -> wfBoard (GameJs.board st)).
Proof. split; [apply playedOnCells_wfBoard | apply playedOnCellsLocally_wfBoard]. Qed.

Lemma board_keeps_sixteen_cells_witness :
  exists g', ServerJs.makeMoveOnGame ServerJs.createInitialGameState PLAYER_X (placeMsg Rook 5) = inr g' /\
             wfBoard (ServerJs.board g').
Proof.
  eexists. split; [reflexivity|].
  apply (proj1 board_keeps_sixteen_cells).
  apply (cells_step ServerJs.createInitialGameState PLAYER_X (placeMsg Rook 5));
    [apply cells_init | vm_compute; lia | reflexivity].
Defined.

(** * The server and the local game side by side *)

Lemma checkEnd_afterAction_same (b : Board) (p : Pools) (side : Player) (over : bool)
    (w : option Player) :
  sameGame (ServerJs.checkEnd (ServerJs.mkGameState b p side over w))
           (GameJs.afterAction (GameJs.mkState b p side over)).
Proof.
  unfold sameGame, ServerJs.checkEnd, GameJs.afterAction. simpl.
  destruct (checkWinner b); [done|]. by destruct (isBoardFull b).
Qed.

Lemma newPiece_same (side : Player) (t : PieceType) (i : nat) :
  t ≠ Pawn -> ServerJs.newPiece side t i = GameJs.newPiece side t.
Proof. by destruct t. Qed.

Lemma isLegalMove_same (b : Board) (fromIndex toIndex : nat) (piece : Piece) :
  type piece ≠ Pawn ->
  ServerJs.isLegalMove b fromIndex toIndex piece = GameJs.isLegalMove b fromIndex toIndex piece.
Proof.
  intros Ht. unfold ServerJs.isLegalMove, GameJs.isLegalMove.
  destruct (indexToRowCol _), (indexToRowCol _). by destruct (type piece).
Qed.

(** X21. Apart from pawns the server and the local game play the same game.
    From the same position, a placement of a rook, knight or bishop, and a
    move of a piece that is not a pawn, are accepted by both or refused by
    both; when accepted, both arrive at the same position again. *)
Theorem server_and_local_game_agree (g : ServerJs.GameState) (st : GameJs.State) :
  sameGame g st ->
  (forall side data,
     ServerJs.d_action data = "place" -> ServerJs.d_type data ≠ Pawn ->
     match ServerJs.makeMoveOnGame g side data with
     | inr g' =>
         sameGame g' (GameJs.placePiece st side (ServerJs.d_type data) (ServerJs.d_index data))
     | inl _ =>
         GameJs.placePiece st side (ServerJs.d_type data) (ServerJs.d_index data) = st
     end) /\
  (forall data,
     ServerJs.d_action data = "move" ->
     (forall fromCell, arr_get (ServerJs.board g) (ServerJs.d_fromIndex data) = Occ fromCell ->
                       type fromCell ≠ Pawn) ->
     match ServerJs.makeMoveOnGame g (ServerJs.currentPlayer g) data with
     | inr g' =>
         exists st', GameJs.tryMovePiece st (ServerJs.d_fromIndex data) (ServerJs.d_toIndex data)
                     = (st', true) /\ sameGame g' st'
     | inl _ =>
         GameJs.tryMovePiece st (ServerJs.d_fromIndex data) (ServerJs.d_toIndex data)
         = (st, false)
     end).
Proof.
  destruct g as [b p cur over w], st as [b' p' cur' over'].
  unfold sameGame. simpl. intros (<- & <- & <- & <-). split.
  - intros side data Hact Ht.
    unfold ServerJs.makeMoveOnGame, GameJs.placePiece. simpl. rewrite Hact. simpl.
    destruct over; [done|].
    assert (bool_decide (cur = side) = bool_decide (side = cur)) as ->
      by (by destruct cur, side).
    destruct (bool_decide (side = cur)) eqn:Hside; simpl; [|done].
    apply bool_decide_eq_true in Hside as ->.
    destruct (notNull _); [done|].
    destruct (indexOf _ _) as [idx|]; [|done].
    rewrite newPiece_same by done. apply checkEnd_afterAction_same.
  - intros data Hact Hkind.
    unfold ServerJs.makeMoveOnGame, GameJs.tryMovePiece, GameJs.canCurrentPlayerMovePieces.
    simpl in *. rewrite Hact. simpl.
    destruct over; [done|].
    rewrite bool_decide_eq_true_2 by done. simpl.
    destruct (bothPlayersHaveThree b); simpl; [|done].
    destruct (arr_get b (ServerJs.d_fromIndex data)) as [| |fromCell] eqn:Hfrom; [done|done|].
    destruct (bool_decide (player fromCell = cur)) eqn:Hown; simpl; [|done].
    apply bool_decide_eq_true in Hown.
    destruct (bool_decide (ServerJs.d_fromIndex data = ServerJs.d_toIndex data)) eqn:Heq.
    + apply bool_decide_eq_true in Heq. rewrite <- Heq, Hfrom.
      unfold ownedBy. rewrite bool_decide_eq_true_2 by done. done.
    + destruct (ownedBy cur _); [done|].
      rewrite isLegalMove_same by eauto.
      destruct (GameJs.isLegalMove _ _ _ _); simpl; [|done].
      eexists. split; [done|]. apply checkEnd_afterAction_same.
Qed.

Lemma server_and_local_game_agree_witness :
  exists g', ServerJs.makeMoveOnGame ServerJs.createInitialGameState PLAYER_X (placeMsg Rook 5)
             = inr g' /\ sameGame g' (GameJs.placePiece GameJs.initGame PLAYER_X Rook 5).
Proof.
  eexists. split; [reflexivity|].
  refine (proj1 (server_and_local_game_agree ServerJs.createInitialGameState GameJs.initGame _)
            PLAYER_X (placeMsg Rook 5) _ _); [by repeat split | reflexivity | done].
Defined.

(** X22. Pawns are where the two programs differ.  The server steps a pawn to
    row [fr - dir], the local game to row [fr + dir]: whatever the server
    lets a pawn do, the local game lets the same pawn do when it faces the
    other way, and away from the two edge rows the two rules then coincide.
    On an edge row the local game has one more step, onto the empty cell
    behind the pawn, which the server refuses. *)
Theorem server_pawn_is_local_pawn_turned_around (b : Board) (fr fc tr tc : Z) (piece : Piece) :
  (ServerJs.isLegalPawnMove b fr fc tr tc piece = true ->
   GameJs.isLegalPawnMove b fr fc tr tc (turnedAround piece) = true) /\
  (fr ≠ 0 -> fr ≠ BOARD_SIZE - 1 ->
   GameJs.isLegalPawnMove b fr fc tr tc (turnedAround piece)
   = ServerJs.isLegalPawnMove b fr fc tr tc piece) /\
  (forall d, dir piece = Some d -> d ≠ 0 -> fr = 0 \/ fr = BOARD_SIZE - 1 ->
   tr = fr + d -> isNull (arr_getZ b (rowColToIndex tr tc)) = true ->
   GameJs.isLegalPawnMove b fr fc tr tc (turnedAround piece) = true /\
   ServerJs.isLegalPawnMove b fr fc tr tc piece = false).
Proof.
  unfold ServerJs.isLegalPawnMove, GameJs.isLegalPawnMove, turnedAround. simpl.
  destruct (dir piece) as [d|]; simpl; [|done].
  replace (fr + - d) with (fr - d) by lia.
  replace (fr - - d) with (fr + d) by lia.
  assert (isOpponentOf {| player := player piece; type := type piece; dir := Some (- d) |}
          = isOpponentOf piece) as -> by done.
  split; [|split].
  - intros H.
    destruct ((tc =? fc) && (tr =? fr - d) && isNull _); [done|].
    destruct ((tr =? fr - d) && (Z.abs (tc - fc) =? 1) && isOpponentOf piece _); [|done].
    by destruct (_ && _ && _).
  - intros H0 H3.
    destruct ((tc =? fc) && (tr =? fr - d) && isNull _); [done|].
    replace (fr =? 0) with false by (symmetry; by apply Z.eqb_neq).
    replace (fr =? BOARD_SIZE - 1) with false by (symmetry; by apply Z.eqb_neq).
    done.
  - intros d' [= <-] Hd Hedge -> Hnull.
    replace (fr + d =? fr - d) with false by (symmetry; apply Z.eqb_neq; lia).
    rewrite Z.eqb_refl, Hnull, !andb_false_r. simpl.
    replace ((fr =? 0) || (fr =? BOARD_SIZE - 1)) with true; [done|].
    symmetry. apply orb_true_iff. destruct Hedge as [->| ->]; [by left|by right].
Qed.

Lemma server_pawn_is_local_pawn_turned_around_witness :
  GameJs.isLegalPawnMove pawnMidBoard 1 1 2 1 (turnedAround (mkPiece PLAYER_X Pawn (Some (-1))))
  = ServerJs.isLegalPawnMove pawnMidBoard 1 1 2 1 (mkPiece PLAYER_X Pawn (Some (-1))).
Proof.
  apply (proj1 (proj2 (server_pawn_is_local_pawn_turned_around pawnMidBoard 1 1 2 1
                  (mkPiece PLAYER_X Pawn (Some (-1)))))); vm_compute; discriminate.
Defined.

(** * Instances on the example positions *)

Lemma turns_alternate_witness :
  ServerJs.makeMoveOnGame afterOpening PLAYER_X (moveMsg 0 1) = inr afterCapture /\
  ServerJs.gameOver afterOpening = false /\ ServerJs.currentPlayer afterOpening = PLAYER_X /\
  ServerJs.currentPlayer afterCapture = PLAYER_O.
Proof.
  split; [reflexivity|].
  exact (proj1 turns_alternate afterOpening PLAYER_X (moveMsg 0 1) afterCapture eq_refl).
Defined.

Lemma search_steps_like_the_game_witness :
  (GameJs.board (GameJs.placePiece GameJs.initGame PLAYER_X Rook 5),
   GameJs.pools (GameJs.placePiece GameJs.initGame PLAYER_X Rook 5))
  = GameJs.applyAction emptyBoard initialPools PLAYER_X (GameJs.APlace 5 Rook).
Proof.
  exact (proj2 (search_steps_like_the_game GameJs.initGame) 5%nat Rook eq_refl eq_refl).
Defined.

(** * The browser client with online play *)

Lemma copyBoard_id (b : Board) : OnlineClient.copyBoard b = b.
Proof.
  unfold OnlineClient.copyBoard. induction b as [|s b IH]; simpl; [done|].
  rewrite IH. by destruct s as [| |[]].
Qed.

Lemma copyPosition_id (p : OnlineClient.Position) : OnlineClient.copyPosition p = p.
Proof.
  destruct p as [b [px po] cur over last].
  unfold OnlineClient.copyPosition, OnlineClient.copyPools. simpl. by rewrite copyBoard_id.
Qed.

(** X23. The flipped view is the board after a half turn.  Translating a
    board index to a display index and back gives the index again, in both
    orders and in every mode; a cell of the board is shown on a cell of the
    board; and when the view is flipped (online, playing O) the cell of row
    [r] and column [c] is shown at row [3 - r] and column [3 - c]. *)
Theorem display_index_is_half_turn (c : OnlineClient.Client) (i : Z) :
  OnlineClient.getBoardIndex c (OnlineClient.getDisplayIndex c i) = i /\
  OnlineClient.getDisplayIndex c (OnlineClient.getBoardIndex c i) = i /\
  (0 <= i < Z.of_nat BOARD_CELLS ->
   0 <= OnlineClient.getDisplayIndex c i < Z.of_nat BOARD_CELLS /\
   (OnlineClient.shouldFlip c = true ->
    indexToRowCol (OnlineClient.getDisplayIndex c i)
    = (BOARD_SIZE - 1 - fst (indexToRowCol i), BOARD_SIZE - 1 - snd (indexToRowCol i)))).
Proof.
  unfold OnlineClient.getBoardIndex, OnlineClient.getDisplayIndex, indexToRowCol, BOARD_SIZE,
    BOARD_CELLS.
  destruct (OnlineClient.shouldFlip c); simpl.
  - split; [lia|]. split; [lia|]. intros Hi. split; [lia|]. intros _.
    rewrite !Z.rem_mod_nonneg by lia.
    f_equal.
    + symmetry. apply (Z.div_unique _ _ _ (3 - i mod 4)); [|].
      * pose proof (Z.mod_pos_bound i 4). lia.
      * pose proof (Z.div_mod i 4). lia.
    + symmetry. apply (Z.mod_unique _ _ (3 - i / 4)).
      * pose proof (Z.mod_pos_bound i 4). lia.
      * pose proof (Z.div_mod i 4). lia.
  - split; [done|]. split; [done|]. intros Hi. split; [lia|]. discriminate.
Qed.

Lemma display_index_is_half_turn_witness :
  indexToRowCol (OnlineClient.getDisplayIndex (seatedClient PLAYER_O) 6) = (2, 1).
Proof.
  refine (proj2 (proj2 (proj2 (display_index_is_half_turn (seatedClient PLAYER_O) 6)) _) _);
    [unfold BOARD_CELLS; lia | reflexivity].
Defined.

(** ** The move history *)

Lemma lookup_last_pushed {A : Type} (h : list A) (s : A) :
  (if Z.of_nat (length (h ++ [s])) - 1 <? 0 then None
   else (h ++ [s]) !! Z.to_nat (Z.of_nat (length (h ++ [s])) - 1)) = Some s.
Proof.
  rewrite length_app. simpl.
  replace (Z.of_nat (length h + 1) - 1) with (Z.of_nat (length h)) by lia.
  destruct (Z.of_nat (length h) <? 0) eqn:Hneg; [apply Z.ltb_lt in Hneg; lia|].
  rewrite Nat2Z.id. by rewrite lookup_app_r, Nat.sub_diag.
Qed.

Lemma recordHistorySnapshot_cursor (c : OnlineClient.Client) :
  OnlineClient.snapshotAtCursor (OnlineClient.recordHistorySnapshot c)
  = Some (OnlineClient.position c).
Proof.
  unfold OnlineClient.snapshotAtCursor, OnlineClient.recordHistorySnapshot. simpl.
  rewrite copyPosition_id. apply lookup_last_pushed.
Qed.

(** What the proofs about the history carry along: the snapshot under the
    cursor shows the board, and an online client has a connection. *)
Lemma running_history (c : OnlineClient.Client) :
  OnlineClient.running c ->
  (exists s, OnlineClient.snapshotAtCursor c = Some s /\
             OnlineClient.board s = OnlineClient.board (OnlineClient.position c) /\
             OnlineClient.pools s = OnlineClient.pools (OnlineClient.position c) /\
             OnlineClient.lastMoveIndex s = OnlineClient.lastMoveIndex (OnlineClient.position c)) /\
  (OnlineClient.gameMode c = OnlineClient.ModeOnline -> OnlineClient.socket c = true).
Proof.
  assert (forall c,
      (OnlineClient.gameMode c = OnlineClient.ModeOnline -> OnlineClient.socket c = true) ->
      OnlineClient.gameMode c ≠ OnlineClient.ModeOnline ->
      (exists s, OnlineClient.snapshotAtCursor (OnlineClient.afterAction c) = Some s /\
         OnlineClient.board s = OnlineClient.board (OnlineClient.position (OnlineClient.afterAction c)) /\
         OnlineClient.pools s = OnlineClient.pools (OnlineClient.position (OnlineClient.afterAction c)) /\
         OnlineClient.lastMoveIndex s
         = OnlineClient.lastMoveIndex (OnlineClient.position (OnlineClient.afterAction c))) /\
      (OnlineClient.gameMode (OnlineClient.afterAction c) = OnlineClient.ModeOnline ->
       OnlineClient.socket (OnlineClient.afterAction c) = true)) as Hafter.
  { intros c0 Himp Hm. unfold OnlineClient.afterAction.
    destruct (OnlineClient.gameMode c0) eqn:Hmode; [| |done].
    all: destruct (checkWinner _); [|destruct (isBoardFull _)].
    all: (split; [eexists; split; [apply recordHistorySnapshot_cursor|done]
                 |simpl; rewrite Hmode; discriminate]). }
  induction 1 as [c|c mode _ IH|c side t index _ IH|c from to _ IH|c d _ IH|c g _ IH
                 |c pid full _ IH|c sb sp _ IH|c _ IH].
  - split.
    + eexists. split; [apply recordHistorySnapshot_cursor|done].
    + simpl. intros ->. rewrite bool_decide_eq_true_2 by done. apply orb_true_r.
  - split.
    + eexists. split; [apply recordHistorySnapshot_cursor|done].
    + unfold OnlineClient.setGameMode. simpl. intros ->. simpl.
      rewrite andb_false_r. simpl. apply orb_true_r.
  - destruct IH as [IHs IHc]. unfold OnlineClient.placePiece.
    destruct (OnlineClient.gameOver _); [done|].
    destruct (OnlineClient.viewingHistory c); [done|].
    destruct (negb _); [done|]. destruct (notNull _); [done|].
    destruct (bool_decide (OnlineClient.gameMode c = OnlineClient.ModeOnline)
              && OnlineClient.socket c) eqn:Honline.
    { destruct (negb _); [done|]. by destruct (negb _). }
    destruct (indexOf _ _); [|done]. simpl.
    apply Hafter; simpl; [done|].
    apply andb_false_iff in Honline as [Hm%bool_decide_eq_false|Hs]; [done|].
    intros Hm. rewrite (IHc Hm) in Hs. discriminate.
  - destruct IH as [IHs IHc]. unfold OnlineClient.tryMovePiece.
    destruct (OnlineClient.gameOver _); [done|].
    destruct (OnlineClient.viewingHistory c); [done|].
    destruct (negb _); [done|].
    destruct (arr_get _ _) as [| |fromCell]; [done|done|].
    destruct (negb _); [done|]. destruct (bool_decide (from = to)); [done|].
    destruct (ownedBy _ _); [done|]. destruct (negb _); [done|].
    destruct (bool_decide (OnlineClient.gameMode c = OnlineClient.ModeOnline)
              && OnlineClient.socket c) eqn:Honline.
    { destruct (negb _); [done|]. by destruct (negb _). }
    simpl. apply Hafter; simpl; [done|].
    apply andb_false_iff in Honline as [Hm%bool_decide_eq_false|Hs]; [done|].
    intros Hm. rewrite (IHc Hm) in Hs. discriminate.
  - destruct IH as [IHs IHc]. unfold OnlineClient.stepHistory.
    case_bool_decide; [done|].
    destruct (_ || _) eqn:Hrange; [done|].
    apply orb_false_iff in Hrange as [Hlo%Z.ltb_ge Hhi%Z.leb_gt]. simpl.
    destruct (OnlineClient.moveHistory c !! Z.to_nat (OnlineClient.moveIndex c + d))
      as [s|] eqn:Hs.
    + rewrite copyPosition_id. split; [|done]. exists s.
      unfold OnlineClient.snapshotAtCursor. simpl.
      by destruct (_ <? 0) eqn:Hneg; [apply Z.ltb_lt in Hneg; lia|].
    + apply lookup_ge_None in Hs. lia.
  - destruct IH as [IHs IHc]. unfold OnlineClient.syncGameStateFromServer.
    match goal with |- context [OnlineClient.recordHistorySnapshot ?c0] =>
      pose proof (recordHistorySnapshot_cursor c0) as Hcur; set (c1 := c0) in * end.
    destruct (ServerJs.winner g); [|destruct (ServerJs.gameOver g)];
      (split; [eexists; split; [exact Hcur|done]|done]).
  - done.
  - done.
  - done.
Qed.

(** X24. The history never lags behind the board: in every state of the client
    the history is not empty, the cursor points into it, and the snapshot under
    the cursor holds the board, the pools and the highlighted cell that are on
    screen. *)
Theorem history_follows_the_board (c : OnlineClient.Client) :
  OnlineClient.running c ->
  0 <= OnlineClient.moveIndex c < Z.of_nat (length (OnlineClient.moveHistory c)) /\
  exists s, OnlineClient.moveHistory c !! Z.to_nat (OnlineClient.moveIndex c) = Some s /\
            OnlineClient.board s = OnlineClient.board (OnlineClient.position c) /\
            OnlineClient.pools s = OnlineClient.pools (OnlineClient.position c) /\
            OnlineClient.lastMoveIndex s = OnlineClient.lastMoveIndex (OnlineClient.position c).
Proof.
  intros [(s & Hs & Hb & Hp & Hl) _]%running_history.
  unfold OnlineClient.snapshotAtCursor in Hs.
  destruct (_ <? 0) eqn:Hneg; [done|]. apply Z.ltb_ge in Hneg.
  split; [|by exists s].
  apply lookup_lt_Some in Hs. lia.
Qed.

Lemma history_follows_the_board_witness :
  exists s, OnlineClient.moveHistory localAfterRook
            !! Z.to_nat (OnlineClient.moveIndex localAfterRook) = Some s /\
            OnlineClient.board s = OnlineClient.board (OnlineClient.position localAfterRook).
Proof.
  destruct (history_follows_the_board localAfterRook) as (_ & s & Hs & Hb & _).
  - apply OnlineClient.run_place, OnlineClient.run_init.
  - by exists s.
Defined.

Lemma stepHistory_in_range (c : OnlineClient.Client) (direction : Z) (s : OnlineClient.Position) :
  0 <= OnlineClient.moveIndex c + direction ->
  OnlineClient.moveHistory c !! Z.to_nat (OnlineClient.moveIndex c + direction) = Some s ->
  OnlineClient.stepHistory c direction
  = OnlineClient.withPosition
      (OnlineClient.withHistory c (OnlineClient.moveHistory c)
         (OnlineClient.moveIndex c + direction)) s.
Proof.
  intros Hlo Hs. unfold OnlineClient.stepHistory.
  pose proof (lookup_lt_Some _ _ _ Hs) as Hlt.
  rewrite bool_decide_eq_false_2 by lia.
  replace (OnlineClient.moveIndex c + direction <? 0) with false
    by (symmetry; apply Z.ltb_ge; lia).
  replace (Z.of_nat (length (OnlineClient.moveHistory c))
           <=? OnlineClient.moveIndex c + direction) with false
    by (symmetry; apply Z.leb_gt; lia).
  simpl. by rewrite Hs, copyPosition_id.
Qed.

(** X25. Browsing the history loses nothing.  When the position on screen is
    the snapshot under the cursor and a step stays inside the history, the step
    shows the snapshot it lands on, and the opposite step brings back the
    client exactly as it was. *)
Theorem stepping_there_and_back (c : OnlineClient.Client) (direction : Z) :
  0 <= OnlineClient.moveIndex c ->
  OnlineClient.moveHistory c !! Z.to_nat (OnlineClient.moveIndex c)
  = Some (OnlineClient.position c) ->
  0 <= OnlineClient.moveIndex c + direction
       < Z.of_nat (length (OnlineClient.moveHistory c)) ->
  OnlineClient.moveHistory c !! Z.to_nat (OnlineClient.moveIndex c + direction)
  = Some (OnlineClient.position (OnlineClient.stepHistory c direction)) /\
  OnlineClient.stepHistory (OnlineClient.stepHistory c direction) (- direction) = c.
Proof.
  intros Hidx Hcur [Hlo Hhi].
  destruct (OnlineClient.moveHistory c !! Z.to_nat (OnlineClient.moveIndex c + direction))
    as [s|] eqn:Hs; [|apply lookup_ge_None in Hs; lia].
  rewrite (stepHistory_in_range c direction s Hlo Hs). split; [done|].
  rewrite (stepHistory_in_range _ (- direction) (OnlineClient.position c)); simpl.
  - destruct c. unfold OnlineClient.withPosition, OnlineClient.withHistory. simpl in *.
    f_equal. lia.
  - lia.
  - by replace (OnlineClient.moveIndex c + direction + - direction)
      with (OnlineClient.moveIndex c) by lia.
Qed.

Lemma stepping_there_and_back_witness :
  OnlineClient.stepHistory (OnlineClient.stepHistory localAfterRook (-1)) (- -1)
  = localAfterRook.
Proof.
  refine (proj2 (stepping_there_and_back localAfterRook (-1) _ _ _));
    [vm_compute; discriminate | reflexivity | vm_compute; split; [discriminate|reflexivity]].
Defined.

Lemma recordHistorySnapshot_shape (c : OnlineClient.Client) :
  0 <= OnlineClient.moveIndex c < Z.of_nat (length (OnlineClient.moveHistory c)) ->
  OnlineClient.moveHistory (OnlineClient.recordHistorySnapshot c)
  = take (Z.to_nat (OnlineClient.moveIndex c + 1)) (OnlineClient.moveHistory c)
    ++ [OnlineClient.position c] /\
  OnlineClient.moveIndex (OnlineClient.recordHistorySnapshot c) = OnlineClient.moveIndex c + 1.
Proof.
  intros [Hlo Hhi]. unfold OnlineClient.recordHistorySnapshot. simpl.
  rewrite copyPosition_id.
  assert ((if (0 <=? OnlineClient.moveIndex c)
              && (OnlineClient.moveIndex c <? Z.of_nat (length (OnlineClient.moveHistory c)) - 1)
           then take (Z.to_nat (OnlineClient.moveIndex c + 1)) (OnlineClient.moveHistory c)
           else OnlineClient.moveHistory c)
          = take (Z.to_nat (OnlineClient.moveIndex c + 1)) (OnlineClient.moveHistory c)) as ->.
  { destruct (_ && _) eqn:Hcond; [done|].
    apply andb_false_iff in Hcond as [Hc%Z.leb_gt|Hc%Z.ltb_ge]; [lia|].
    rewrite take_ge; [done|lia]. }
  split; [done|].
  rewrite length_app, length_take. simpl. lia.
Qed.

(** X26. A state sent by the server becomes the snapshot right after the
    cursor.  Whatever the client shows when the update arrives, the snapshots
    up to the cursor are kept, the ones after it are dropped, the new snapshot
    with the server's board, pools and side to move is appended, and the
    cursor moves onto it. *)
Theorem update_replaces_later_snapshots (c : OnlineClient.Client) (g : ServerJs.GameState) :
  OnlineClient.running c ->
  OnlineClient.moveIndex (OnlineClient.syncGameStateFromServer c g)
  = OnlineClient.moveIndex c + 1 /\
  exists s,
    OnlineClient.moveHistory (OnlineClient.syncGameStateFromServer c g)
    = take (Z.to_nat (OnlineClient.moveIndex c + 1)) (OnlineClient.moveHistory c) ++ [s] /\
    OnlineClient.board s = ServerJs.board g /\ OnlineClient.pools s = ServerJs.pools g /\
    OnlineClient.currentPlayer s = ServerJs.currentPlayer g /\
    OnlineClient.gameOver s = ServerJs.gameOver g.
Proof.
  intros [(s0 & Hs0 & _) _]%running_history.
  assert (0 <= OnlineClient.moveIndex c < Z.of_nat (length (OnlineClient.moveHistory c)))
    as Hrange.
  { unfold OnlineClient.snapshotAtCursor in Hs0.
    destruct (_ <? 0) eqn:Hneg; [done|]. apply Z.ltb_ge in Hneg.
    apply lookup_lt_Some in Hs0. lia. }
  unfold OnlineClient.syncGameStateFromServer.
  match goal with |- context [OnlineClient.recordHistorySnapshot ?c0] =>
    destruct (recordHistorySnapshot_shape c0 Hrange) as [Hh Hi]; set (c1 := c0) in * end.
  assert (OnlineClient.moveIndex (OnlineClient.recordHistorySnapshot c1)
          = OnlineClient.moveIndex c + 1 /\
          exists s,
            OnlineClient.moveHistory (OnlineClient.recordHistorySnapshot c1)
            = take (Z.to_nat (OnlineClient.moveIndex c + 1)) (OnlineClient.moveHistory c) ++ [s] /\
            OnlineClient.board s = ServerJs.board g /\ OnlineClient.pools s = ServerJs.pools g /\
            OnlineClient.currentPlayer s = ServerJs.currentPlayer g /\
            OnlineClient.gameOver s = ServerJs.gameOver g) as Hgoal.
  { split; [exact Hi|]. eexists. split; [exact Hh|]. subst c1. simpl.
    rewrite copyBoard_id. by destruct (ServerJs.pools g). }
  destruct (ServerJs.winner g); [exact Hgoal|]. by destruct (ServerJs.gameOver g).
Qed.

Lemma update_replaces_later_snapshots_witness :
  OnlineClient.moveIndex (syncedClient PLAYER_X afterOpening) = 1.
Proof.
  apply (proj1 (update_replaces_later_snapshots (seatedClient PLAYER_X) afterOpening
                  (OnlineClient.run_handler _ _ _ (OnlineClient.run_init _)))).
Defined.

(** ** The client and the server *)

Lemma client_isLegalMove_server (b : Board) (fromIndex toIndex : nat) (piece : Piece) :
  OnlineClient.isLegalMove b fromIndex toIndex piece
  = ServerJs.isLegalMove b fromIndex toIndex piece.
Proof. reflexivity. Qed.

(** X27. The online client checks a move the way the server does.  When the
    client shows the server's position and plays the side the server gave it,
    every move it sends is accepted by the server; a placement it sends is
    accepted when the piece is in the sender's pool, and otherwise refused
    with "Piece not available", the one check the client leaves to the
    server.  Sending changes nothing on the client. *)
Theorem online_client_moves_are_accepted (c : OnlineClient.Client) (g : ServerJs.GameState)
    (side : Player) :
  OnlineClient.mirrors c g -> OnlineClient.onlinePlayerId c = Some side ->
  (forall fromIndex toIndex c' ok data,
     OnlineClient.tryMovePiece c fromIndex toIndex = (c', ok, Some data) ->
     c' = c /\ ok = true /\ data = OnlineClient.moveMessage fromIndex toIndex /\
     exists g', ServerJs.makeMoveOnGame g side data = inr g') /\
  (forall who t index c' data,
     OnlineClient.placePiece c who t index = (c', Some data) ->
     c' = c /\ who = side /\ data = OnlineClient.placeMessage index t /\
     match ServerJs.makeMoveOnGame g side data with
     | inr _ => In t (getPool (ServerJs.pools g) side)
     | inl message =>
         message = "Piece not available" /\ ~ In t (getPool (ServerJs.pools g) side)
     end).
Proof.
  intros (Hb & Hp & Hcur & Hover) Hid. split.
  - intros from to c' ok data. unfold OnlineClient.tryMovePiece.
    unfold OnlineClient.canCurrentPlayerMovePieces. rewrite Hb, Hcur, Hover, Hid.
    destruct (ServerJs.gameOver g) eqn:Hgo; [discriminate|].
    destruct (OnlineClient.viewingHistory c); [discriminate|].
    destruct (bothPlayersHaveThree (ServerJs.board g)) eqn:Hthree; simpl; [|discriminate].
    destruct (arr_get (ServerJs.board g) from) as [| |fromCell] eqn:Hfrom;
      [discriminate|discriminate|].
    destruct (bool_decide (player fromCell = ServerJs.currentPlayer g)) eqn:Hown; simpl;
      [|discriminate].
    apply bool_decide_eq_true in Hown.
    destruct (bool_decide (from = to)); [discriminate|].
    destruct (ownedBy (ServerJs.currentPlayer g) _) eqn:Hto; [discriminate|].
    destruct (OnlineClient.isLegalMove _ _ _ _) eqn:Hlegal; simpl; [|discriminate].
    destruct (_ && _); [|discriminate].
    destruct (OnlineClient.isRoomFull c); simpl; [|discriminate].
    destruct (bool_decide (Some (player fromCell) = Some side)) eqn:Hside; simpl;
      [|discriminate].
    apply bool_decide_eq_true in Hside. injection Hside as Hside.
    intros [= <- <- <-]. repeat split.
    unfold ServerJs.makeMoveOnGame. simpl. rewrite Hgo.
    rewrite bool_decide_eq_true_2 by congruence. simpl.
    rewrite Hthree, Hfrom. simpl.
    rewrite (bool_decide_eq_true_2 (player fromCell = side)) by done. simpl.
    rewrite <- Hside, Hown, Hto, <- client_isLegalMove_server, Hlegal. simpl. eauto.
  - intros who t index c' data. unfold OnlineClient.placePiece.
    rewrite Hb, Hcur, Hover, Hid.
    destruct (ServerJs.gameOver g) eqn:Hgo; [discriminate|].
    destruct (OnlineClient.viewingHistory c); [discriminate|].
    destruct (bool_decide (who = ServerJs.currentPlayer g)) eqn:Hturn; simpl; [|discriminate].
    apply bool_decide_eq_true in Hturn.
    destruct (notNull _) eqn:Hcell; [discriminate|].
    destruct (_ && _).
    + destruct (OnlineClient.isRoomFull c); simpl; [|discriminate].
      destruct (bool_decide (Some who = Some side)) eqn:Hside; simpl; [|discriminate].
      apply bool_decide_eq_true in Hside. injection Hside as ->.
      intros [= <- <-]. repeat split.
      unfold ServerJs.makeMoveOnGame. simpl. rewrite Hgo.
      rewrite bool_decide_eq_true_2 by done. simpl. rewrite Hcell.
      destruct (indexOf t _) as [idx|] eqn:Hidx.
      * apply indexOf_In. eauto.
      * split; [done|]. intros [idx Hin]%indexOf_In. congruence.
    + destruct (indexOf _ _); [|discriminate]. discriminate.
Qed.

Lemma online_client_moves_are_accepted_witness :
  OnlineClient.tryMovePiece (syncedClient PLAYER_X afterOpening) 0 1
    = (syncedClient PLAYER_X afterOpening, true, Some (OnlineClient.moveMessage 0 1)) /\
  exists g', ServerJs.makeMoveOnGame afterOpening PLAYER_X (OnlineClient.moveMessage 0 1)
             = inr g'.
Proof.
  split; [reflexivity|].
  refine (proj2 (proj2 (proj2
            (proj1 (online_client_moves_are_accepted
                      (syncedClient PLAYER_X afterOpening) afterOpening PLAYER_X _ _)
               0%nat 1%nat (syncedClient PLAYER_X afterOpening) true
               (OnlineClient.moveMessage 0 1) _))));
    [repeat split | reflexivity | reflexivity].
Defined.

(** ** The highlighted cell *)

Lemma find_seq_first (f : nat -> bool) (start n d : nat) :
  (start <= d < start + n)%nat -> f d = true ->
  (forall i, (start <= i < d)%nat -> f i = false) ->
  find f (seq start n) = Some d.
Proof.
  revert start. induction n as [|n IH]; intros start Hd Hfd Hbefore; [lia|].
  simpl. destruct (decide (start = d)) as [->|Hne].
  - by rewrite Hfd.
  - rewrite Hbefore by lia. apply IH; [lia|done|]. intros i Hi. apply Hbefore. lia.
Qed.

Lemma cellChanged_same (s : Slot Piece) : OnlineClient.cellChanged s s = false.
Proof. destruct s as [| |pc]; simpl; [done|done|]. by rewrite !bool_decide_eq_true_2. Qed.

Lemma cellChanged_emptied (s : Slot Piece) : OnlineClient.cellChanged s Null = false.
Proof. by destruct s. Qed.

Lemma movedPiece_player (fromCell : Piece) (toIndex : nat) :
  player (movedPiece fromCell toIndex) = player fromCell.
Proof.
  unfold movedPiece. destruct (type fromCell), (dir fromCell); try done.
  by destruct (_ || _).
Qed.

Lemma cellChanged_taken (side : Player) (toCell : Slot Piece) (piece : Piece) :
  ownedBy side toCell = false -> player piece = side ->
  OnlineClient.cellChanged toCell (Occ piece) = true.
Proof.
  intros Hto Hside. destruct toCell as [| |t]; simpl in *; [done|done|].
  apply bool_decide_eq_false in Hto.
  rewrite (bool_decide_eq_false_2 (player t = player piece)) by congruence. done.
Qed.

Lemma firstChanged_place (b : Board) (index : nat) (piece : Piece) :
  wfBoard b -> arr_get b index = Null ->
  OnlineClient.firstChanged b (arr_set index (Occ piece) b) = Some index.
Proof.
  intros [Hlen _] Hcell. unfold OnlineClient.firstChanged.
  apply find_seq_first.
  - split; [lia|]. simpl. rewrite <- Hlen. apply arr_get_lt. by rewrite Hcell.
  - by rewrite arr_get_set, bool_decide_eq_true_2, Hcell.
  - intros i Hi. rewrite arr_get_set_ne by lia. apply cellChanged_same.
Qed.

Lemma firstChanged_move (b : Board) (fromIndex toIndex : nat) (fromCell : Piece) :
  arr_get b fromIndex = Occ fromCell -> (toIndex < BOARD_CELLS)%nat ->
  ownedBy (player fromCell) (arr_get b toIndex) = false ->
  OnlineClient.firstChanged b (movePieceOnBoard b fromIndex toIndex fromCell) = Some toIndex.
Proof.
  intros Hfrom Hto Hown.
  assert (fromIndex ≠ toIndex) as Hne.
  { intros ->. rewrite Hfrom in Hown. simpl in Hown.
    by rewrite bool_decide_eq_true_2 in Hown. }
  unfold OnlineClient.firstChanged. apply find_seq_first.
  - simpl. lia.
  - rewrite movePieceOnBoard_get by done.
    rewrite (bool_decide_eq_false_2 (toIndex = fromIndex)) by done.
    rewrite (bool_decide_eq_true_2 (toIndex = toIndex)) by done.
    apply (cellChanged_taken (player fromCell)); [done|apply movedPiece_player].
  - intros i Hi. rewrite movePieceOnBoard_get by done.
    case_bool_decide; [apply cellChanged_emptied|].
    rewrite bool_decide_eq_false_2 by lia. apply cellChanged_same.
Qed.

Lemma sync_lastMoveIndex (c : OnlineClient.Client) (g : ServerJs.GameState) :
  (0 < length (OnlineClient.board (OnlineClient.position c)))%nat ->
  OnlineClient.lastMoveIndex (OnlineClient.position (OnlineClient.syncGameStateFromServer c g))
  = if negb (bool_decide (OnlineClient.currentPlayer (OnlineClient.position c)
                          = ServerJs.currentPlayer g))
       && negb (ServerJs.gameOver g)
    then match OnlineClient.firstChanged (OnlineClient.board (OnlineClient.position c))
                 (ServerJs.board g) with
         | Some i => Some i
         | None => OnlineClient.lastMoveIndex (OnlineClient.position c)
         end
    else OnlineClient.lastMoveIndex (OnlineClient.position c).
Proof.
  intros Hlen. unfold OnlineClient.syncGameStateFromServer.
  rewrite bool_decide_eq_true_2 by done. rewrite !copyBoard_id.
  by destruct (ServerJs.winner g); [|destruct (ServerJs.gameOver g)].
Qed.

(** X28. The highlight follows the game.  A client that shows the server's
    board receives the state after an accepted placement or move (to one of
    the sixteen cells): if the game goes on, the highlighted cell becomes the
    cell the action ended on; if the action ended the game, the highlight
    stays where it was. *)
Theorem update_highlights_the_destination (c : OnlineClient.Client)
    (g g' : ServerJs.GameState) (side : Player) (data : ServerJs.MoveData) :
  OnlineClient.board (OnlineClient.position c) = ServerJs.board g ->
  OnlineClient.currentPlayer (OnlineClient.position c) = ServerJs.currentPlayer g ->
  wfBoard (ServerJs.board g) ->
  ServerJs.d_action data = "place" \/
  ServerJs.d_action data = "move" /\ (ServerJs.d_toIndex data < BOARD_CELLS)%nat ->
  ServerJs.makeMoveOnGame g side data = inr g' ->
  OnlineClient.lastMoveIndex (OnlineClient.position (OnlineClient.syncGameStateFromServer c g'))
  = if ServerJs.gameOver g' then OnlineClient.lastMoveIndex (OnlineClient.position c)
    else Some (destination data).
Proof.
  intros Hb Hcur Hwf Hact Hstep.
  rewrite sync_lastMoveIndex by (rewrite Hb; destruct Hwf as [-> _]; unfold BOARD_CELLS; lia).
  destruct (ServerJs.gameOver g') eqn:Hover; [by rewrite andb_false_r|].
  destruct (makeMoveOnGame_accepted _ _ _ _ Hstep) as (_ & Hturn & b0 & p0 & Hg').
  assert (ServerJs.currentPlayer g' = otherPlayer side) as Hnext.
  { revert Hover. rewrite Hg'. unfold ServerJs.checkEnd. simpl.
    destruct (checkWinner b0); [done|]. by destruct (isBoardFull b0). }
  rewrite Hcur, Hturn, Hnext.
  rewrite (bool_decide_eq_false_2 (side = otherPlayer side)) by (by destruct side).
  simpl. rewrite Hb. unfold destination.
  destruct (makeMoveOnGame_cases _ _ _ _ Hstep)
    as [(Hplace & Hcell & idx & _ & ->)
       |[(Hmove & _ & fromCell & Hfrom & Hown & Hto & _ & ->)|(Hn1 & Hn2 & _)]];
    [| |by destruct Hact as [?|[? _]]];
    match goal with |- context [ServerJs.checkEnd ?s] =>
      destruct (server_checkEnd_position s) as [-> _] end; simpl.
  - rewrite Hplace. simpl. by rewrite firstChanged_place.
  - rewrite Hmove. simpl. destruct Hact as [Hact|[_ Hlt]]; [congruence|].
    rewrite firstChanged_move; [done|done|done|by rewrite Hown].
Qed.

Lemma update_highlights_the_destination_witness :
  OnlineClient.lastMoveIndex
    (OnlineClient.position
       (OnlineClient.syncGameStateFromServer (syncedClient PLAYER_O afterOpening) afterCapture))
  = Some 1%nat.
Proof.
  refine (update_highlights_the_destination (syncedClient PLAYER_O afterOpening)
            afterOpening afterCapture PLAYER_X (moveMsg 0 1) _ _ _ _ _);
    [reflexivity | reflexivity | by split | right; split; [reflexivity|vm_compute; lia]
    | reflexivity].
Defined.

Lemma index_row_col_round_trip_witness : indexToRowCol (rowColToIndex 2 3) = (2, 3).
Proof. refine (proj2 (proj2 index_row_col_round_trip 2 3 _ _)); unfold BOARD_SIZE; lia. Defined.

(** * The games of a lobby *)

(** Every game of every room of a lobby is a state of [ServerJs.reachable]:
    the five handlers write a room's game only by the steps of that
    relation. *)
Lemma lobby_games_reachable (l : ServerRooms.Lobby) :
  ServerRooms.reachable l ->
  forall rid room,
    ServerJs.rooms (ServerRooms.lobbyServer l) !! rid = Some room ->
    ServerJs.reachable (ServerJs.gameState room).
Proof.
  induction 1 as [|l s stamp _ IH|l s stamp _ IH|l s r _ IH|l s data _ IH|l s _ IH];
    intros rid room.
  - simpl. by rewrite lookup_empty.
  - unfold ServerRooms.onFindOrCreateRoom, ServerRooms.createRoomFor.
    destruct (ServerRooms.findAvailableRoom _ _) as [avail|]; simpl.
    + destruct (String.eqb avail ""); simpl.
      * intros [[_ <-]|[_ Hroom]]%lookup_insert_Some; [apply ServerJs.reach_init|eauto].
      * destruct (ServerJs.rooms (ServerRooms.lobbyServer l) !! avail) as [old|] eqn:Hold;
          [|by apply IH].
        destruct (_ && _); simpl.
        -- intros [[_ <-]|[_ Hroom]]%lookup_insert_Some; [apply ServerJs.reach_init|eauto].
        -- intros [[_ <-]|[_ Hroom]]%lookup_insert_Some; [apply ServerJs.reach_init|eauto].
    + intros [[_ <-]|[_ Hroom]]%lookup_insert_Some; [apply ServerJs.reach_init|eauto].
  - unfold ServerRooms.onCreateRoom, ServerRooms.createRoomFor. simpl.
    intros [[_ <-]|[_ Hroom]]%lookup_insert_Some; [apply ServerJs.reach_init|eauto].
  - unfold ServerRooms.onJoinRoom.
    destruct (ServerJs.rooms (ServerRooms.lobbyServer l) !! r) as [old|] eqn:Hold;
      [|by apply IH].
    case_bool_decide; [by apply IH|]. case_bool_decide; [by apply IH|]. simpl.
    intros [[_ <-]|[_ Hroom]]%lookup_insert_Some; simpl; eauto.
  - unfold ServerRooms.onMakeMove.
    destruct (ServerJs.onMakeMove (ServerRooms.lobbyServer l) s data) as [st out] eqn:Hst.
    simpl. assert (st = fst (ServerJs.onMakeMove (ServerRooms.lobbyServer l) s data)) as ->
      by (by rewrite Hst).
    clear Hst. intros Hroom.
    destruct (onMakeMove_rooms (ServerRooms.lobbyServer l) s rid data)
      as [Heq|(info & old & g & Hinfo & -> & Hold & Hstep & Hnew)].
    + rewrite Heq in Hroom. eauto.
    + rewrite Hnew in Hroom. injection Hroom as <-. simpl.
      eapply ServerJs.reach_step; [by eapply IH|exact Hstep].
  - unfold ServerRooms.onDisconnect.
    destruct (ServerJs.onDisconnect (ServerRooms.lobbyServer l) s) as [st out] eqn:Hst.
    simpl. assert (st = fst (ServerJs.onDisconnect (ServerRooms.lobbyServer l) s)) as ->
      by (by rewrite Hst).
    clear Hst. unfold ServerJs.onDisconnect.
    destruct (ServerJs.registry (ServerRooms.lobbyServer l) !! s) as [info|]; [|by apply IH].
    destruct (ServerJs.rooms (ServerRooms.lobbyServer l) !! ServerJs.roomId info)
      as [old|] eqn:Hold; [|by apply IH].
    destruct (filter _ (ServerJs.players old)) as [|remaining rest]; simpl.
    { intros [_ Hroom]%lookup_delete_Some. eauto. }
    destruct (bool_decide (length (ServerJs.players old) = 2%nat)); simpl.
    + destruct (ServerJs.registry (ServerRooms.lobbyServer l) !! remaining) as [rinfo|]; simpl.
      * destruct (ServerJs.gameOver (ServerJs.gameState old)) eqn:Hover; simpl.
        -- intros [[_ <-]|[_ Hroom]]%lookup_insert_Some; simpl; eauto.
        -- intros [[_ <-]|[_ Hroom]]%lookup_insert_Some; simpl; [|eauto].
           apply ServerJs.reach_award; eauto.
      * intros [[_ <-]|[_ Hroom]]%lookup_insert_Some; simpl; eauto.
    + intros [[_ <-]|[_ Hroom]]%lookup_insert_Some; simpl; eauto.
Qed.

(** X11. The stored result follows the outcome detector.  On the server,
    every state an accepted [makeMove] leads to has the game-over flag set
    exactly when the detector reports a winner or a draw, and has the
    detector's winner as [winner]; the only other writer of the two fields is
    the disconnect handler, so in every state of a room's game a verdict of
    the detector is stored as it is, and a game that is over without one has
    the winner a disconnect named; this holds for the game of every room of
    every lobby the server can be in.  In the local game the flag is set
    exactly when the detector reports a winner or a draw. *)
Theorem stored_result_matches_detector :
  (forall g side data g',
     ServerJs.reachable g -> ServerJs.makeMoveOnGame g side data = inr g' ->
     (ServerJs.gameOver g' = true <-> detect (ServerJs.board g') ≠ NoOutcome) /\
     (forall w, ServerJs.winner g' = Some w <-> detect (ServerJs.board g') = Winner w)) /\
  (forall g, ServerJs.reachable g -> resultStored g) /\
  (forall l rid room,
     ServerRooms.reachable l ->
     ServerJs.rooms (ServerRooms.lobbyServer l) !! rid = Some room ->
     resultStored (ServerJs.gameState room)) /\
  (forall st, GameJs.reachable st ->
     (GameJs.gameOver st = true <-> detect (GameJs.board st) ≠ NoOutcome)).
Proof.
  split; [|split; [|split]].
  - intros g side data g'. apply server_step_result.
  - apply server_result_inv.
  - intros l rid room Hl Hroom. by eapply server_result_inv, lobby_games_reachable.
  - apply game_result_inv.
Qed.


Lemma stored_result_matches_detector_witness :
  (ServerJs.reachable afterWin /\ detect (ServerJs.board afterWin) = Winner PLAYER_X /\
   resultStored afterWin) /\
  (ServerRooms.reachable lobbyAbandoned /\
   ServerJs.rooms (ServerRooms.lobbyServer lobbyAbandoned) !! "room_1"
   = Some (ServerJs.mkRoom ["s2"] wonByDisconnect) /\
   detect (ServerJs.board wonByDisconnect) = NoOutcome /\
   resultStored wonByDisconnect).
Proof.
  assert (ServerRooms.reachable lobbyAbandoned) as Hl
    by apply ServerRooms.reach_disconnect, lobbyPlaying_reachable.
  assert (ServerJs.rooms (ServerRooms.lobbyServer lobbyAbandoned) !! "room_1"
          = Some (ServerJs.mkRoom ["s2"] wonByDisconnect)) as Hroom by (vm_compute; reflexivity).
  split.
  - split; [apply afterWin_reachable|]. split; [reflexivity|].
    exact (proj1 (proj2 stored_result_matches_detector) afterWin afterWin_reachable).
  - split; [exact Hl|]. split; [exact Hroom|]. split; [reflexivity|].
    exact (proj1 (proj2 (proj2 stored_result_matches_detector))
             lobbyAbandoned "room_1" _ Hl Hroom).
Defined.

(** * A connection with two seats *)

Lemma lobbyTwoSeats_reachable : ServerRooms.reachable lobbyTwoSeats.
Proof.
  apply ServerRooms.reach_find, ServerRooms.reach_create, ServerRooms.reach_find,
    ServerRooms.reach_empty.
Qed.

(** C9 fails on the server.  A connection that asks for a room and then
    creates another one keeps its seat in the first while the registry names
    only the second.  Once a second connection has been seated in the first
    room, that room holds two occupants and an unfinished game; when the first
    connection disconnects, the handler looks only at the room the registry
    names: the first room still lists the connection that is gone, its game
    is not over and has no winner, and nothing is sent to the occupant that
    stays, only the count of connections to everybody. *)
Theorem disconnect_skips_unregistered_seat :
  ServerRooms.reachable lobbyTwoSeats /\
  ServerJs.registry (ServerRooms.lobbyServer lobbyTwoSeats) !! "s1"
  = Some (ServerJs.mkPlayerInfo "room_2" PLAYER_X) /\
  ServerJs.rooms (ServerRooms.lobbyServer lobbyTwoSeats) !! "room_1"
  = Some (ServerJs.mkRoom ["s1"; "s3"] ServerJs.createInitialGameState) /\
  ServerJs.gameOver ServerJs.createInitialGameState = false /\
  ServerJs.rooms (ServerRooms.lobbyServer (fst (ServerRooms.onDisconnect lobbyTwoSeats "s1")))
    !! "room_1"
  = Some (ServerJs.mkRoom ["s1"; "s3"] ServerJs.createInitialGameState) /\
  snd (ServerRooms.onDisconnect lobbyTwoSeats "s1")
  = [ServerJs.IoEmit (ServerJs.EvOnlineCount 1)].
Proof.
  split; [apply lobbyTwoSeats_reachable|].
  repeat split; vm_compute; reflexivity.
Qed.

(** * Indices off the board *)

Lemma getAt_elements (b : Board) (k : Z) :
  Z.of_nat (length b) <= 2 ^ 32 - 1 ->
  ServerAnyIndex.getAt (ServerAnyIndex.mkBoardObject b ∅) k = arr_getZ b k.
Proof.
  intros Hlen. unfold ServerAnyIndex.getAt, ServerAnyIndex.isArrayIndex, arr_getZ. simpl.
  destruct (0 <=? k) eqn:Hlo; simpl.
  - apply Z.leb_le in Hlo. replace (k <? 0) with false by (symmetry; apply Z.ltb_ge; lia).
    destruct (k <? 2 ^ 32 - 1) eqn:Hhi; [done|].
    apply Z.ltb_ge in Hhi. rewrite lookup_empty.
    unfold arr_get. by rewrite lookup_ge_None_2 by lia.
  - apply Z.leb_gt in Hlo. replace (k <? 0) with true by (symmetry; apply Z.ltb_lt; lia).
    by rewrite lookup_empty.
Qed.

Lemma pathLoop_elements (fuel : nat) (b : Board) (r c tr tc stepRow stepCol : Z) :
  Z.of_nat (length b) <= 2 ^ 32 - 1 ->
  ServerAnyIndex.pathLoop fuel (ServerAnyIndex.mkBoardObject b ∅) r c tr tc stepRow stepCol
  = pathLoop fuel b r c tr tc stepRow stepCol.
Proof.
  intros Hlen. revert r c. induction fuel as [|fuel IH]; intros r c; simpl; [done|].
  rewrite getAt_elements by done. by rewrite IH.
Qed.

Lemma isLegalMove_elements (b : Board) (fromIndex toIndex : nat) (piece : Piece) :
  Z.of_nat (length b) <= 2 ^ 32 - 1 ->
  ServerAnyIndex.isLegalMove (ServerAnyIndex.mkBoardObject b ∅)
    (Z.of_nat fromIndex) (Z.of_nat toIndex) piece
  = ServerJs.isLegalMove b fromIndex toIndex piece.
Proof.
  intros Hlen. unfold ServerAnyIndex.isLegalMove, ServerJs.isLegalMove.
  destruct (indexToRowCol (Z.of_nat fromIndex)) as [fr fc].
  destruct (indexToRowCol (Z.of_nat toIndex)) as [tr tc].
  destruct (type piece); try done.
  - unfold ServerAnyIndex.isLegalPawnMove, ServerJs.isLegalPawnMove.
    destruct (dir piece); [|done]. by rewrite !getAt_elements.
  - unfold ServerAnyIndex.isLegalRookMove, isLegalRookMove.
    by rewrite pathLoop_elements.
  - unfold ServerAnyIndex.isLegalBishopMove, isLegalBishopMove.
    by rewrite pathLoop_elements.
Qed.

Lemma getAt_element (o : ServerAnyIndex.BoardObject) (i : nat) :
  ServerAnyIndex.isArrayIndex (Z.of_nat i) = true ->
  ServerAnyIndex.getAt o (Z.of_nat i) = arr_get (ServerAnyIndex.cells o) i.
Proof. intros Hi. unfold ServerAnyIndex.getAt. by rewrite Hi, Nat2Z.id. Qed.

Lemma setAt_element (o : ServerAnyIndex.BoardObject) (i : nat) (v : Slot Piece) :
  ServerAnyIndex.isArrayIndex (Z.of_nat i) = true ->
  ServerAnyIndex.setAt (Z.of_nat i) v o
  = ServerAnyIndex.mkBoardObject (arr_set i v (ServerAnyIndex.cells o)) (ServerAnyIndex.props o).
Proof. intros Hi. unfold ServerAnyIndex.setAt. by rewrite Hi, Nat2Z.id. Qed.

Lemma movePieceOnBoard_elements (b : Board) (fromIndex toIndex : nat) (fromCell : Piece) :
  ServerAnyIndex.isArrayIndex (Z.of_nat fromIndex) = true ->
  ServerAnyIndex.isArrayIndex (Z.of_nat toIndex) = true ->
  ServerAnyIndex.movePieceOnBoard (ServerAnyIndex.mkBoardObject b ∅)
    (Z.of_nat fromIndex) (Z.of_nat toIndex) fromCell
  = ServerAnyIndex.mkBoardObject (movePieceOnBoard b fromIndex toIndex fromCell) ∅.
Proof.
  intros Hfrom Hto. unfold ServerAnyIndex.movePieceOnBoard, movePieceOnBoard.
  rewrite !setAt_element by done. simpl.
  destruct (type fromCell), (dir fromCell); try done.
  destruct (_ || _); [|done].
  unfold ServerAnyIndex.setDirAt, setDirAt.
  rewrite getAt_element by done. simpl.
  destruct (arr_get _ toIndex); try done. by rewrite setAt_element.
Qed.

Lemma checkEnd_elements (g : ServerJs.GameState) :
  ServerAnyIndex.checkEnd (ServerAnyIndex.ofGameState g)
  = ServerAnyIndex.ofGameState (ServerJs.checkEnd g).
Proof.
  unfold ServerAnyIndex.checkEnd, ServerJs.checkEnd, ServerAnyIndex.ofGameState. simpl.
  destruct (checkWinner _); [done|]. by destruct (isBoardFull _).
Qed.

Lemma newPiece_elements (side : Player) (t : PieceType) (i : nat) :
  ServerAnyIndex.newPiece side t (Z.of_nat i) = ServerJs.newPiece side t i.
Proof.
  unfold ServerAnyIndex.newPiece, ServerJs.newPiece. destruct t; try done.
  assert (bool_decide (Z.of_nat i ∈ [12; 13; 14; 15]) = bool_decide (i ∈ [12; 13; 14; 15]%nat))
    as ->.
  { apply bool_decide_ext. rewrite !elem_of_cons, !elem_of_nil. lia. }
  assert (bool_decide (Z.of_nat i ∈ [0; 1; 2; 3]) = bool_decide (i ∈ [0; 1; 2; 3]%nat)) as ->.
  { apply bool_decide_ext. rewrite !elem_of_cons, !elem_of_nil. lia. }
  done.
Qed.

(** On the messages that name elements of the array, and on a board without
    other properties, the handler for any integer index is
    [ServerJs.makeMoveOnGame]. *)
Lemma makeMoveOnGame_elements (g : ServerJs.GameState) (side : Player)
    (data : ServerJs.MoveData) :
  Z.of_nat (length (ServerJs.board g)) <= 2 ^ 32 - 1 ->
  ServerAnyIndex.namesElements data ->
  ServerAnyIndex.makeMoveOnGame (ServerAnyIndex.ofGameState g) side
    (ServerAnyIndex.ofMoveData data)
  = match ServerJs.makeMoveOnGame g side data with
    | inl message => inl message
    | inr g' => inr (ServerAnyIndex.ofGameState g')
    end.
Proof.
  intros Hlen (Hindex & Hfrom & Hto).
  unfold ServerAnyIndex.makeMoveOnGame, ServerJs.makeMoveOnGame. simpl.
  destruct (ServerJs.gameOver g); [done|].
  destruct (negb _); [done|].
  destruct (String.eqb _ "place").
  { rewrite getAt_element by done. simpl.
    destruct (notNull _); [done|].
    destruct (indexOf _ _) as [idx|]; [|done].
    rewrite setAt_element, newPiece_elements by done. simpl.
    by rewrite <- checkEnd_elements. }
  destruct (String.eqb _ "move"); [|by rewrite <- checkEnd_elements].
  destruct (negb (bothPlayersHaveThree _)); [done|].
  rewrite !getAt_element by done. simpl.
  destruct (arr_get _ (ServerJs.d_fromIndex data)) as [| |fromCell]; [done|done|].
  destruct (negb _); [done|]. destruct (ownedBy _ _); [done|].
  rewrite isLegalMove_elements by done.
  destruct (negb _); [done|].
  rewrite movePieceOnBoard_elements by done.
  by rewrite <- checkEnd_elements.
Qed.

Lemma playAnyIndex_reachable (msgs : list (Player * ServerAnyIndex.MoveData))
    (g g' : ServerAnyIndex.GameState) :
  ServerAnyIndex.reachable g -> playAnyIndex g msgs = Some g' -> ServerAnyIndex.reachable g'.
Proof.
  revert g. induction msgs as [|[side data] rest IH]; intros g Hg; simpl.
  - by intros [= <-].
  - destruct (ServerAnyIndex.makeMoveOnGame g side data) as [|g1] eqn:Hstep; [discriminate|].
    apply IH. by eapply ServerAnyIndex.reach_step.
Qed.

Lemma afterOpening_reachable_any_index :
  ServerAnyIndex.reachable (ServerAnyIndex.ofGameState afterOpening).
Proof.
  apply (playAnyIndex_reachable openingAnyIndex ServerAnyIndex.createInitialGameState);
    [apply ServerAnyIndex.reach_init | reflexivity].
Qed.

Lemma cells_setAt_property (o : ServerAnyIndex.BoardObject) (k : Z) (v : Slot Piece) :
  ServerAnyIndex.isArrayIndex k = false ->
  ServerAnyIndex.cells (ServerAnyIndex.setAt k v o) = ServerAnyIndex.cells o.
Proof. intros Hk. unfold ServerAnyIndex.setAt. by rewrite Hk. Qed.

Lemma cells_setDirAt_property (o : ServerAnyIndex.BoardObject) (k d : Z) :
  ServerAnyIndex.isArrayIndex k = false ->
  ServerAnyIndex.cells (ServerAnyIndex.setDirAt o k d) = ServerAnyIndex.cells o.
Proof.
  intros Hk. unfold ServerAnyIndex.setDirAt.
  destruct (ServerAnyIndex.getAt o k); try done. by apply cells_setAt_property.
Qed.

(** C1 fails on the server.  The handler checks a destination only through
    the geometry of the move, so a move to an index that is not an array
    index is accepted whenever the geometry allows it and nothing is stored
    under that index: the piece is written to a property of the array object
    and its cell is cleared.  The sender's count on the board drops by one and
    its pool is unchanged, so if board and pool held its four pieces before,
    they hold three afterwards.  A placement on the same index is refused
    with "Cell is not empty". *)
Theorem move_off_board_loses_piece (g : ServerAnyIndex.GameState) (side : Player)
    (fromIndex toIndex : Z) (fromCell : Piece) (t : PieceType) :
  ServerAnyIndex.gameOver g = false -> ServerAnyIndex.currentPlayer g = side ->
  bothPlayersHaveThree (ServerAnyIndex.cells (ServerAnyIndex.board g)) = true ->
  ServerAnyIndex.isArrayIndex fromIndex = true ->
  ServerAnyIndex.getAt (ServerAnyIndex.board g) fromIndex = Occ fromCell ->
  player fromCell = side ->
  ServerAnyIndex.isArrayIndex toIndex = false ->
  ServerAnyIndex.props (ServerAnyIndex.board g) !! toIndex = None ->
  ServerAnyIndex.isLegalMove (ServerAnyIndex.board g) fromIndex toIndex fromCell = true ->
  (countPiecesOnBoard (ServerAnyIndex.cells (ServerAnyIndex.board g)) side
   + length (getPool (ServerAnyIndex.pools g) side) = 4)%nat ->
  (exists g',
     ServerAnyIndex.makeMoveOnGame g side
       (ServerAnyIndex.mkMoveData "move" 0 t fromIndex toIndex) = inr g' /\
     ServerAnyIndex.pools g' = ServerAnyIndex.pools g /\
     (countPiecesOnBoard (ServerAnyIndex.cells (ServerAnyIndex.board g')) side
      + length (getPool (ServerAnyIndex.pools g') side) = 3)%nat) /\
  ServerAnyIndex.makeMoveOnGame g side (ServerAnyIndex.mkMoveData "place" toIndex t 0 0)
  = inl "Cell is not empty".
Proof.
  intros Hover Hturn Hthree Hfrom Hcell Hside Hto Hprop Hlegal Hfour.
  assert (ServerAnyIndex.getAt (ServerAnyIndex.board g) toIndex = Hole) as Hhole.
  { unfold ServerAnyIndex.getAt. by rewrite Hto, Hprop. }
  split.
  - unfold ServerAnyIndex.makeMoveOnGame. simpl.
    rewrite Hover, bool_decide_eq_true_2 by done. simpl.
    rewrite Hthree, Hcell. simpl.
    rewrite bool_decide_eq_true_2 by done. simpl.
    rewrite Hhole, Hlegal. simpl.
    eexists. split; [reflexivity|].
    assert (forall s, ServerAnyIndex.pools (ServerAnyIndex.checkEnd s) = ServerAnyIndex.pools s
                      /\ ServerAnyIndex.board (ServerAnyIndex.checkEnd s)
                         = ServerAnyIndex.board s) as Hend.
    { intros s. unfold ServerAnyIndex.checkEnd.
      destruct (checkWinner _); [done|]. by destruct (isBoardFull _). }
    match goal with |- context [ServerAnyIndex.checkEnd ?s] =>
      destruct (Hend s) as [-> ->] end.
    simpl. split; [done|].
    assert (ServerAnyIndex.cells
              (ServerAnyIndex.movePieceOnBoard (ServerAnyIndex.board g)
                 fromIndex toIndex fromCell)
            = arr_set (Z.to_nat fromIndex) Null (ServerAnyIndex.cells (ServerAnyIndex.board g)))
      as ->.
    { unfold ServerAnyIndex.movePieceOnBoard.
      assert (ServerAnyIndex.cells
                (ServerAnyIndex.setAt fromIndex Null
                   (ServerAnyIndex.setAt toIndex (Occ fromCell) (ServerAnyIndex.board g)))
              = arr_set (Z.to_nat fromIndex) Null
                  (ServerAnyIndex.cells (ServerAnyIndex.board g))) as Hcells
        by (unfold ServerAnyIndex.setAt; by rewrite Hfrom, Hto).
      destruct (type fromCell), (dir fromCell); try done.
      destruct (_ || _); [|done].
      by rewrite cells_setDirAt_property. }
    pose proof (count_arr_set side (ServerAnyIndex.cells (ServerAnyIndex.board g))
                  (Z.to_nat fromIndex) Null) as Hcount.
    unfold ServerAnyIndex.getAt in Hcell. rewrite Hfrom in Hcell.
    rewrite Hcell in Hcount. simpl in Hcount.
    rewrite bool_decide_eq_true_2 in Hcount by done. lia.
  - unfold ServerAnyIndex.makeMoveOnGame. simpl.
    rewrite Hover, bool_decide_eq_true_2 by done. simpl. by rewrite Hhole.
Qed.

Lemma move_off_board_loses_piece_witness :
  ServerAnyIndex.reachable (ServerAnyIndex.ofGameState afterOpening) /\
  (exists g',
     ServerAnyIndex.makeMoveOnGame (ServerAnyIndex.ofGameState afterOpening) PLAYER_X moveOffBoard
     = inr g' /\
     ServerAnyIndex.pools g' = mkPools [Pawn] [Rook] /\
     (countPiecesOnBoard (ServerAnyIndex.cells (ServerAnyIndex.board g')) PLAYER_X
      + length (getPool (ServerAnyIndex.pools g') PLAYER_X) = 3)%nat) /\
  ServerAnyIndex.makeMoveOnGame (ServerAnyIndex.ofGameState afterOpening) PLAYER_X
    (ServerAnyIndex.mkMoveData "place" (-4) Pawn 0 0)
  = inl "Cell is not empty".
Proof.
  split; [apply afterOpening_reachable_any_index|].
  refine (move_off_board_loses_piece (ServerAnyIndex.ofGameState afterOpening) PLAYER_X
            0 (-4) (mkPiece PLAYER_X Rook None) Pawn _ _ _ _ _ _ _ _ _ _);
    vm_compute; reflexivity.
Defined.

(** * Play on the sixteen cells, whatever the other fields *)

Lemma playedOnCells_reachable (g : ServerJs.GameState) :
  playedOnCells g -> ServerJs.reachable g.
Proof.
  induction 1 as [|g side data g' _ IH _ Hstep|g remaining _ IH Hover].
  - apply ServerJs.reach_init.
  - by eapply ServerJs.reach_step.
  - by apply ServerJs.reach_award.
Qed.

Lemma getAt_Occ_elements (b : Board) (k : Z) (pc : Piece) :
  ServerAnyIndex.getAt (ServerAnyIndex.mkBoardObject b ∅) k = Occ pc ->
  ServerAnyIndex.isArrayIndex k = true.
Proof.
  unfold ServerAnyIndex.getAt. simpl.
  destruct (ServerAnyIndex.isArrayIndex k); [done|]. by rewrite lookup_empty.
Qed.

Lemma getAt_Null_elements (b : Board) (k : Z) :
  notNull (ServerAnyIndex.getAt (ServerAnyIndex.mkBoardObject b ∅) k) = false ->
  ServerAnyIndex.isArrayIndex k = true.
Proof.
  unfold ServerAnyIndex.getAt. simpl.
  destruct (ServerAnyIndex.isArrayIndex k); [done|]. by rewrite lookup_empty.
Qed.

Lemma isArrayIndex_nat (k : Z) :
  ServerAnyIndex.isArrayIndex k = true ->
  k = Z.of_nat (Z.to_nat k) /\ ServerAnyIndex.isArrayIndex (Z.of_nat (Z.to_nat k)) = true.
Proof.
  intros Hk. assert (0 <= k) as Hlo.
  { unfold ServerAnyIndex.isArrayIndex in Hk. apply andb_true_iff in Hk as [Hk _].
    by apply Z.leb_le. }
  by rewrite Z2Nat.id.
Qed.

(** An accepted message whose destination, if it is a move, is one of the
    sixteen cells is a message of [ServerJs.MoveData], with the same effect. *)
Lemma makeMoveOnGame_on_cells (gn : ServerJs.GameState) (side : Player)
    (data : ServerAnyIndex.MoveData) (g' : ServerAnyIndex.GameState) :
  Z.of_nat (length (ServerJs.board gn)) <= 2 ^ 32 - 1 ->
  (ServerAnyIndex.d_action data = "move" ->
   0 <= ServerAnyIndex.d_toIndex data < Z.of_nat BOARD_CELLS) ->
  ServerAnyIndex.makeMoveOnGame (ServerAnyIndex.ofGameState gn) side data = inr g' ->
  exists data' gn',
    (ServerJs.d_toIndex data' < BOARD_CELLS)%nat /\
    ServerJs.makeMoveOnGame gn side data' = inr gn' /\
    g' = ServerAnyIndex.ofGameState gn'.
Proof.
  intros Hlen Hto Hstep.
  assert (forall data',
            ServerAnyIndex.namesElements data' ->
            ServerAnyIndex.makeMoveOnGame (ServerAnyIndex.ofGameState gn) side
              (ServerAnyIndex.ofMoveData data') = inr g' ->
            exists gn', ServerJs.makeMoveOnGame gn side data' = inr gn' /\
                        g' = ServerAnyIndex.ofGameState gn') as Hnarrow.
  { intros data' Hnames Hstep'.
    rewrite (makeMoveOnGame_elements gn side data' Hlen Hnames) in Hstep'.
    destruct (ServerJs.makeMoveOnGame gn side data') as [|gn']; [discriminate|].
    injection Hstep' as <-. eauto. }
  assert (ServerAnyIndex.isArrayIndex 0 = true) as Hzero by reflexivity.
  revert Hstep. unfold ServerAnyIndex.makeMoveOnGame at 1. simpl.
  destruct (ServerJs.gameOver gn) eqn:Hover; [discriminate|].
  destruct (negb (bool_decide (ServerJs.currentPlayer gn = side))) eqn:Hturn; [discriminate|].
  destruct (String.eqb_spec (ServerAnyIndex.d_action data) "place") as [Hplace|Hplace].
  { destruct (notNull _) eqn:Hcell; [discriminate|].
    destruct (isArrayIndex_nat _ (getAt_Null_elements _ _ Hcell)) as [Hindex Hidx].
    intros Hstep.
    exists (ServerJs.mkMoveData "place" (Z.to_nat (ServerAnyIndex.d_index data))
              (ServerAnyIndex.d_type data) 0 0).
    destruct (Hnarrow (ServerJs.mkMoveData "place" (Z.to_nat (ServerAnyIndex.d_index data))
                         (ServerAnyIndex.d_type data) 0 0)) as (gn' & Hgn' & ->).
    - by repeat split.
    - unfold ServerAnyIndex.makeMoveOnGame, ServerAnyIndex.ofMoveData. simpl.
      rewrite Hover, Hturn. simpl. rewrite <- Hindex, Hcell. exact Hstep.
    - exists gn'. split; [simpl; unfold BOARD_CELLS; lia|]. done. }
  destruct (String.eqb_spec (ServerAnyIndex.d_action data) "move") as [Hmove|Hmove].
  { destruct (negb (bothPlayersHaveThree _)) eqn:Hthree; [discriminate|].
    destruct (ServerAnyIndex.getAt _ (ServerAnyIndex.d_fromIndex data))
      as [| |fromCell] eqn:Hfrom; [discriminate|discriminate|].
    destruct (isArrayIndex_nat _ (getAt_Occ_elements _ _ _ Hfrom)) as [Hfi Hfidx].
    specialize (Hto Hmove).
    assert (ServerAnyIndex.isArrayIndex (ServerAnyIndex.d_toIndex data) = true) as Htidx0.
    { unfold ServerAnyIndex.isArrayIndex, BOARD_CELLS in *.
      apply andb_true_iff. split; [apply Z.leb_le|apply Z.ltb_lt]; lia. }
    destruct (isArrayIndex_nat _ Htidx0) as [Hti Htidx].
    intros Hstep.
    exists (ServerJs.mkMoveData "move" 0 Pawn (Z.to_nat (ServerAnyIndex.d_fromIndex data))
              (Z.to_nat (ServerAnyIndex.d_toIndex data))).
    destruct (Hnarrow (ServerJs.mkMoveData "move" 0 Pawn
                         (Z.to_nat (ServerAnyIndex.d_fromIndex data))
                         (Z.to_nat (ServerAnyIndex.d_toIndex data)))) as (gn' & Hgn' & ->).
    - by repeat split.
    - unfold ServerAnyIndex.makeMoveOnGame, ServerAnyIndex.ofMoveData. simpl.
      rewrite Hover, Hturn. simpl. rewrite <- Hfi, <- Hti, Hthree, Hfrom. exact Hstep.
    - exists gn'. split; [simpl; unfold BOARD_CELLS in *; lia|]. done. }
  intros Hstep.
  exists (ServerJs.mkMoveData (ServerAnyIndex.d_action data) 0 Pawn 0 0).
  destruct (Hnarrow (ServerJs.mkMoveData (ServerAnyIndex.d_action data) 0 Pawn 0 0))
    as (gn' & Hgn' & ->).
  - by repeat split.
  - unfold ServerAnyIndex.makeMoveOnGame, ServerAnyIndex.ofMoveData. simpl.
    rewrite Hover, Hturn. simpl.
    destruct (String.eqb_spec (ServerAnyIndex.d_action data) "place"); [done|].
    destruct (String.eqb_spec (ServerAnyIndex.d_action data) "move"); [done|].
    exact Hstep.
  - exists gn'. split; [simpl; unfold BOARD_CELLS; lia|]. done.
Qed.

(** Play on the sixteen cells never leaves [ServerJs]: the board has no
    property besides its elements, and the state is one of [playedOnCells]. *)
Lemma playedOnCells_any_index (g : ServerAnyIndex.GameState) :
  ServerAnyIndex.playedOnCells g ->
  exists gn, playedOnCells gn /\ g = ServerAnyIndex.ofGameState gn.
Proof.
  induction 1 as [|g side data g' _ (gn & Hgn & ->) Hto Hstep
                 |g remaining _ (gn & Hgn & ->) Hover].
  - exists ServerJs.createInitialGameState. split; [apply cells_init|done].
  - destruct (makeMoveOnGame_on_cells gn side data g') as (data' & gn' & Hlt & Hstep' & ->);
      [|done|done|].
    + destruct (playedOnCells_wfBoard gn Hgn) as [-> _]. unfold BOARD_CELLS. lia.
    + exists gn'. split; [by eapply cells_step|done].
  - eexists. split; [by apply (cells_award gn remaining)|done].
Qed.

Lemma playAnyIndex_on_cells (msgs : list (Player * ServerAnyIndex.MoveData))
    (g g' : ServerAnyIndex.GameState) :
  ServerAnyIndex.playedOnCells g ->
  Forall (fun m => ServerAnyIndex.d_action (snd m) = "place") msgs ->
  playAnyIndex g msgs = Some g' -> ServerAnyIndex.playedOnCells g'.
Proof.
  revert g. induction msgs as [|[side data] rest IH]; intros g Hg Hmsgs; simpl.
  - by intros [= <-].
  - apply Forall_cons in Hmsgs as [Hplace Hrest]. simpl in Hplace.
    destruct (ServerAnyIndex.makeMoveOnGame g side data) as [|g1] eqn:Hstep; [discriminate|].
    apply IH; [|done].
    apply (ServerAnyIndex.cells_step g side data); [done| |done].
    intros Hmove. rewrite Hplace in Hmove. discriminate.
Qed.

(** On the sixteen cells the server conserves material, as the local game
    does everywhere. *)
Lemma playedOnCells_materialConserved (g : ServerAnyIndex.GameState) :
  ServerAnyIndex.playedOnCells g ->
  materialConserved (ServerAnyIndex.cells (ServerAnyIndex.board g)) (ServerAnyIndex.pools g).
Proof.
  intros (gn & Hgn & ->)%playedOnCells_any_index. simpl.
  apply reachable_materialConserved.
  apply (reachable_on_server _ _ gn); [by apply playedOnCells_reachable|done|done].
Qed.

Lemma game_materialConserved (st : GameJs.State) :
  GameJs.reachable st -> materialConserved (GameJs.board st) (GameJs.pools st).
Proof.
  intros Hst. apply reachable_materialConserved. by apply (reachable_in_game _ _ st).
Qed.

(** X16. As long as every move sent to the server names a destination among
    the sixteen cells, whatever integers the other fields of the messages
    are, and in every position of the local game, each side has exactly one
    pawn, one rook, one knight and one bishop, each of them either on the
    board or in the side's pool and never in both. *)
Theorem one_piece_of_each_kind :
  (forall g, ServerAnyIndex.playedOnCells g ->
     ServerAnyIndex.props (ServerAnyIndex.board g) = ∅ /\
     oneOfEachKind (ServerAnyIndex.cells (ServerAnyIndex.board g)) (ServerAnyIndex.pools g)) /\
  (forall st, GameJs.reachable st -> oneOfEachKind (GameJs.board st) (GameJs.pools st)).
Proof.
  split.
  - intros g (gn & Hgn & ->)%playedOnCells_any_index. split; [done|]. simpl.
    apply reachable_oneOfEachKind.
    apply (reachable_on_server _ _ gn); [by apply playedOnCells_reachable|done|done].
  - intros st Hst. apply reachable_oneOfEachKind.
    by apply (reachable_in_game _ _ st).
Qed.

Lemma one_piece_of_each_kind_witness :
  ServerAnyIndex.playedOnCells (ServerAnyIndex.ofGameState afterCapture) /\
  (countKindOnBoard (ServerJs.board afterCapture) PLAYER_O Knight
   + countKindInPool (getPool (ServerJs.pools afterCapture) PLAYER_O) Knight = 1)%nat.
Proof.
  assert (ServerAnyIndex.playedOnCells (ServerAnyIndex.ofGameState afterCapture)) as Hplayed.
  { apply (ServerAnyIndex.cells_step (ServerAnyIndex.ofGameState afterOpening) PLAYER_X
             (ServerAnyIndex.mkMoveData "move" (-7) Pawn 0 1));
      [|intros _; simpl; unfold BOARD_CELLS; lia|reflexivity].
    apply (playAnyIndex_on_cells openingAnyIndex ServerAnyIndex.createInitialGameState);
      [apply ServerAnyIndex.cells_init | repeat constructor | reflexivity]. }
  split; [exact Hplayed|].
  exact (proj2 (proj1 one_piece_of_each_kind _ Hplayed) PLAYER_O Knight).
Defined.
